(** * vue3-i18n-processor: the extraction-and-rewrite engine

    A shallow embedding of [batch-i18n-processor.js] (the revision with
    [outputPath], [isInVueBindingExpression] and [processQuotedStringOnce])
    and the properties of its specification.

    JavaScript strings are sequences of UTF-16 code units; a code unit is
    an [N], a string is a [list N].  Indices are [Z], as [indexOf] answers
    [-1] when nothing is found.  Regular expressions are values of an
    abstract syntax, run by a backtracking matcher that follows the
    ECMAScript semantics (leftmost match, greedy and lazy quantifiers,
    priority of the left alternative).  Where a comment quotes a pattern
    of the source, [\x22] stands for the double quote and blanks are added
    where two characters would otherwise close the comment. *)

From Stdlib Require Import String Ascii.
From Stdlib Require Import List Bool NArith ZArith Lia.
From Stdlib Require Import Permutation.
Import ListNotations.
Local Open Scope Z_scope.

(** ** JavaScript strings *)

Definition jsstring := list N.

Module JS.

(** Source text of this development is UTF-8; [js] turns a literal into
    the UTF-16 code units the JavaScript engine sees. *)
Fixpoint bytes_of (s : string) : list N :=
  match s with
  | EmptyString => []
  | String a r => N_of_ascii a :: bytes_of r
  end.

Fixpoint utf16_of_utf8 (l : list N) : jsstring :=
  match l with
  | [] => []
  | b :: r =>
      if (b <? 0x80)%N then b :: utf16_of_utf8 r
      else if (b <? 0xE0)%N then
        match r with
        | b2 :: r2 => ((b mod 32) * 64 + b2 mod 64)%N :: utf16_of_utf8 r2
        | _ => [0xFFFD%N]
        end
      else if (b <? 0xF0)%N then
        match r with
        | b2 :: b3 :: r3 =>
            ((b mod 16) * 4096 + (b2 mod 64) * 64 + b3 mod 64)%N
              :: utf16_of_utf8 r3
        | _ => [0xFFFD%N]
        end
      else
        match r with
        | b2 :: b3 :: b4 :: r4 =>
            let cp := ((b mod 8) * 262144 + (b2 mod 64) * 4096
                       + (b3 mod 64) * 64 + b4 mod 64 - 0x10000)%N in
            (0xD800 + cp / 1024)%N :: (0xDC00 + cp mod 1024)%N
              :: utf16_of_utf8 r4
        | _ => [0xFFFD%N]
        end
  end.

Definition js (s : string) : jsstring := utf16_of_utf8 (bytes_of s).
Arguments js s%_string.

(** The double quote cannot be written inside a literal of this file. *)
Definition dq : jsstring := [34%N].
Definition nl : jsstring := [10%N].

Definition ch (a : ascii) : N := N_of_ascii a.
Arguments ch a%_char.

Definition len (s : jsstring) : Z := Z.of_nat (length s).

Definition str_eqb (a b : jsstring) : bool :=
  if list_eq_dec N.eq_dec a b then true else false.

Definition truthy (s : jsstring) : bool :=
  match s with [] => false | _ => true end.

(** [String.prototype.substring]: both ends are clamped to the string and
    swapped when they come in the wrong order. *)
Definition clamp (s : jsstring) (i : Z) : nat :=
  Z.to_nat (Z.max 0 (Z.min i (len s))).

Definition substring (s : jsstring) (a b : Z) : jsstring :=
  let a' := clamp s a in
  let b' := clamp s b in
  firstn (Nat.max a' b' - Nat.min a' b') (skipn (Nat.min a' b') s).

Definition substringFrom (s : jsstring) (a : Z) : jsstring :=
  skipn (clamp s a) s.

Fixpoint prefixb (p s : jsstring) : bool :=
  match p, s with
  | [], _ => true
  | x :: p', y :: s' => (x =? y)%N && prefixb p' s'
  | _ :: _, [] => false
  end.

Definition startsWith (s p : jsstring) : bool := prefixb p s.

Definition endsWith (s p : jsstring) : bool := prefixb (rev p) (rev s).

(** Offset of the leftmost occurrence of [search] in [s]. *)
Fixpoint find_sub (search s : jsstring) : option nat :=
  if prefixb search s then Some O
  else match s with
       | [] => None
       | _ :: t => option_map S (find_sub search t)
       end.

(** Offset of the rightmost occurrence. *)
Fixpoint find_last (search s : jsstring) : option nat :=
  match s with
  | [] => if prefixb search [] then Some O else None
  | _ :: t =>
      match find_last search t with
      | Some k => Some (S k)
      | None => if prefixb search s then Some O else None
      end
  end.

Definition index_result (o : option nat) : Z :=
  match o with Some k => Z.of_nat k | None => -1 end.

Definition indexOf (s search : jsstring) : Z :=
  index_result (find_sub search s).

Definition lastIndexOf (s search : jsstring) : Z :=
  index_result (find_last search s).

Definition includes (s search : jsstring) : bool :=
  match find_sub search s with Some _ => true | None => false end.

Definition in_range (c lo hi : N) : bool := ((lo <=? c) && (c <=? hi))%N.

(** LineTerminator: LF, CR, LS, PS. *)
Definition is_lt (c : N) : bool :=
  ((c =? 10) || (c =? 13) || (c =? 0x2028) || (c =? 0x2029))%N.

(** WhiteSpace and LineTerminator, the set of [\s] and of [trim]. *)
Definition is_ws (c : N) : bool :=
  is_lt c
  || ((c =? 9) || (c =? 11) || (c =? 12) || (c =? 32) || (c =? 0xA0)
      || (c =? 0x1680) || in_range c 0x2000 0x200A || (c =? 0x202F)
      || (c =? 0x205F) || (c =? 0x3000) || (c =? 0xFEFF))%N.

(** [\w] *)
Definition is_word (c : N) : bool :=
  in_range c 97 122 || in_range c 65 90 || in_range c 48 57 || (c =? 95)%N.

Fixpoint dropWhile (f : N -> bool) (s : jsstring) : jsstring :=
  match s with
  | [] => []
  | c :: t => if f c then dropWhile f t else s
  end.

Fixpoint takeWhile (f : N -> bool) (s : jsstring) : jsstring :=
  match s with
  | [] => []
  | c :: t => if f c then c :: takeWhile f t else []
  end.

Definition trim (s : jsstring) : jsstring :=
  rev (dropWhile is_ws (rev (dropWhile is_ws s))).

(** [s.split(sep)[0]] for a separator of one code unit. *)
Definition split_head (s : jsstring) (sep : N) : jsstring :=
  takeWhile (fun c => negb (c =? sep)%N) s.

(** [String.fromCharCode]: the argument is taken modulo 2^16. *)
Definition fromCharCode (n : Z) : jsstring := [Z.to_N (n mod 65536)].

End JS.
Import JS.

(** A substring relation for the statements. *)
Definition occurs (search text : jsstring) : Prop :=
  exists pre post, text = pre ++ search ++ post.

(** ** [replaceFirst] *)

Definition replaceFirst (text search replacement : jsstring) : jsstring :=
  let index := indexOf text search in
  if index =? -1 then text
  else substring text 0 index ++ replacement
         ++ substringFrom text (index + len search).

(** ** Regular expressions *)

Module Regex.

Inductive regex : Type :=
| Eps
| Chr (c : N)
| Cls (neg : bool) (ranges : list (N * N))
| Seq (a b : regex)
| Alt (a b : regex)
| Star (greedy : bool) (a : regex)
| Group (n : nat) (a : regex)
| Bol
| Eol
| WordB.

(** The flags that change how a pattern matches.  [g] selects the loop
    that drives the matcher and [s] the class that [.] stands for. *)
Record flags := mkFlags { ignoreCase : bool; multiline : bool }.

Definition no_flags := mkFlags false false.
Definition flag_m := mkFlags false true.
Definition flag_i := mkFlags true false.

Definition Plus (g : bool) (a : regex) : regex := Seq a (Star g a).
Definition Opt (g : bool) (a : regex) : regex :=
  if g then Alt a Eps else Alt Eps a.

Fixpoint lit (s : jsstring) : regex :=
  match s with
  | [] => Eps
  | c :: t => Seq (Chr c) (lit t)
  end.

Fixpoint seqs (l : list regex) : regex :=
  match l with
  | [] => Eps
  | [a] => a
  | a :: t => Seq a (seqs t)
  end.

Fixpoint alts (l : list regex) : regex :=
  match l with
  | [] => Cls false []
  | [a] => a
  | a :: t => Alt a (alts t)
  end.

Definition ws_ranges : list (N * N) :=
  [(9, 13); (32, 32); (0xA0, 0xA0); (0x1680, 0x1680); (0x2000, 0x200A);
   (0x2028, 0x2029); (0x202F, 0x202F); (0x205F, 0x205F); (0x3000, 0x3000);
   (0xFEFF, 0xFEFF)]%N.
Definition word_ranges : list (N * N) :=
  [(97, 122); (65, 90); (48, 57); (95, 95)]%N.
Definition lt_ranges : list (N * N) :=
  [(10, 10); (13, 13); (0x2028, 0x2029)]%N.

Definition one (c : ascii) : N * N := (ch c, ch c).
Arguments one c%_char.

Definition ws : regex := Cls false ws_ranges.          (* \s *)
Definition word : regex := Cls false word_ranges.      (* \w *)
Definition dot : regex := Cls true lt_ranges.          (* .  *)
Definition any : regex := Cls true [].                 (* [\s\S], . under s *)
Definition word_dash : regex := Cls false (word_ranges ++ [one "-"]). (* [\w-] *)
Definition c (a : ascii) : regex := Chr (ch a).
Definition l (s : string) : regex := lit (js s).
Arguments c a%_char.
Arguments l s%_string.

Definition in_ranges (rs : list (N * N)) (x : N) : bool :=
  existsb (fun r => in_range x (fst r) (snd r)) rs.

(** Canonicalize of the non-Unicode case-insensitive mode, on the ASCII
    letters (the only letters the patterns of this program contain). *)
Definition toggle_case (x : N) : N :=
  if in_range x 97 122 then (x - 32)%N
  else if in_range x 65 90 then (x + 32)%N else x.

Definition chr_eq (fl : flags) (c x : N) : bool :=
  (c =? x)%N || (ignoreCase fl && (c =? toggle_case x)%N).

Definition cls_mem (fl : flags) (neg : bool) (rs : list (N * N)) (x : N)
  : bool :=
  xorb neg (in_ranges rs x || (ignoreCase fl && in_ranges rs (toggle_case x))).

(** The matcher walks a zipper: the text already passed (nearest code
    unit first) and the text ahead. *)
Record mstate := mkState {
  before : jsstring;
  after : jsstring;
  caps : list (nat * jsstring)
}.

Definition step (st : mstate) (x : N) (t : jsstring) : mstate :=
  mkState (x :: before st) t (caps st).

Definition consumed (st st' : mstate) : jsstring :=
  firstn (length (after st) - length (after st')) (after st).

Definition set_cap (n : nat) (v : jsstring) (st : mstate) : mstate :=
  mkState (before st) (after st)
    ((n, v) :: filter (fun p => negb (Nat.eqb (fst p) n)) (caps st)).

Definition at_bol (fl : flags) (st : mstate) : bool :=
  match before st with
  | [] => true
  | x :: _ => multiline fl && is_lt x
  end.

Definition at_eol (fl : flags) (st : mstate) : bool :=
  match after st with
  | [] => true
  | x :: _ => multiline fl && is_lt x
  end.

Definition head_word (s : jsstring) : bool :=
  match s with [] => false | x :: _ => is_word x end.

Definition at_wordb (st : mstate) : bool :=
  xorb (head_word (before st)) (head_word (after st)).

(** The loop of a quantifier [a*] or [a*?]: [ma] runs the quantified
    pattern, [k] what follows it.  An iteration that consumed nothing is
    given up, as ECMAScript does; every other iteration consumes a code
    unit, so a counter that starts above the length of the text ahead is
    never exhausted. *)
Fixpoint star_loop (ma : (mstate -> option mstate) -> mstate -> option mstate)
  (g : bool) (k : mstate -> option mstate) (n : nat) (st : mstate)
  {struct n} : option mstate :=
  match n with
  | O => k st
  | S n' =>
      let again st' :=
        if (length (after st') <? length (after st))%nat
        then star_loop ma g k n' st' else None in
      if g then
        match ma again st with
        | Some e => Some e
        | None => k st
        end
      else
        match k st with
        | Some e => Some e
        | None => ma again st
        end
  end.

(** Backtracking matcher in continuation-passing style. *)
Fixpoint rmatch (fl : flags) (r : regex) (k : mstate -> option mstate)
  (st : mstate) {struct r} : option mstate :=
  match r with
  | Eps => k st
  | Chr c0 =>
      match after st with
      | x :: t => if chr_eq fl c0 x then k (step st x t) else None
      | [] => None
      end
  | Cls neg rs =>
      match after st with
      | x :: t => if cls_mem fl neg rs x then k (step st x t) else None
      | [] => None
      end
  | Seq a b => rmatch fl a (rmatch fl b k) st
  | Alt a b =>
      match rmatch fl a k st with
      | Some e => Some e
      | None => rmatch fl b k st
      end
  | Star g a => star_loop (rmatch fl a) g k (S (length (after st))) st
  | Group n a => rmatch fl a (fun st' => k (set_cap n (consumed st st') st')) st
  | Bol => if at_bol fl st then k st else None
  | Eol => if at_eol fl st then k st else None
  | WordB => if at_wordb st then k st else None
  end.

(** The match object of [exec]: [index], [match[0]] and the groups. *)
Record jsmatch := mkMatch {
  m_index : nat;
  m_text : jsstring;
  m_caps : list (nat * jsstring)
}.

Definition index (m : jsmatch) : Z := Z.of_nat (m_index m).

Fixpoint assoc_nat (n : nat) (l : list (nat * jsstring)) : jsstring :=
  match l with
  | [] => []
  | (k, v) :: t => if Nat.eqb k n then v else assoc_nat n t
  end.

(** [match[n]] for [n >= 1]; a group that took no part reads as empty. *)
Definition group (m : jsmatch) (n : nat) : jsstring := assoc_nat n (m_caps m).

Definition match_here (fl : flags) (r : regex) (pre suf : jsstring)
  : option jsmatch :=
  match rmatch fl r Some (mkState pre suf []) with
  | Some st' =>
      Some (mkMatch (length pre)
              (firstn (length suf - length (after st')) suf) (caps st'))
  | None => None
  end.

(** Leftmost match at or after the current position. *)
Fixpoint search (fl : flags) (r : regex) (pre suf : jsstring)
  : option jsmatch :=
  match match_here fl r pre suf with
  | Some m => Some m
  | None =>
      match suf with
      | [] => None
      | x :: t => search fl r (x :: pre) t
      end
  end.

(** [regex.exec(s)] and [s.match(regex)] without the [g] flag. *)
Definition exec (fl : flags) (r : regex) (s : jsstring) : option jsmatch :=
  search fl r [] s.

Definition test (fl : flags) (r : regex) (s : jsstring) : bool :=
  match exec fl r s with Some _ => true | None => false end.

(** All matches of a [g] pattern, as the loop
    [while ((match = regex.exec(text)) !== null)] sees them.  [skip]
    counts the code units of the last match still to be passed.  After an
    empty match the scan moves on by one code unit, as
    [String.prototype.replace] does (a loop over [exec] would not end
    there; no pattern of this program matches the empty string). *)
Fixpoint scan (fl : flags) (r : regex) (pre suf : jsstring) (skip : nat)
  : list jsmatch :=
  match skip with
  | S k =>
      match suf with
      | [] => []
      | x :: t => scan fl r (x :: pre) t k
      end
  | O =>
      match match_here fl r pre suf with
      | Some m =>
          m :: match suf with
               | [] => []
               | x :: t => scan fl r (x :: pre) t (length (m_text m) - 1)
               end
      | None =>
          match suf with
          | [] => []
          | x :: t => scan fl r (x :: pre) t 0
          end
      end
  end.

Definition matchAll (fl : flags) (r : regex) (s : jsstring) : list jsmatch :=
  scan fl r [] s 0.

Fixpoint max_group (r : regex) : nat :=
  match r with
  | Seq a b | Alt a b => Nat.max (max_group a) (max_group b)
  | Star _ a => max_group a
  | Group n a => Nat.max n (max_group a)
  | _ => O
  end.

Definition is_digit (x : N) : bool := in_range x 48 57.
Definition digit (x : N) : nat := N.to_nat (x - 48).

(** GetSubstitution: the [$] patterns of a replacement string.  [ncaps]
    is the number of capturing groups, [pre] and [post] the text around
    the match. *)
Fixpoint expand (ncaps : nat) (m : jsmatch) (pre post : jsstring)
  (repl : jsstring) {struct repl} : jsstring :=
  match repl with
  | [] => []
  | d :: t =>
      if negb (d =? 36)%N then d :: expand ncaps m pre post t
      else
        match t with
        | [] => [d]
        | x :: t' =>
            if (x =? 36)%N then 36%N :: expand ncaps m pre post t'
            else if (x =? 38)%N then m_text m ++ expand ncaps m pre post t'
            else if (x =? 96)%N then pre ++ expand ncaps m pre post t'
            else if (x =? 39)%N then post ++ expand ncaps m pre post t'
            else if is_digit x then
              let one_digit :=
                if ((1 <=? digit x) && (digit x <=? ncaps))%nat
                then group m (digit x) ++ expand ncaps m pre post t'
                else d :: expand ncaps m pre post t in
              match t' with
              | y :: t'' =>
                  let nn := (10 * digit x + digit y)%nat in
                  if is_digit y && (1 <=? nn)%nat && (nn <=? ncaps)%nat
                  then group m nn ++ expand ncaps m pre post t''
                  else one_digit
              | [] => one_digit
              end
            else d :: expand ncaps m pre post t
        end
  end.

(** [s.replace(regex, repl)] with the [g] flag. *)
Fixpoint replace_scan (fl : flags) (r : regex) (repl : jsstring)
  (pre suf : jsstring) (skip : nat) : jsstring :=
  match skip with
  | S k =>
      match suf with
      | [] => []
      | x :: t => replace_scan fl r repl (x :: pre) t k
      end
  | O =>
      match match_here fl r pre suf with
      | Some m =>
          expand (max_group r) m (rev pre)
            (skipn (length (m_text m)) suf) repl
          ++ match suf with
             | [] => []
             | x :: t =>
                 match length (m_text m) with
                 | O => x :: replace_scan fl r repl (x :: pre) t 0
                 | S n => replace_scan fl r repl (x :: pre) t n
                 end
             end
      | None =>
          match suf with
          | [] => []
          | x :: t => x :: replace_scan fl r repl (x :: pre) t 0
          end
      end
  end.

Definition replaceAll (fl : flags) (r : regex) (repl s : jsstring)
  : jsstring :=
  replace_scan fl r repl [] s 0.

(** [s.replace(regex, repl)] without the [g] flag. *)
Definition replaceRegex (fl : flags) (r : regex) (repl s : jsstring)
  : jsstring :=
  match exec fl r s with
  | None => s
  | Some m =>
      let post := skipn (m_index m + length (m_text m)) s in
      firstn (m_index m) s
        ++ expand (max_group r) m (firstn (m_index m) s) post repl ++ post
  end.

(** [s.replace(search, repl)] with a string pattern: the first occurrence
    only, and the [$] patterns of [repl] still apply. *)
Definition replaceString (s search repl : jsstring) : jsstring :=
  match find_sub search s with
  | None => s
  | Some k =>
      let post := skipn (k + length search) s in
      firstn k s ++ expand 0 (mkMatch k search []) (firstn k s) post repl
        ++ post
  end.

End Regex.
Import Regex.

(** ** Objects used as string-keyed maps

    [globalI18nMap] and the [mapping] of a converted template are plain
    objects.  An object is the list of its own properties in the order
    [Object.entries] and [JSON.stringify] list them: array-index keys
    first, by value, then the other keys in the order of their first
    assignment.  Assigning to [__proto__] creates no property. *)

Definition jsobject := list (jsstring * jsstring).

Module Obj.

Fixpoint digits_value (s : jsstring) (acc : N) : option N :=
  match s with
  | [] => Some acc
  | d :: t => if is_digit d then digits_value t (acc * 10 + (d - 48))%N
              else None
  end.

(** A canonical numeric string below 2^32 - 1. *)
Definition array_index (k : jsstring) : option N :=
  match k with
  | [] => None
  | d :: t =>
      if (d =? 48)%N && truthy t then None
      else match digits_value k 0 with
           | Some n => if (n <? 4294967295)%N then Some n else None
           | None => None
           end
  end.

Fixpoint get (o : jsobject) (k : jsstring) : option jsstring :=
  match o with
  | [] => None
  | (k', v) :: t => if str_eqb k' k then Some v else get t k
  end.

Fixpoint update (o : jsobject) (k v : jsstring) : jsobject :=
  match o with
  | [] => []
  | (k', v') :: t =>
      if str_eqb k' k then (k', v) :: t else (k', v') :: update t k v
  end.

Fixpoint insert_index (o : jsobject) (n : N) (k v : jsstring) : jsobject :=
  match o with
  | [] => [(k, v)]
  | (k', v') :: t =>
      match array_index k' with
      | Some n' => if (n' <? n)%N then (k', v') :: insert_index t n k v
                   else (k, v) :: o
      | None => (k, v) :: o
      end
  end.

(** [o[k] = v] *)
Definition set (o : jsobject) (k v : jsstring) : jsobject :=
  if str_eqb k (js "__proto__") then o
  else match get o k with
       | Some _ => update o k v
       | None =>
           match array_index k with
           | Some n => insert_index o n k v
           | None => o ++ [(k, v)]
           end
       end.

End Obj.

(** ** The text normalizer and the classifiers *)

Definition cjk : regex := Cls false [(0x4e00, 0x9fa5)%N].   (* /[一-龥]/ *)

Definition some_test (ps : list (flags * regex)) (text : jsstring) : bool :=
  existsb (fun p => test (fst p) (snd p) text) ps.

Definition plain (r : regex) : flags * regex := (no_flags, r).

(* /\/\/.*$/gm *)
Definition lineCommentRegex : regex := seqs [c "/"; c "/"; Star true dot; Eol].
(* /\/\*[\s\S]*?\*\//g *)
Definition blockCommentRegex : regex :=
  seqs [c "/"; c "*"; Star false any; c "*"; c "/"].
(* /<!--[\s\S]*?-->/g *)
Definition htmlCommentRegex : regex := seqs [l "<!--"; Star false any; l "-->"].
(* /^[ \t]*#.*$/gm *)
Definition shellCommentRegex : regex :=
  seqs [Bol; Star true (Cls false [one " "; (9, 9)%N]); c "#"; Star true dot;
        Eol].

Definition removeComments (text : jsstring) : jsstring :=
  let result := text in
  let result := replaceAll flag_m lineCommentRegex [] result in
  let result := replaceAll no_flags blockCommentRegex [] result in
  let result := replaceAll no_flags htmlCommentRegex [] result in
  let result := replaceAll flag_m shellCommentRegex [] result in
  result.

(* /[.*+?^${}()|[\]\\]/g *)
Definition syntaxCharRanges : list (N * N) :=
  [one "."; one "*"; one "+"; one "?"; one "^"; one "$"; one "{"; one "}";
   one "("; one ")"; one "|"; one "["; one "]"; one "\"].

Definition escapeRegExp (s : jsstring) : jsstring :=
  replaceAll no_flags (Cls false syntaxCharRanges) (js "\$&") s.

(** [new RegExp(p)] for a pattern text made of plain code units and of
    backslash-escaped syntax characters, which is what [escapeRegExp]
    writes; any other pattern text is refused. *)
Fixpoint parse_escaped (p : jsstring) : option regex :=
  match p with
  | [] => Some Eps
  | x :: t =>
      if (x =? ch "\")%N then
        match t with
        | y :: t' =>
            if in_ranges syntaxCharRanges y
            then option_map (Seq (Chr y)) (parse_escaped t') else None
        | [] => None
        end
      else if in_ranges syntaxCharRanges x then None
      else option_map (Seq (Chr x)) (parse_escaped t)
  end.

Definition RegExp (p : jsstring) : regex :=
  match parse_escaped p with
  | Some r => r
  | None => Cls false []
  end.

Definition generateI18nKey (text : jsstring) : jsstring := text.

Definition quoteRanges : list (N * N) := [one "'"; (34, 34)%N].

Definition containsJSExpression (text : jsstring) : bool :=
  let jsPatterns :=
    [ plain (seqs [c "?"; Star true dot; c ":"]);              (* /\?.*:/ *)
      plain (seqs [Cls false [one "!"; one "="]; c "="; c "="]); (* /[!=]==/ *)
      plain (seqs [Cls false [one "!"; one "<"; one ">"]; c "="]); (* /[!<>]=/ *)
      plain (Alt (l "&&") (l "||"));                           (* /&&|\|\|/ *)
      plain (seqs [Cls false quoteRanges; Star true (Cls true quoteRanges);
                   Cls false quoteRanges])          (* /['\x22][^\'\x22]*['\x22]/ *)
    ] in
  some_test jsPatterns text.

Definition keywords : list regex :=
  [l "function"; l "const"; l "let"; l "var"; l "if"; l "else"; l "for";
   l "while"; l "return"; l "await"; l "async"; l "import"; l "export"].

(* /^[一-龥a-zA-Z0-9\s()（）\[\]【】℃°%]+$/ *)
Definition labelRanges : list (N * N) :=
  [(0x4e00, 0x9fa5); (97, 122); (65, 90); (48, 57)]%N ++ ws_ranges
  ++ [one "("; one ")"; (0xFF08, 0xFF08)%N; (0xFF09, 0xFF09)%N; one "[";
      one "]"; (0x3010, 0x3010)%N; (0x3011, 0x3011)%N; (0x2103, 0x2103)%N;
      (0xB0, 0xB0)%N; one "%"].

Definition isCodeLike (text : jsstring) : bool :=
  let codePatterns :=
    [ plain (seqs [WordB; Group 1 (alts keywords); WordB]);
      plain (Cls false [one "{"; one "}"]);                       (* /[{}]/ *)
      plain (seqs [c ";"; Eol]);                                  (* /;$/ *)
      plain (l "=>");                                             (* /=>/ *)
      plain (seqs [Plus true word; Star true ws; c "("; Star true ws; c ")"]);
                                                          (* /\w+\s*\(\s*\)/ *)
      plain (seqs [Bol; Star true ws; Plus true word; Star true ws; c "("]);
                                                          (* /^\s*\w+\s*\(/ *)
      plain (seqs [Plus true word; Star true ws; c "="; Star true ws;
                   Cls true [one "="]]);                (* /\w+\s*=\s*[^=]/ *)
      plain (seqs [Plus true word; c "."; Plus true word; Star true ws;
                   c "("]);                             (* /\w+\.\w+\s*\(/ *)
      plain (l "ElMessage.");                               (* /ElMessage\./ *)
      plain (l "console.")                                    (* /console\./ *)
    ] in
  if test no_flags (seqs [Bol; Plus true (Cls false labelRanges); Eol]) text
  then
    if test no_flags (seqs [Plus true word; Star true ws; c "("]) text
       && negb (test no_flags cjk (split_head text (ch "(")))
    then true
    else false
  else some_test codePatterns text.

Definition fileExtensions : list regex :=
  [l "png"; l "jpg"; l "jpeg"; l "gif"; l "svg"; l "webp"; l "bmp"; l "ico";
   l "mp4"; l "mp3"; l "wav"; l "pdf"; l "doc"; l "docx"; l "xls"; l "xlsx";
   l "zip"; l "rar"; l "ttf"; l "woff"; l "woff2"; l "eot"; l "otf"; l "css";
   l "scss"; l "less"; l "json"; l "xml"; l "txt"; l "md"].

Definition isFilePath (text : jsstring) : bool :=
  let filePathPatterns :=
    [ plain (seqs [Bol; c "."; Opt true (c "."); c "/"]);      (* /^\.{1,2}\// *)
      plain (seqs [Bol; c "@"; c "/"]);                              (* /^@\// *)
      plain (seqs [Bol; c "~"; c "/"]);                              (* /^~\// *)
      plain (seqs [Bol; c "/"; Cls true [one "/"]]);               (* /^\/[^/]/ *)
      (flag_i, seqs [c "."; Group 1 (alts fileExtensions); Eol])
    ] in
  let hasPathSeparator := includes text (js "/") || includes text (js "\") in
  (* /\.\w{2,4}$/ *)
  let hasFileExtension :=
    test no_flags
      (seqs [c "."; word; word; Opt true (Seq word (Opt true word)); Eol])
      text in
  if hasPathSeparator && hasFileExtension then true
  else some_test filePathPatterns text.

(** The loop of [isInDefineProps] over [betweenText]: [i] is the loop
    index and [prevChar] the code unit before it, if any. *)
Fixpoint definePropsLoop (betweenText : jsstring) (i : Z) (prevChar : option N)
  (openParens : Z) (inString : bool) (stringChar : option N) : bool :=
  match betweenText with
  | [] => 0 <? openParens
  | char :: rest =>
      let quote :=
        ((char =? 34) || (char =? ch "'") || (char =? ch "`"))%N
        && negb (match prevChar with
                 | Some p => (p =? ch "\")%N
                 | None => false
                 end) in
      let '(inString, stringChar) :=
        if quote then
          if negb inString then (true, Some char)
          else if match stringChar with
                  | Some q => (char =? q)%N
                  | None => false
                  end
               then (false, None)
               else (inString, stringChar)
        else (inString, stringChar) in
      if negb inString then
        let openParens :=
          if (char =? ch "(")%N then openParens + 1 else openParens in
        let openParens :=
          if (char =? ch ")")%N then openParens - 1 else openParens in
        if (openParens =? 0) && (11 <? i) then false
        else definePropsLoop rest (i + 1) (Some char) openParens inString
               stringChar
      else definePropsLoop rest (i + 1) (Some char) openParens inString
             stringChar
  end.

Definition isInDefineProps (text : jsstring) (textPosition : Z) : bool :=
  if textPosition <? 0 then false
  else
    let beforeText := substring text 0 textPosition in
    let definePropsMatch := lastIndexOf beforeText (js "defineProps(") in
    if definePropsMatch =? -1 then false
    else
      let betweenText := substring text definePropsMatch textPosition in
      definePropsLoop betweenText 0 None 0 false None.

(* $t(   t(   i18n.t(   i18n.global.t( *)
Definition i18nPatterns : list (flags * regex) :=
  [ plain (seqs [c "$"; c "t"; Star true ws; c "("]);
    plain (seqs [WordB; c "t"; Star true ws; c "("]);
    plain (seqs [l "i18n"; c "."; c "t"; Star true ws; c "("]);
    plain (seqs [l "i18n"; c "."; l "global"; c "."; c "t"; Star true ws;
                 c "("]) ].

Definition directI18nPatterns : list (flags * regex) :=
  [ plain (seqs [c "$"; c "t"; Star true ws; c "("; Star true ws; Eol]);
    plain (seqs [WordB; c "t"; Star true ws; c "("; Star true ws; Eol]);
    plain (seqs [l "i18n"; c "."; c "t"; Star true ws; c "("; Star true ws;
                 Eol]);
    plain (seqs [l "i18n"; c "."; l "global"; c "."; c "t"; Star true ws;
                 c "("; Star true ws; Eol]);
    (* /\{\{\s*\$t\s*\(\s*$/ *)
    plain (seqs [c "{"; c "{"; Star true ws; c "$"; c "t"; Star true ws;
                 c "("; Star true ws; Eol]);
    (* /:[\w-]+\s*=\s*[\x22`]?\s*\$t\s*\(\s*$/ *)
    plain (seqs [c ":"; Plus true word_dash; Star true ws; c "=";
                 Star true ws; Opt true (Cls false [(34, 34)%N; one "`"]);
                 Star true ws; c "$"; c "t"; Star true ws; c "(";
                 Star true ws; Eol]) ].

Definition beforeQuote (surroundingText : jsstring) (textIndex : Z)
  : jsstring :=
  substring surroundingText (Z.max 0 (textIndex - 25)) textIndex.

(** The [while] loop of [isAlreadyInternationalized] visits the
    occurrences of [quotedText] from left to right ([searchStart] moves
    one past each); here every offset [i] of [surroundingText] is visited
    and the ones where [quotedText] does not start are passed over. *)
Fixpoint anyOccurrenceLocalized (quotedText surroundingText rest : jsstring)
  (i : Z) : bool :=
  (prefixb quotedText rest
   && some_test directI18nPatterns (beforeQuote surroundingText i))
  || match rest with
     | [] => false
     | _ :: t => anyOccurrenceLocalized quotedText surroundingText t (i + 1)
     end.

Definition isAlreadyInternationalized (text surroundingText : jsstring)
  (offsetInSurrounding : Z) : bool :=
  if some_test i18nPatterns text then true
  else if truthy surroundingText then
    let quotedText := js "'" ++ text ++ js "'" in
    if 0 <=? offsetInSurrounding then
      let textIndex := offsetInSurrounding in
      some_test directI18nPatterns (beforeQuote surroundingText textIndex)
    else anyOccurrenceLocalized quotedText surroundingText surroundingText 0
  else false.

(** ** The term extractor *)

Inductive term_type : Type :=
| DoubleQuote | I18nField | SingleQuote | Template | TagContent | ButtonText
| TsxTagContent.

Definition term_type_eqb (a b : term_type) : bool :=
  match a, b with
  | DoubleQuote, DoubleQuote | I18nField, I18nField
  | SingleQuote, SingleQuote | Template, Template
  | TagContent, TagContent | ButtonText, ButtonText
  | TsxTagContent, TsxTagContent => true
  | _, _ => false
  end.

(** [tagName] and [attrs] are set for [button-text] terms only. *)
Record term := mkTerm {
  original : jsstring;
  content : jsstring;
  type : term_type;
  tagName : jsstring;
  attrs : jsstring
}.

(** The [context] argument, ['template'] or ['script']. *)
Inductive context : Type := TemplateCtx | ScriptCtx.

Definition is_script (ctx : context) : bool :=
  match ctx with ScriptCtx => true | TemplateCtx => false end.

(** [text.substring(Math.max(0, match.index - r),
                    Math.min(text.length, match.index + match[0].length + r))] *)
Definition surrounding (text : jsstring) (m : jsmatch) (r : Z) : jsstring :=
  let startPos := Z.max 0 (index m - r) in
  let endPos := Z.min (len text) (index m + len (m_text m) + r) in
  substring text startPos endPos.

(* \x22 ( [^\x22]* ) \x22, flag g *)
Definition doubleQuoteRegex : regex :=
  seqs [Chr 34; Group 1 (Star true (Cls true [(34, 34)%N])); Chr 34].
(* i18n:\s*'([^']+)', flag g *)
Definition i18nFieldRegex : regex :=
  seqs [l "i18n:"; Star true ws; c "'"; Group 1 (Plus true (Cls true [one "'"]));
        c "'"].
(* ' ( [^']* ) ', flag g *)
Definition singleQuoteRegex : regex :=
  seqs [c "'"; Group 1 (Star true (Cls true [one "'"])); c "'"].
(* ` ( [^`]* ) `, flag g *)
Definition templateRegex : regex :=
  seqs [c "`"; Group 1 (Star true (Cls true [one "`"])); c "`"].
(* > ( [^<>]*? ) <, flags gs *)
Definition tagContentRegex : regex :=
  seqs [c ">"; Group 1 (Star false (Cls true [one "<"; one ">"])); c "<"].
(* <(el-button|el-radio-button|button|a) ( [^>]* ) > ( [\s\S]*? )
   <\/(el-button|el-radio-button|button|a)>, flag g *)
Definition buttonTags : regex :=
  alts [l "el-button"; l "el-radio-button"; l "button"; l "a"].
Definition buttonTextRegex : regex :=
  seqs [c "<"; Group 1 buttonTags; Group 2 (Star true (Cls true [one ">"]));
        c ">"; Group 3 (Star false any); c "<"; c "/"; Group 4 buttonTags;
        c ">"].

Definition doubleQuoteStep (text : jsstring) (ctx : context)
  (terms : list term) (m : jsmatch) : list term :=
  let content := trim (group m 1) in
  if startsWith content (js "'") && endsWith content (js "'") then terms
  else if containsJSExpression content then terms
  else if is_script ctx && isInDefineProps text (index m) then terms
  else
    let surroundingText := surrounding text m 100 in
    if truthy content && test no_flags cjk content
       && negb (isCodeLike content) && negb (isFilePath content)
       && negb (isAlreadyInternationalized content surroundingText (-1))
    then terms ++ [mkTerm (m_text m) content DoubleQuote [] []]
    else terms.

Definition i18nFieldStep (text : jsstring) (ctx : context)
  (terms : list term) (m : jsmatch) : list term :=
  let content := trim (group m 1) in
  if is_script ctx && isInDefineProps text (index m) then terms
  else
    if truthy content && test no_flags cjk content
       && negb (isCodeLike content) && negb (isFilePath content)
    then terms ++ [mkTerm (m_text m) content I18nField [] []]
    else terms.

Definition singleQuoteStep (text : jsstring) (ctx : context)
  (terms : list term) (m : jsmatch) : list term :=
  let content0 := trim (group m 1) in
  let alreadyExtracted :=
    existsb (fun t => str_eqb (content t) content0
                      && term_type_eqb (type t) I18nField) terms in
  if alreadyExtracted then terms
  else if startsWith content0 dq && endsWith content0 dq then terms
  else if is_script ctx && isInDefineProps text (index m) then terms
  else
    let startPos := Z.max 0 (index m - 100) in
    let surroundingText := surrounding text m 100 in
    let offsetInSurrounding := index m - startPos in
    if truthy content0 && test no_flags cjk content0
       && negb (isCodeLike content0) && negb (isFilePath content0)
       && negb (isAlreadyInternationalized content0 surroundingText
                  offsetInSurrounding)
    then terms ++ [mkTerm (m_text m) content0 SingleQuote [] []]
    else terms.

Definition templateStep (text : jsstring) (ctx : context)
  (terms : list term) (m : jsmatch) : list term :=
  let content := trim (group m 1) in
  if is_script ctx && isInDefineProps text (index m) then terms
  else
    let surroundingText := surrounding text m 50 in
    if truthy content && test no_flags cjk content
       && negb (isFilePath content)
       && negb (isAlreadyInternationalized (m_text m) surroundingText (-1))
    then terms ++ [mkTerm (m_text m) content Template [] []]
    else terms.

Definition tagContentStep (text : jsstring) (terms : list term) (m : jsmatch)
  : list term :=
  let content := trim (group m 1) in
  if truthy content && test no_flags cjk content
     && negb (includes content dq) && negb (includes content (js "'"))
     && negb (includes content (js "{{")) && negb (includes content (js "}}"))
     && negb (isCodeLike content) && negb (isFilePath content)
  then
    let surroundingText := surrounding text m 50 in
    if negb (isAlreadyInternationalized (m_text m) surroundingText (-1))
    then terms ++ [mkTerm (js ">" ++ group m 1 ++ js "<") content TagContent
                     [] []]
    else terms
  else terms.

Definition buttonTextStep (text : jsstring) (terms : list term) (m : jsmatch)
  : list term :=
  let content := trim (group m 3) in
  if truthy content && test no_flags cjk content
     && negb (includes content (js "{{")) && negb (includes content (js "}}"))
     && negb (isCodeLike content) && negb (isFilePath content)
  then
    let surroundingText := surrounding text m 50 in
    if negb (isAlreadyInternationalized (m_text m) surroundingText (-1))
    then terms ++ [mkTerm (m_text m) content ButtonText (group m 1)
                     (group m 2)]
    else terms
  else terms.

Definition extractChineseTerms (text : jsstring) (ctx : context) : list term :=
  let terms := [] in
  let terms := fold_left (doubleQuoteStep text ctx)
                 (matchAll no_flags doubleQuoteRegex text) terms in
  let terms := fold_left (i18nFieldStep text ctx)
                 (matchAll no_flags i18nFieldRegex text) terms in
  let terms := fold_left (singleQuoteStep text ctx)
                 (matchAll no_flags singleQuoteRegex text) terms in
  let terms := fold_left (templateStep text ctx)
                 (matchAll no_flags templateRegex text) terms in
  match ctx with
  | TemplateCtx =>
      let terms := fold_left (tagContentStep text)
                     (matchAll no_flags tagContentRegex text) terms in
      let terms := fold_left (buttonTextStep text)
                     (matchAll no_flags buttonTextRegex text) terms in
      terms
  | ScriptCtx => terms
  end.

(** ** Context of a literal in the markup *)

Record attrCheck := mkAttrCheck {
  isAttribute : bool;
  needsBinding : bool;
  attrName : jsstring
}.

Definition removeQuotes (s : jsstring) : jsstring :=
  replaceAll no_flags (Cls false quoteRanges) [] s.

(* ([\w-]+)\s*=\s*<original> *)
Definition basicAttrRegex (original : jsstring) : regex :=
  seqs [Group 1 (Plus true word_dash); Star true ws; c "="; Star true ws;
        RegExp (escapeRegExp original)].
(* :([\w-]+)\s*=\s*['\x22][^\x22']*<original without quotes>[^\x22']*['\x22] *)
Definition vueAttrRegex (original : jsstring) : regex :=
  seqs [c ":"; Group 1 (Plus true word_dash); Star true ws; c "=";
        Star true ws; Cls false quoteRanges; Star true (Cls true quoteRanges);
        RegExp (escapeRegExp (removeQuotes original));
        Star true (Cls true quoteRanges); Cls false quoteRanges].

Definition checkIfInAttribute (templateContent original : jsstring)
  : attrCheck :=
  match exec no_flags (basicAttrRegex original) templateContent with
  | Some basicMatch => mkAttrCheck true true (group basicMatch 1)
  | None =>
      match exec no_flags (vueAttrRegex original) templateContent with
      | Some vueMatch => mkAttrCheck true false (group vueMatch 1)
      | None => mkAttrCheck false false []
      end
  end.

Definition isInVueInterpolation (templateContent : jsstring) (textIndex : Z)
  : bool :=
  if textIndex <? 0 then false
  else
    let beforeText := substring templateContent 0 textIndex in
    let lastOpenBrace := lastIndexOf beforeText (js "{{") in
    let lastCloseBrace := lastIndexOf beforeText (js "}}") in
    if negb (lastOpenBrace =? -1) && (lastCloseBrace <? lastOpenBrace) then
      let afterOpen := substring templateContent (lastOpenBrace + 2) textIndex in
      if negb (includes afterOpen (js "}}")) then true else false
    else false.

(* (?:^|[>\s])(:|@|v-)[\w-]+\s*=\s*['\x22], flag g *)
Definition vueBindingRegex : regex :=
  seqs [Alt Bol (Cls false (one ">" :: ws_ranges));
        Group 1 (alts [c ":"; c "@"; l "v-"]); Plus true word_dash;
        Star true ws; c "="; Star true ws; Cls false quoteRanges].

(** The quote-pairing loop of [isInVueBindingExpression]. *)
Fixpoint quoteCountLoop (betweenText : jsstring) (prevChar : option N)
  (openingQuote : N) (quoteCount : Z) (inSingleQuote inDoubleQuote : bool)
  : Z :=
  match betweenText with
  | [] => quoteCount
  | char :: rest =>
      if match prevChar with Some p => (p =? ch "\")%N | None => false end
      then quoteCountLoop rest (Some char) openingQuote quoteCount
             inSingleQuote inDoubleQuote
      else if (char =? 34)%N && negb inSingleQuote then
        let inDoubleQuote := negb inDoubleQuote in
        let quoteCount :=
          if negb inDoubleQuote && (openingQuote =? 34)%N
          then quoteCount + 1 else quoteCount in
        quoteCountLoop rest (Some char) openingQuote quoteCount inSingleQuote
          inDoubleQuote
      else if (char =? ch "'")%N && negb inDoubleQuote then
        let inSingleQuote := negb inSingleQuote in
        let quoteCount :=
          if negb inSingleQuote && (openingQuote =? ch "'")%N
          then quoteCount + 1 else quoteCount in
        quoteCountLoop rest (Some char) openingQuote quoteCount inSingleQuote
          inDoubleQuote
      else quoteCountLoop rest (Some char) openingQuote quoteCount
             inSingleQuote inDoubleQuote
  end.

Definition isInVueBindingExpression (templateContent : jsstring)
  (textIndex : Z) : bool :=
  if textIndex <? 0 then false
  else
    let beforeText := substring templateContent 0 textIndex in
    match last (map Some (matchAll no_flags vueBindingRegex beforeText)) None
    with
    | None => false
    | Some lastBindingMatch =>
        let attrStartIndex :=
          index lastBindingMatch + len (m_text lastBindingMatch) - 1 in
        let openingQuote := last (m_text lastBindingMatch) 0%N in
        let betweenText :=
          substring templateContent (attrStartIndex + 1) textIndex in
        if negb (includes betweenText [openingQuote]) then true
        else quoteCountLoop betweenText None openingQuote 0 false false =? 0
    end.

(** ** The template interpolation converter *)

Record conversion := mkConversion {
  key : jsstring;
  converted : jsstring;
  replacedText : jsstring;
  mapping : jsobject
}.

(* \$\{([^}]+)\}, flag g *)
Definition variableRegex : regex :=
  seqs [c "$"; c "{"; Group 1 (Plus true (Cls true [one "}"])); c "}"].

(** [Array.prototype.join] *)
Fixpoint join (sep : jsstring) (parts : list jsstring) : jsstring :=
  match parts with
  | [] => []
  | [p] => p
  | p :: rest => p ++ sep ++ join sep rest
  end.

(** One round of [variables.forEach((variable, index) => ...)]; the state
    is the next [index], [convertedText] and [mapping]. *)
Definition convertStep (st : Z * jsstring * jsobject) (variable : jsstring)
  : Z * jsstring * jsobject :=
  let '(index, convertedText, mapping) := st in
  let newVarName := fromCharCode (97 + index) in
  let mapping := Obj.set mapping newVarName variable in
  let convertedText :=
    replaceAll no_flags
      (RegExp (js "\$\{" ++ escapeRegExp variable ++ js "\}"))
      (js "{" ++ newVarName ++ js "}") convertedText in
  (index + 1, convertedText, mapping).

Definition convertTemplateToI18n (templateString methodPrefix : jsstring)
  (globalI18nMap : jsobject) : conversion * jsobject :=
  let variables :=
    map (fun m => group m 1) (matchAll no_flags variableRegex templateString) in
  let '(_, convertedText, mapping) :=
    fold_left convertStep variables (0, templateString, []) in
  let globalI18nMap := Obj.set globalI18nMap convertedText convertedText in
  let mappingString :=
    join (js ", ") (map (fun kv => fst kv ++ js ": " ++ snd kv) mapping) in
  let i18nCall :=
    if truthy mappingString
    then methodPrefix ++ js "('" ++ convertedText ++ js "', {" ++ mappingString
           ++ js "})"
    else methodPrefix ++ js "('" ++ convertedText ++ js "')" in
  (mkConversion convertedText i18nCall convertedText mapping, globalI18nMap).

(** ** Configuration *)

Record i18nMethods := mkMethods { template : jsstring; script : jsstring }.
Record vueOptions := mkVue {
  vueImportStatement : jsstring;
  instanceStatement : jsstring;
  i18nMethod : i18nMethods
}.
Record scriptOptions := mkScriptOptions {
  importStatement : jsstring;
  scriptI18nMethod : jsstring
}.
Record options := mkOptions {
  vue : vueOptions;
  typescript : scriptOptions;
  javascript : scriptOptions
}.

(** The defaults of the source, which [i18n.config.js] repeats. *)
Definition userConfig : options :=
  mkOptions
    (mkVue (js "import { useI18n } from 'vue-i18n';")
       (js "const { t } = useI18n();") (mkMethods (js "$t") (js "t")))
    (mkScriptOptions (js "import { i18n } from '@mgec/template/i18n/index.ts';")
       (js "i18n.global.t"))
    (mkScriptOptions (js "import { i18n } from '@mgec/template/i18n/index.ts';")
       (js "i18n.global.t")).

(** ** The rewrite engine: the template part of [processVueFile] *)

(** State of the loop over the terms: [newTemplateContent], the set
    [processedOriginals], [globalI18nMap] and [extractedCount]. *)
Record rewriteState := mkRewrite {
  newTemplateContent : jsstring;
  processedOriginals : list jsstring;
  globalI18nMap : jsobject;
  extractedCount : Z
}.

(* (?:^|[>\s])([\w-]+)\s*=\s*$ *)
Definition attrEndRegex : regex :=
  seqs [Alt Bol (Cls false (one ">" :: ws_ranges));
        Group 1 (Plus true word_dash); Star true ws; c "="; Star true ws; Eol].
(* (?:^|[>\s])(?::|v-)[\w-]+\s*=\s*$ *)
Definition vueBindingEndRegex : regex :=
  seqs [Alt Bol (Cls false (one ">" :: ws_ranges)); Alt (c ":") (l "v-");
        Plus true word_dash; Star true ws; c "="; Star true ws; Eol].
(* \$\{.*?\} *)
Definition hasTemplateRegex : regex :=
  seqs [c "$"; c "{"; Star false dot; c "}"].

(** One round of the backward loop over [replacements] for a quoted
    literal: [m] holds [index] and [original] of the occurrence. *)
Definition quotedReplace (templateMethod key : jsstring)
  (newTemplateContent : jsstring) (m : jsmatch) : jsstring :=
  let original := m_text m in
  let before := substring newTemplateContent 0 (index m) in
  let after := substringFrom newTemplateContent (index m + len original) in
  let call := templateMethod ++ js "('" ++ key ++ js "')" in
  let attrMatch := exec no_flags attrEndRegex before in
  let vueBindingMatch := exec no_flags vueBindingEndRegex before in
  let otherwise :=
    if isInVueInterpolation (before ++ original)
         (len before + len original - 1)
    then before ++ call ++ after
    else if isInVueBindingExpression (before ++ original)
              (len before + len original - 1)
    then before ++ call ++ after
    else before ++ js "{{ " ++ call ++ js " }}" ++ after in
  match attrMatch, vueBindingMatch with
  | Some am, None =>
      let attrName := group am 1 in
      let beforeAttr := substring before 0 (len before - len (m_text am)) in
      let first := firstn 1 (m_text am) in
      let leadingSpace :=
        if test no_flags (seqs [Bol; Cls false (one ">" :: ws_ranges)])
             (m_text am)
           && negb (str_eqb first (js ">"))
        then first else js " " in
      beforeAttr ++ leadingSpace ++ js ":" ++ attrName ++ js "=" ++ dq ++ call
        ++ dq ++ after
  | _, _ => otherwise
  end.

Definition templateTermStep (st : rewriteState) (t : term) : rewriteState :=
  if existsb (str_eqb (original t)) (processedOriginals st) then st
  else
    let processed := original t :: processedOriginals st in
    let content0 := newTemplateContent st in
    let textIndex := indexOf content0 (original t) in
    if textIndex =? -1
    then mkRewrite content0 processed (globalI18nMap st) (extractedCount st)
    else
      let hasTemplate := test no_flags hasTemplateRegex (content t) in
      let templateMethod := template (i18nMethod (vue userConfig)) in
      if hasTemplate then
        let '(conv, map1) :=
          convertTemplateToI18n (content t) templateMethod (globalI18nMap st) in
        let key := replacedText conv in
        let map2 := Obj.set map1 key (replacedText conv) in
        let content1 :=
          match type t with
          | ButtonText =>
              let newContent :=
                js "<" ++ tagName t ++ attrs t ++ js ">{{ " ++ converted conv
                  ++ js " }}</" ++ tagName t ++ js ">" in
              replaceFirst content0 (original t) newContent
          | _ =>
              let isInAttribute := checkIfInAttribute content0 (original t) in
              if isAttribute isInAttribute then
                if needsBinding isInAttribute then
                  replaceFirst content0
                    (attrName isInAttribute ++ js "=" ++ original t)
                    (js " :" ++ attrName isInAttribute ++ js "=" ++ dq
                       ++ converted conv ++ dq)
                else replaceFirst content0 (original t) (converted conv)
              else
                let textIndex := indexOf content0 (original t) in
                if negb (textIndex =? -1)
                   && isInVueInterpolation content0 textIndex
                then replaceFirst content0 (original t) (converted conv)
                else replaceFirst content0 (original t)
                       (js "{{ " ++ converted conv ++ js " }}")
          end in
        mkRewrite content1 processed map2 (extractedCount st + 1)
      else
        let key := generateI18nKey (content t) in
        let map1 := Obj.set (globalI18nMap st) key (content t) in
        let call := templateMethod ++ js "('" ++ key ++ js "')" in
        let content1 :=
          match type t with
          | TagContent =>
              replaceAll no_flags (RegExp (escapeRegExp (original t)))
                (js ">{{ " ++ call ++ js " }}<") content0
          | ButtonText =>
              let newContent :=
                js "<" ++ tagName t ++ attrs t ++ js ">{{ " ++ call
                  ++ js " }}</" ++ tagName t ++ js ">" in
              replaceAll no_flags (RegExp (escapeRegExp (original t)))
                newContent content0
          | DoubleQuote | SingleQuote =>
              let replacements :=
                matchAll no_flags (RegExp (escapeRegExp (original t)))
                  content0 in
              fold_left (quotedReplace templateMethod key) (rev replacements)
                content0
          | _ =>
              replaceFirst content0 (original t)
                (js "{{ " ++ call ++ js " }}")
          end in
        mkRewrite content1 processed map1 (extractedCount st + 1).

(** The body of [if (templateMatch && config.processVueTemplate)]:
    from [templateContent] and the registry to [newTemplateContent], the
    registry and the number of terms counted. *)
Definition processTemplate (templateContent : jsstring) (registry : jsobject)
  : rewriteState :=
  let cleanTemplate := removeComments templateContent in
  let terms := extractChineseTerms cleanTemplate TemplateCtx in
  fold_left templateTermStep terms (mkRewrite templateContent [] registry 0).

(** ** The rewrite engine: [processTsFile]

    The file is given by its content and by [path.extname(filePath)]; the
    result is [modifiedContent] and [extractedCount], with the registry. *)

Record scriptState := mkScript {
  modifiedContent : jsstring;
  processedTexts : list jsstring;
  scriptMap : jsobject;
  scriptCount : Z
}.

(* import.*i18n.*from *)
Definition i18nImportRegex : regex :=
  seqs [l "import"; Star true dot; l "i18n"; Star true dot; l "from"].
(* ^ ( \s* ) ( import.*?\n )* with flag m *)
Definition importRegex : regex :=
  seqs [Bol; Group 1 (Star true ws);
        Star true (Group 2 (seqs [l "import"; Star false dot; Chr 10]))].

Definition tsTermStep (i18nConfig : scriptOptions) (st : scriptState)
  (t : term) : scriptState :=
  if includes (content t) (js "import") then st
  else if existsb (str_eqb (content t)) (processedTexts st) then st
  else
    let processed := content t :: processedTexts st in
    let hasTemplate := test no_flags hasTemplateRegex (content t) in
    if hasTemplate then
      let '(conv, map1) :=
        convertTemplateToI18n (content t) (scriptI18nMethod i18nConfig)
          (scriptMap st) in
      let key := replacedText conv in
      let map2 := Obj.set map1 key (replacedText conv) in
      let replacement := converted conv in
      let replacement :=
        match type t with
        | I18nField => js "i18n: " ++ replacement
        | _ => replacement
        end in
      mkScript (replaceString (modifiedContent st) (original t) replacement)
        processed map2 (scriptCount st + 1)
    else
      let key := generateI18nKey (content t) in
      let map1 := Obj.set (scriptMap st) key (content t) in
      let replacement := scriptI18nMethod i18nConfig ++ js "('" ++ key ++ js "')" in
      let replacement :=
        match type t with
        | I18nField => js "i18n: " ++ replacement
        | _ => replacement
        end in
      mkScript
        (replaceAll no_flags (RegExp (escapeRegExp (original t))) replacement
           (modifiedContent st))
        processed map1 (scriptCount st + 1).

Definition processTsFile (originalContent ext : jsstring) (registry : jsobject)
  : scriptState :=
  let cleanContent := removeComments originalContent in
  let termsPreCheck := extractChineseTerms cleanContent ScriptCtx in
  let validTerms :=
    filter (fun t => negb (includes (content t) (js "import"))) termsPreCheck in
  match validTerms with
  | [] => mkScript originalContent [] registry 0
  | _ :: _ =>
      let hasI18nImport := test no_flags i18nImportRegex cleanContent in
      let i18nConfig :=
        if str_eqb ext (js ".js") then javascript userConfig
        else typescript userConfig in
      let modified :=
        if negb hasI18nImport then
          let newImport := importStatement i18nConfig ++ nl in
          match exec flag_m importRegex originalContent with
          | Some importMatch =>
              let importSection := m_text importMatch in
              replaceString originalContent importSection
                (importSection ++ newImport)
          | None => newImport ++ originalContent
          end
        else originalContent in
      let terms := extractChineseTerms cleanContent ScriptCtx in
      fold_left (tsTermStep i18nConfig) terms (mkScript modified [] registry 0)
  end.

(** ** The rewrite engine: the script part of [processVueFile] *)

(* lang=['\x22]tsx['\x22] *)
Definition isScriptTsx (scriptTag : jsstring) : bool :=
  test no_flags
    (seqs [l "lang="; Cls false quoteRanges; l "tsx"; Cls false quoteRanges])
    scriptTag.

(* > ( [^<>{}]+ ) <, flag g *)
Definition jsxTagRegex : regex :=
  seqs [c ">";
        Group 1 (Plus true (Cls true [one "<"; one ">"; one "{"; one "}"]));
        c "<"].

Definition tsxTagStep (text : jsstring) (terms : list term) (m : jsmatch)
  : list term :=
  let content := trim (group m 1) in
  if negb (truthy content) || negb (test no_flags cjk content) then terms
  else if isCodeLike content then terms
  else if isFilePath content then terms
  else
    let surroundingText := surrounding text m 50 in
    if negb (isAlreadyInternationalized (m_text m) surroundingText (-1))
    then terms ++ [mkTerm (m_text m) content TsxTagContent [] []]
    else terms.

Definition extractTsxTagContent (text : jsstring) : list term :=
  fold_left (tsxTagStep text) (matchAll no_flags jsxTagRegex text) [].

(** [s.split('\n')] *)
Fixpoint splitLines (s : jsstring) (line : jsstring) : list jsstring :=
  match s with
  | [] => [rev line]
  | x :: t => if (x =? 10)%N then rev line :: splitLines t []
              else splitLines t (x :: line)
  end.

(* from\s+['\x22][^'\x22]+['\x22] *)
Definition fromClauseRegex : regex :=
  seqs [l "from"; Plus true ws; Cls false quoteRanges;
        Plus true (Cls true quoteRanges); Cls false quoteRanges].

Definition endsImport (line : jsstring) : bool :=
  includes line (js ";")
  || (includes line (js "from") && test no_flags fromClauseRegex line).

(** The loop that looks for the end of the import statements: [i] is the
    index of the first of [lines]; the result is [lastImportEndIndex]. *)
Fixpoint lastImportLoop (lines : list jsstring) (i : Z)
  (lastImportEndIndex : Z) (inImport : bool) : Z :=
  match lines with
  | [] => lastImportEndIndex
  | originalLine :: rest =>
      let line := trim originalLine in
      if startsWith line (js "//") || startsWith line (js "/*")
         || startsWith line (js "*")
      then lastImportLoop rest (i + 1) lastImportEndIndex inImport
      else if startsWith line (js "import ") then
        lastImportLoop rest (i + 1) i (negb (endsImport line))
      else if inImport then
        lastImportLoop rest (i + 1) i (negb (endsImport line))
      else if truthy line && negb inImport && (0 <=? lastImportEndIndex)
      then lastImportEndIndex
      else lastImportLoop rest (i + 1) lastImportEndIndex inImport
  end.

(** [lines.splice(i, 0, ...items)] for [0 <= i <= lines.length]. *)
Definition spliceIn (lines : list jsstring) (i : Z) (items : list jsstring)
  : list jsstring :=
  firstn (Z.to_nat i) lines ++ items ++ skipn (Z.to_nat i) lines.

(** [while (insertIndex < lines.length && !lines[insertIndex].trim())
    insertIndex++], started on the lines from [insertIndex] on. *)
Fixpoint skipBlankLines (rest : list jsstring) (insertIndex : Z) : Z :=
  match rest with
  | [] => insertIndex
  | line :: t => if negb (truthy (trim line))
                 then skipBlankLines t (insertIndex + 1) else insertIndex
  end.

Definition addUseI18n (scriptContent : jsstring) : jsstring :=
  let lines := splitLines scriptContent [] in
  let lastImportEndIndex := lastImportLoop lines 0 (-1) false in
  let '(lines, lastImportEndIndex) :=
    if 0 <=? lastImportEndIndex
    then (spliceIn lines (lastImportEndIndex + 1)
            [vueImportStatement (vue userConfig)],
          lastImportEndIndex + 1)
    else ([vueImportStatement (vue userConfig); []] ++ lines, 0) in
  let insertIndex :=
    skipBlankLines (skipn (Z.to_nat (lastImportEndIndex + 1)) lines)
      (lastImportEndIndex + 1) in
  let lines :=
    if insertIndex <? Z.of_nat (length lines)
    then spliceIn lines insertIndex [[]; instanceStatement (vue userConfig)]
    else lines ++ [[]; instanceStatement (vue userConfig)] in
  join nl lines.

Definition vueScriptTermStep (st : scriptState) (t : term) : scriptState :=
  if includes (content t) (js "import") then st
  else if existsb (str_eqb (content t)) (processedTexts st) then st
  else
    let processed := content t :: processedTexts st in
    let method := script (i18nMethod (vue userConfig)) in
    match type t with
    | TsxTagContent =>
        let key := generateI18nKey (content t) in
        let map1 := Obj.set (scriptMap st) key (content t) in
        let replacement := js ">{" ++ method ++ js "('" ++ key ++ js "')}<" in
        mkScript (replaceString (modifiedContent st) (original t) replacement)
          processed map1 (scriptCount st + 1)
    | _ =>
        let hasTemplate := test no_flags hasTemplateRegex (content t) in
        if hasTemplate then
          let '(conv, map1) :=
            convertTemplateToI18n (content t) method (scriptMap st) in
          let key := replacedText conv in
          let map2 := Obj.set map1 key (replacedText conv) in
          mkScript
            (replaceString (modifiedContent st) (original t) (converted conv))
            processed map2 (scriptCount st + 1)
        else
          let key := generateI18nKey (content t) in
          let map1 := Obj.set (scriptMap st) key (content t) in
          mkScript
            (replaceAll no_flags (RegExp (escapeRegExp (original t)))
               (method ++ js "('" ++ key ++ js "')") (modifiedContent st))
            processed map1 (scriptCount st + 1)
    end.

(* import.*useI18n.*from.*vue-i18n   and   const.*\{.*t.*\}.*useI18n *)
Definition useI18nImportRegex : regex :=
  seqs [l "import"; Star true dot; l "useI18n"; Star true dot; l "from";
        Star true dot; l "vue-i18n"].
Definition useI18nConstRegex : regex :=
  seqs [l "const"; Star true dot; c "{"; Star true dot; c "t"; Star true dot;
        c "}"; Star true dot; l "useI18n"].

(** The body of [if (scriptMatch && config.processVueScript)]: from
    [scriptContent] to [newScriptContent], with the registry and the
    number of terms counted; [None] when no term is valid and the script
    is left alone. *)
Definition processScript (scriptContent : jsstring) (isTsx : bool)
  (registry : jsobject) (count : Z) : option scriptState :=
  let cleanScript := removeComments scriptContent in
  let termsPreCheck := extractChineseTerms cleanScript ScriptCtx in
  let termsPreCheck :=
    if isTsx then termsPreCheck ++ extractTsxTagContent cleanScript
    else termsPreCheck in
  let validTerms :=
    filter (fun t => negb (includes (content t) (js "import"))) termsPreCheck in
  match validTerms with
  | [] => None
  | _ :: _ =>
      let hasUseI18n :=
        test no_flags useI18nImportRegex cleanScript
        || test no_flags useI18nConstRegex cleanScript in
      let newScriptContent :=
        if negb hasUseI18n then addUseI18n scriptContent else scriptContent in
      let cleanNewScript := removeComments newScriptContent in
      let terms := extractChineseTerms cleanNewScript ScriptCtx in
      let terms :=
        if isTsx then terms ++ extractTsxTagContent cleanNewScript
        else terms in
      Some (fold_left vueScriptTermStep terms
              (mkScript newScriptContent [] registry count))
  end.

(** ** [processVueFile] and [processFile]

    A file is given by its content; reading and writing it are left to
    the caller. *)

Record runConfig := mkRunConfig {
  processVueTemplate : bool;
  processVueScript : bool;
  processTs : bool
}.

(* <template[^>]*> ( [\s\S]* ) <\/template>, flag i *)
Definition templateBlockRegex : regex :=
  seqs [l "<template"; Star true (Cls true [one ">"]); c ">";
        Group 1 (Star true any); l "</template>"].
(* <script[^>]*>, flag i *)
Definition scriptTagRegex : regex :=
  seqs [l "<script"; Star true (Cls true [one ">"]); c ">"].
(* <script[^>]*> ( [\s\S]*? ) <\/script>, flag i *)
Definition scriptBlockRegex : regex :=
  seqs [l "<script"; Star true (Cls true [one ">"]); c ">";
        Group 1 (Star false any); l "</script>"].

(** The result record [{ modifiedContent, extractedCount }] with the
    registry. *)
Record fileResult := mkFileResult {
  resultContent : jsstring;
  resultCount : Z;
  resultMap : jsobject
}.

(** The first block of [processVueFile], for the markup. *)
Definition vueTemplatePart (originalContent : jsstring) (config : runConfig)
  (registry : jsobject) : fileResult :=
  let templateMatch := exec flag_i templateBlockRegex originalContent in
  match templateMatch with
  | Some tm =>
      if processVueTemplate config then
        let templateContent := group tm 1 in
        let st := processTemplate templateContent registry in
        mkFileResult
          (replaceString originalContent templateContent
             (newTemplateContent st))
          (extractedCount st) (globalI18nMap st)
      else mkFileResult originalContent 0 registry
  | None => mkFileResult originalContent 0 registry
  end.

Definition processVueFile (originalContent : jsstring) (config : runConfig)
  (registry : jsobject) : fileResult :=
  let scriptTagMatch := exec flag_i scriptTagRegex originalContent in
  let scriptMatch := exec flag_i scriptBlockRegex originalContent in
  let isTsx :=
    match scriptTagMatch with
    | Some tag => isScriptTsx (m_text tag)
    | None => false
    end in
  let afterTemplate := vueTemplatePart originalContent config registry in
  match scriptMatch with
  | Some sm =>
      if processVueScript config then
        let scriptContent := group sm 1 in
        match processScript scriptContent isTsx (resultMap afterTemplate)
                (resultCount afterTemplate) with
        | Some st =>
            mkFileResult
              (replaceString (resultContent afterTemplate) scriptContent
                 (modifiedContent st))
              (scriptCount st) (scriptMap st)
        | None => afterTemplate
        end
      else afterTemplate
  | None => afterTemplate
  end.

(** [processFile] up to the result of the file: [None] stands for the
    two answers that skip the file. *)
Definition processFile (ext originalContent : jsstring) (config : runConfig)
  (registry : jsobject) : option fileResult :=
  if str_eqb ext (js ".vue")
  then Some (processVueFile originalContent config registry)
  else if str_eqb ext (js ".ts") then
    if negb (processTs config) then None
    else
      let st := processTsFile originalContent ext registry in
      Some (mkFileResult (modifiedContent st) (scriptCount st) (scriptMap st))
  else None.

(** ** A run over several files

    [main] hands the files to [processFile] one after the other, and all
    of them write to the one [globalI18nMap].  [registryAfter f reg] is
    the registry a file leaves. *)

(** What the core registers: a key with itself as its text. *)
Definition register (o : jsobject) (k : jsstring) : jsobject := Obj.set o k k.

Definition registered (keys : list jsstring) (k : jsstring) : bool :=
  existsb (fun k0 => str_eqb k0 k && negb (str_eqb k0 (js "__proto__"))) keys.

Record sourceFile := mkSourceFile {
  fileExt : jsstring;
  fileContent : jsstring
}.

Definition registryAfter (config : runConfig) (f : sourceFile)
  (registry : jsobject) : jsobject :=
  match processFile (fileExt f) (fileContent f) config registry with
  | Some r => resultMap r
  | None => registry
  end.

(** ** Texts of the examples *)

Module Examples.

(* <el-input placeholder=\x22请输入\x22> *)
Definition plainAttribute : jsstring :=
  js "<el-input placeholder=" ++ dq ++ js "请输入" ++ dq ++ js ">".
(* <el-input :placeholder=\x22'请输入'\x22> *)
Definition boundAttribute : jsstring :=
  js "<el-input :placeholder=" ++ dq ++ js "'请输入'" ++ dq ++ js ">".
(* <el-input :placeholder=\x22$t('请输入')\x22> *)
Definition boundCall : jsstring :=
  js "<el-input :placeholder=" ++ dq ++ js "$t('请输入')" ++ dq ++ js ">".
Definition countTemplate : jsstring := js "共${count}条记录".
Definition countKey : jsstring := js "共{a}条记录".
Definition twiceSame : jsstring := js "${x}和${x}".
Definition markers27 : jsstring :=
  js "${v0}${v1}${v2}${v3}${v4}${v5}${v6}${v7}${v8}${v9}${v10}${v11}${v12}${v13}${v14}${v15}${v16}${v17}${v18}${v19}${v20}${v21}${v22}${v23}${v24}${v25}${v26}".

Definition dollarBeforeMarker : jsstring := js "$${x}${a}".

(** A component file, a script file, and what a pass makes of them. *)
Definition allOn : runConfig := mkRunConfig true true true.
Definition page : jsstring :=
  js "<template>" ++ plainAttribute ++ js "</template>".
Definition pageOut : jsstring :=
  js "<template>" ++ boundCall ++ js "</template>".
Definition scriptFile : jsstring := js "const x = '你好';" ++ nl.

(** [countPage] by its parts. *)
Definition countPage : jsstring := js "共${count}条，第${page}页".
Definition countPagePieces : list (jsstring * jsstring) :=
  [(js "count", js "条，第"); (js "page", js "页")].

(** [markers27] by its parts. *)
Definition pieces27 : list (jsstring * jsstring) :=
  map (fun s => (js s, []))
    ["v0"; "v1"; "v2"; "v3"; "v4"; "v5"; "v6"; "v7"; "v8"; "v9"; "v10"; "v11";
     "v12"; "v13"; "v14"; "v15"; "v16"; "v17"; "v18"; "v19"; "v20"; "v21";
     "v22"; "v23"; "v24"; "v25"; "v26"]%string.

(** A component whose script holds a literal right after a word, and
    what one and two passes make of it. *)
Definition gluedComponent : jsstring :=
  js "<script setup>" ++ nl
  ++ js "const f = () => { return'你好' }" ++ nl
  ++ js "</script>" ++ nl.
Definition gluedOut : jsstring :=
  js "<script setup>import { useI18n } from 'vue-i18n';" ++ nl ++ nl ++ nl
  ++ nl ++ js "const { t } = useI18n();" ++ nl
  ++ js "const f = () => { returnt('你好') }" ++ nl
  ++ js "</script>" ++ nl.
Definition gluedTwice : jsstring :=
  js "<script setup>import { useI18n } from 'vue-i18n';" ++ nl ++ nl ++ nl
  ++ nl ++ js "const { t } = useI18n();" ++ nl
  ++ js "const f = () => { returnt(t('你好')) }" ++ nl
  ++ js "</script>" ++ nl.

End Examples.

(** ** Templates given by their parts

    A template is a leading text and a list of pieces, each an
    interpolated expression with the text that follows its marker. *)

Definition marker (e : jsstring) : jsstring := js "${" ++ e ++ js "}".

(** The name [String.fromCharCode(97 + index)] of marker [index], and the
    placeholder that stands for the marker in the key. *)
Definition placeholderName (i : nat) : jsstring :=
  fromCharCode (97 + Z.of_nat i).
Definition placeholder (i : nat) : jsstring :=
  js "{" ++ placeholderName i ++ js "}".

Fixpoint render (f : jsstring -> jsstring) (pieces : list (jsstring * jsstring))
  : jsstring :=
  match pieces with
  | [] => []
  | (e, text) :: rest => f e ++ text ++ render f rest
  end.

(** The key when marker [i] is written as placeholder [i]. *)
Fixpoint renderInOrder (i : nat) (pieces : list (jsstring * jsstring))
  : jsstring :=
  match pieces with
  | [] => []
  | (_, text) :: rest => placeholder i ++ text ++ renderInOrder (S i) rest
  end.

Definition no_dollar (s : jsstring) : bool :=
  forallb (fun x => negb (x =? ch "$")%N) s.

Definition expression_ok (e : jsstring) : bool :=
  truthy e
  && forallb (fun x => negb (x =? ch "$")%N && negb (x =? ch "}")%N) e.

(** The dollar sign occurs only where a marker starts, and an expression
    is not empty and holds no closing brace. *)
Definition well_formed (lead : jsstring) (pieces : list (jsstring * jsstring))
  : bool :=
  no_dollar lead
  && forallb (fun p => expression_ok (fst p) && no_dollar (snd p)) pieces.

(** Position of the first expression equal to [e]. *)
Fixpoint first_index (e : jsstring) (exprs : list jsstring) : nat :=
  match exprs with
  | [] => O
  | x :: t => if str_eqb x e then O else S (first_index e t)
  end.

(** The mapping that binds name [i], [i + 1], ... to the expressions. *)
Fixpoint bindings (i : nat) (exprs : list jsstring) : jsobject :=
  match exprs with
  | [] => []
  | e :: t => (placeholderName i, e) :: bindings (S i) t
  end.

(** The piece for [e] once the expressions [done] have been handled. *)
Definition piece (done all : list jsstring) (e : jsstring) : jsstring :=
  if existsb (str_eqb e) done then placeholder (first_index e all)
  else marker e.

(** The escaped form of one code unit, and [lit] continued by a pattern. *)
Definition escapeUnit (x : N) : jsstring :=
  if in_ranges syntaxCharRanges x then [ch "\"; x] else [x].

Fixpoint lit_then (s : jsstring) (r : regex) : regex :=
  match s with
  | [] => r
  | x :: t => Seq (Chr x) (lit_then t r)
  end.

(** ** Predicates of the specification *)

(** A string holds a character of the target script, U+4E00 to U+9FA5. *)
Definition has_cjk (s : jsstring) : Prop :=
  exists x, In x s /\ (0x4e00 <= x <= 0x9fa5)%N.

(** What every filter of the extractor checks before it keeps a term. *)
Definition kept (t : term) : Prop :=
  truthy (content t) = true
  /\ test no_flags cjk (content t) = true
  /\ trim (content t) = content t
  /\ isFilePath (content t) = false
  /\ (type t <> Template -> isCodeLike (content t) = false).


(** [a] is [b] with some code units deleted. *)
Inductive subsequence : jsstring -> jsstring -> Prop :=
| sub_nil : subsequence [] []
| sub_keep x a b : subsequence a b -> subsequence (x :: a) (x :: b)
| sub_drop x a b : subsequence a b -> subsequence a (x :: b).

(** The text before a quote ends with the opening of a lookup call:
    [$t(], [i18n.global.t(], [i18n.t(], or [t(] with no word character
    before the [t]. *)
Definition callOpening (before : jsstring) : Prop :=
  (exists w, before = w ++ js "$t(")
  \/ (exists w, before = w ++ js "i18n.global.t(")
  \/ (exists w, before = w ++ js "i18n.t(")
  \/ (exists w, before = w ++ js "t(" /\ head_word (rev w) = false).

(** The text holds the opening of a lookup call. *)
Definition containsCall (s : jsstring) : Prop :=
  exists before rest, s = before ++ rest /\ callOpening before.

(** ** Invariants of the matcher used in the proofs *)

(** Every code unit the pattern can consume satisfies [P]. *)
Fixpoint accepts_only (fl : flags) (P : N -> bool) (r : regex) : Prop :=
  match r with
  | Chr c0 => forall x, chr_eq fl c0 x = true -> P x = true
  | Cls neg rs => forall x, cls_mem fl neg rs x = true -> P x = true
  | Seq a b | Alt a b => accepts_only fl P a /\ accepts_only fl P b
  | Star _ a | Group _ a => accepts_only fl P a
  | Eps | Bol | Eol | WordB => True
  end.

(** The matcher went from [st] to [st'] over code units that satisfy [P]. *)
Definition passes (P : N -> bool) (st st' : mstate) : Prop :=
  exists u, after st = u ++ after st'
            /\ before st' = rev u ++ before st
            /\ forallb P u = true.


(** ** Rewriting one quoted literal: [processQuotedStringOnce] and
    [processQuotedString] *)

Definition processQuotedStringOnce (templateContent : jsstring) (t : term)
  (key : jsstring) : jsstring :=
  let attrCheck := checkIfInAttribute templateContent (original t) in
  if isAttribute attrCheck then
    if needsBinding attrCheck then
      let attrPattern := attrName attrCheck ++ js "=" ++ original t in
      replaceFirst templateContent attrPattern
        (js " :" ++ attrName attrCheck ++ js "=" ++ dq ++ js "$t('" ++ key
           ++ js "')" ++ dq)
    else replaceFirst templateContent (original t) (js "$t('" ++ key ++ js "')")
  else
    let textIndex := indexOf templateContent (original t) in
    if isInVueBindingExpression templateContent textIndex
    then replaceFirst templateContent (original t)
           (js "$t('" ++ key ++ js "')")
    else replaceFirst templateContent (original t)
           (js "{{ $t('" ++ key ++ js "') }}").

(* <attrName>\s*=\s*<original> *)
Definition attrAssignRegex (attrName original : jsstring) : regex :=
  seqs [RegExp (escapeRegExp attrName); Star true ws; c "="; Star true ws;
        RegExp (escapeRegExp original)].

Definition processQuotedString (templateContent : jsstring) (t : term)
  (key : jsstring) : jsstring :=
  let attrCheck := checkIfInAttribute templateContent (original t) in
  if isAttribute attrCheck then
    if needsBinding attrCheck then
      replaceRegex no_flags
        (attrAssignRegex (attrName attrCheck) (original t))
        (js ":" ++ attrName attrCheck ++ js "=" ++ dq ++ js "$t('" ++ key
           ++ js "')" ++ dq)
        templateContent
    else replaceString templateContent (original t)
           (js "$t('" ++ key ++ js "')")
  else
    let textIndex := indexOf templateContent (original t) in
    if isInVueBindingExpression templateContent textIndex
    then replaceString templateContent (original t)
           (js "$t('" ++ key ++ js "')")
    else replaceString templateContent (original t)
           (js "{{ $t('" ++ key ++ js "') }}").

(** ** The command line: [parseArgs]

    [args] is [process.argv.slice(2)].  The functions of Node's [path]
    module that [parseArgs] calls are given by the caller, as they read
    the working directory.  A call ends by returning, by
    [process.exit(code)], or by an exception. *)

Inductive outcome (A : Type) : Type :=
| Returns (a : A)
| Exits (code : Z)
| Throws.
Arguments Returns {A} a.
Arguments Exits {A} code.
Arguments Throws {A}.

Record pathModule := mkPath {
  basename : jsstring -> jsstring;
  resolve : jsstring -> jsstring;
  pathJoin : jsstring -> jsstring -> jsstring
}.

(** [config]: the three switches, [outputPath] ([None] is [undefined]),
    [dryRun] and [folderPath]. *)
Record cliConfig := mkCli {
  switches : runConfig;
  outputPath : option jsstring;
  dryRun : bool;
  folderPath : jsstring
}.

Definition defaultConfig (folder : jsstring) : cliConfig :=
  mkCli (mkRunConfig true true true) (Some (js "./i18n-mapping.json")) false
    folder.

(** The loop [for (let i = 1; i < args.length; i++)] over the arguments
    from [args[i]] on, with [config] and [hasCustomOutput]. *)
Fixpoint parseOptions (args : list jsstring) (config : cliConfig)
  (hasCustomOutput : bool) : outcome (cliConfig * bool) :=
  match args with
  | [] => Returns (config, hasCustomOutput)
  | arg :: rest =>
      let sw := switches config in
      if str_eqb arg (js "--no-template") then
        parseOptions rest
          (mkCli (mkRunConfig false (processVueScript sw) (processTs sw))
             (outputPath config) (dryRun config) (folderPath config))
          hasCustomOutput
      else if str_eqb arg (js "--no-script") then
        parseOptions rest
          (mkCli (mkRunConfig (processVueTemplate sw) false (processTs sw))
             (outputPath config) (dryRun config) (folderPath config))
          hasCustomOutput
      else if str_eqb arg (js "--no-ts") then
        parseOptions rest
          (mkCli (mkRunConfig (processVueTemplate sw) (processVueScript sw)
                    false)
             (outputPath config) (dryRun config) (folderPath config))
          hasCustomOutput
      else if str_eqb arg (js "--output") then
        match rest with
        | value :: rest' =>
            parseOptions rest'
              (mkCli sw (Some value) (dryRun config) (folderPath config)) true
        | [] =>
            Returns (mkCli sw None (dryRun config) (folderPath config), true)
        end
      else if str_eqb arg (js "--dry-run") then
        parseOptions rest
          (mkCli sw (outputPath config) true (folderPath config))
          hasCustomOutput
      else if str_eqb arg (js "--help") then Exits 0
      else if startsWith arg (js "--") then Exits 1
      else parseOptions rest config hasCustomOutput
  end.

Definition parseArgs (path : pathModule) (args : list jsstring)
  : outcome cliConfig :=
  match args with
  | [] => Exits 0
  | folder :: rest =>
      match parseOptions rest (defaultConfig folder) false with
      | Returns (config, hasCustomOutput) =>
          let withOutput out :=
            mkCli (switches config) (Some out) (dryRun config)
              (folderPath config) in
          if negb hasCustomOutput then
            let folderName := basename path (resolve path (folderPath config)) in
            match outputPath config with
            | None => Throws
            | Some out =>
                if negb (endsWith out (js ".json"))
                then Returns (withOutput
                                (pathJoin path out (folderName ++ js ".json")))
                else Returns (withOutput (js "./" ++ folderName ++ js ".json"))
            end
          else
            match outputPath config with
            | None => Throws
            | Some out =>
                if negb (endsWith out (js ".json")) then
                  let folderName :=
                    basename path (resolve path (folderPath config)) in
                  Returns (withOutput
                             (pathJoin path out (folderName ++ js ".json")))
                else Returns config
            end
      | Exits code => Exits code
      | Throws => Throws
      end
  end.

(** A path module that joins with a slash and leaves names as they are,
    for the examples. *)
Definition plainPath : pathModule :=
  mkPath (fun p => p) (fun p => p) (fun a b => a ++ js "/" ++ b).

(** ** [processFile] on disk and the loop of [main]

    [main] calls [processFile] on one file after the other and adds up
    [successCount] and [totalExtracted].  [processFile] reads the file,
    rewrites it and writes it back; an exception of [readFile] or
    [writeFile] is caught and answered with [success: false].  A file is
    given by [path.extname] of its path, by the text [readFile] gives
    ([None] when it throws) and by whether [writeFile] succeeds. *)

Record diskFile := mkDiskFile {
  diskExt : jsstring;
  diskContent : option jsstring;
  diskWritable : bool
}.

(** The answer [{ success, extractedCount }] of [processFile], with the
    registry the call leaves. *)
Record fileAnswer := mkAnswer {
  success : bool;
  answerCount : Z;
  answerMap : jsobject
}.

(** The end of the [try] block: the result is written unless the run is
    a dry run or [modifiedContent] is empty; when [writeFile] throws, the
    [catch] block answers, after the registry was written to. *)
Definition writeBack (config : cliConfig) (f : diskFile) (result : fileResult)
  : fileAnswer :=
  if negb (dryRun config) && truthy (resultContent result)
     && negb (diskWritable f)
  then mkAnswer false 0 (resultMap result)
  else mkAnswer true (resultCount result) (resultMap result).

Definition processFileOnDisk (f : diskFile) (config : cliConfig)
  (registry : jsobject) : fileAnswer :=
  if str_eqb (diskExt f) (js ".vue") then
    match diskContent f with
    | Some originalContent =>
        writeBack config f
          (processVueFile originalContent (switches config) registry)
    | None => mkAnswer false 0 registry
    end
  else if str_eqb (diskExt f) (js ".ts") then
    if negb (processTs (switches config)) then mkAnswer true 0 registry
    else
      match diskContent f with
      | Some originalContent =>
          let st := processTsFile originalContent (diskExt f) registry in
          writeBack config f
            (mkFileResult (modifiedContent st) (scriptCount st) (scriptMap st))
      | None => mkAnswer false 0 registry
      end
  else mkAnswer true 0 registry.

(** The state of the loop of [main]: the registry with the two
    counters. *)
Record runState := mkRun {
  runMap : jsobject;
  totalExtracted : Z;
  successCount : Z
}.

Definition runStep (config : cliConfig) (st : runState) (f : diskFile)
  : runState :=
  let result := processFileOnDisk f config (runMap st) in
  if success result
  then mkRun (answerMap result) (totalExtracted st + answerCount result)
         (successCount st + 1)
  else mkRun (answerMap result) (totalExtracted st) (successCount st).

Definition runFiles (config : cliConfig) (files : list diskFile)
  (registry : jsobject) : runState :=
  fold_left (runStep config) files (mkRun registry 0 0).

(** Two states of the loop of [main] that answer every lookup alike and
    agree on the counters. *)
Definition sameRun (a b : runState) : Prop :=
  (forall k, Obj.get (runMap a) k = Obj.get (runMap b) k)
  /\ totalExtracted a = totalExtracted b
  /\ successCount a = successCount b.

(** [processFile] reads the file: it is a component file, or a script
    file while script files are handled. *)
Definition isRead (config : cliConfig) (f : diskFile) : bool :=
  str_eqb (diskExt f) (js ".vue")
  || (str_eqb (diskExt f) (js ".ts") && processTs (switches config)).

(** ** Predicates of the further properties *)

(** No character of the target script. *)
Definition not_cjk (x : N) : bool := negb (in_range x 0x4e00 0x9fa5).
Definition no_cjk (s : jsstring) : bool := forallb not_cjk s.

(** The code unit [c0] does not occur in [s]. *)
Definition lacks (c0 : N) (s : jsstring) : bool :=
  forallb (fun x => negb (x =? c0)%N) s.

(** A pattern needs the code unit [c0] where every way through it passes
    a [Chr c0]. *)
Fixpoint needs (c0 : N) (r : regex) : bool :=
  match r with
  | Chr x => (x =? c0)%N
  | Seq a b => needs c0 a || needs c0 b
  | Alt a b => needs c0 a && needs c0 b
  | Group _ a => needs c0 a
  | _ => false
  end.

(** The code units that open and close the literal of a term. *)
Definition delimiters (ty : term_type) : option (N * N) :=
  match ty with
  | DoubleQuote => Some (34%N, 34%N)
  | SingleQuote => Some (ch "'", ch "'")
  | Template => Some (ch "`", ch "`")
  | TagContent => Some (ch ">", ch "<")
  | _ => None
  end.

(** [original] is the inner text between the delimiters, [content] the
    inner text trimmed, and the inner text holds no delimiter. *)
Definition shaped (t : term) : Prop :=
  match delimiters (type t) with
  | Some (o, c) =>
      exists inner,
        original t = o :: inner ++ [c]
        /\ content t = trim inner
        /\ forallb (fun x => negb (x =? o)%N && negb (x =? c)%N) inner = true
  | None => True
  end.

Definition located (text : jsstring) (t : term) : Prop :=
  occurs (original t) text /\ shaped t.

(** The extensions of the last pattern of [isFilePath]. *)
Definition extensionNames : list jsstring :=
  map js
    ["png"; "jpg"; "jpeg"; "gif"; "svg"; "webp"; "bmp"; "ico"; "mp4"; "mp3";
     "wav"; "pdf"; "doc"; "docx"; "xls"; "xlsx"; "zip"; "rar"; "ttf"; "woff";
     "woff2"; "eot"; "otf"; "css"; "scss"; "less"; "json"; "xml"; "txt";
     "md"]%string.

(** A line that [trim] empties. *)
Definition blank (line : jsstring) : Prop := trim line = [].

(** No parenthesis and no quote. *)
Definition plainArgs (s : jsstring) : bool :=
  forallb (fun x => negb (x =? ch "(")%N && negb (x =? ch ")")%N
                    && negb (x =? 34)%N && negb (x =? ch "'")%N
                    && negb (x =? ch "`")%N) s.

(** An argument the loop of [parseArgs] passes without leaving: one of
    the four switches, or a word that does not begin with two dashes. *)
Definition passed (arg : jsstring) : bool :=
  str_eqb arg (js "--no-template") || str_eqb arg (js "--no-script")
  || str_eqb arg (js "--no-ts") || str_eqb arg (js "--dry-run")
  || negb (startsWith arg (js "--")).

(** What the TSX scanner checks before it keeps a term. *)
Definition tsxTerm (text : jsstring) (t : term) : Prop :=
  type t = TsxTagContent
  /\ kept t
  /\ occurs (original t) text
  /\ exists inner,
       original t = ch ">" :: inner ++ [ch "<"]
       /\ content t = trim inner
       /\ forallb (cls_mem no_flags true
                     [one "<"; one ">"; one "{"; one "}"]) inner = true.

(** The count is the number of texts handled, no text is handled twice,
    and the texts handled are the contents of the terms seen that do not
    hold [import]. *)
Definition countsDistinct (seen : list term) (st : scriptState) : Prop :=
  scriptCount st = Z.of_nat (length (processedTexts st))
  /\ NoDup (processedTexts st)
  /\ forall x, In x (processedTexts st)
               <-> exists t, In t seen /\ content t = x
                             /\ includes x (js "import") = false.

(** Every text handled so far that holds no interpolation marker is
    registered under itself, and every term seen so far has been
    handled. *)
Definition registersPlain (seen : list term) (st : scriptState) : Prop :=
  (forall x, In x (processedTexts st) ->
             test no_flags hasTemplateRegex x = false ->
             Obj.get (scriptMap st) x = Some x)
  /\ (forall t, In t seen ->
                includes (content t) (js "import") = false ->
                In (content t) (processedTexts st)).

(** [st'] is [st] moved on over some of the text ahead. *)
Definition ahead (st st' : mstate) : Prop :=
  exists u, after st = u ++ after st'.

(** The text ahead and the groups are made of code units that satisfy
    [P]. *)
Definition units_ok (P : N -> bool) (st : mstate) : Prop :=
  forallb P (after st) = true
  /\ Forall (fun p => forallb P (snd p) = true) (caps st).

(** A pattern without a group. *)
Fixpoint groupless (r : regex) : bool :=
  match r with
  | Seq a b | Alt a b => groupless a && groupless b
  | Star _ a => groupless a
  | Group _ _ => false
  | _ => true
  end.

(** The matcher went from [st] to [st'] over code units that satisfy [P]
    and set no group. *)
Definition passes_plain (P : N -> bool) (st st' : mstate) : Prop :=
  passes P st st' /\ caps st' = caps st.

(** A replacement string without a [$] pattern that stands for more than
    itself where the pattern has no group: no [$$], [$&], [$`] and [$']. *)
Fixpoint plainReplacement (repl : jsstring) : bool :=
  match repl with
  | [] => true
  | d :: t =>
      (if (d =? 36)%N
       then match t with
            | [] => true
            | x :: _ =>
                negb ((x =? 36) || (x =? 38) || (x =? 96) || (x =? 39))%N
            end
       else true)
      && plainReplacement t
  end.







(** The lines the loop of [addUseI18n] tells apart: a comment line, the
    first line of an import statement, a line it passes over after the
    imports (comment or blank), and a line of code, at which it stops. *)
Definition commentLine (line : jsstring) : bool :=
  startsWith (trim line) (js "//") || startsWith (trim line) (js "/*")
  || startsWith (trim line) (js "*").
Definition importLine (line : jsstring) : bool :=
  startsWith (trim line) (js "import ").
Definition passedLine (line : jsstring) : bool :=
  commentLine line || negb (truthy (trim line)).
Definition codeLine (line : jsstring) : bool :=
  truthy (trim line) && negb (commentLine line) && negb (importLine line).

(** An import statement that ends on the line it begins on. *)
Definition singleLineImport (line : jsstring) : Prop :=
  importLine line = true -> endsImport (trim line) = true.

(** The first line of the text ahead, if any, is a line of code. *)
Definition codeAhead (tail : list jsstring) : Prop :=
  match tail with
  | [] => True
  | line :: _ => codeLine line = true
  end.

(** The first non-blank line, if any, stands at the head. *)
Definition textAhead (post : list jsstring) : Prop :=
  match post with
  | [] => True
  | line :: _ => truthy (trim line) = true
  end.

(** ** Properties *)

(** *** Strings *)

Section StringFacts.

Lemma prefixb_app (p t : jsstring) : prefixb p (p ++ t) = true.
Proof.
  induction p as [|x p IH]; simpl; [reflexivity|].
  now rewrite N.eqb_refl, IH.
Qed.

Lemma prefixb_true (p s : jsstring) :
  prefixb p s = true -> s = p ++ skipn (length p) s.
Proof.
  revert s; induction p as [|x p IH]; intros s H; simpl in *; [reflexivity|].
  destruct s as [|y s]; [discriminate|].
  apply andb_true_iff in H as [Hxy Hp].
  apply N.eqb_eq in Hxy; subst y.
  simpl. f_equal. now apply IH.
Qed.

Lemma prefixb_false (p s : jsstring) :
  prefixb p s = false -> forall t, s <> p ++ t.
Proof.
  intros H t ->. now rewrite prefixb_app in H.
Qed.

Lemma find_sub_some (search s : jsstring) (k : nat) :
  find_sub search s = Some k ->
  s = firstn k s ++ search ++ skipn (k + length search) s
  /\ forall pre post, s = pre ++ search ++ post -> (k <= length pre)%nat.
Proof.
  revert k; induction s as [|x s IH]; intros k; simpl.
  - destruct (prefixb search []) eqn:Hp; [|discriminate].
    intros [= <-]. split; [|intros; lia].
    now apply prefixb_true in Hp.
  - destruct (prefixb search (x :: s)) eqn:Hp.
    + intros [= <-]. split; [|intros; lia].
      now apply prefixb_true in Hp.
    + destruct (find_sub search s) as [j|] eqn:Hf; simpl; [|discriminate].
      intros [= <-]. destruct (IH j eq_refl) as [Hs Hmin].
      split.
      * simpl. f_equal. exact Hs.
      * intros [|y pre] post Heq.
        -- exfalso. simpl in Heq. exact (prefixb_false _ _ Hp _ Heq).
        -- injection Heq as _ Heq. apply Hmin in Heq. simpl. lia.
Qed.

Lemma find_sub_none (search s : jsstring) :
  find_sub search s = None -> ~ occurs search s.
Proof.
  induction s as [|x s IH]; simpl.
  - destruct (prefixb search []) eqn:Hp; [discriminate|].
    intros _ (pre & post & Heq).
    destruct pre; [|discriminate].
    simpl in Heq. exact (prefixb_false _ _ Hp _ Heq).
  - destruct (prefixb search (x :: s)) eqn:Hp; [discriminate|].
    destruct (find_sub search s) eqn:Hf; [discriminate|].
    intros _ (pre & post & Heq).
    destruct pre as [|y pre].
    + simpl in Heq. exact (prefixb_false _ _ Hp _ Heq).
    + injection Heq as _ Heq. apply IH; [reflexivity|]. now exists pre, post.
Qed.

Lemma occurs_find_sub (search s : jsstring) :
  occurs search s -> find_sub search s <> None.
Proof.
  intros Ho Hf. now apply find_sub_none in Hf.
Qed.

Lemma clamp_of_nat (s : jsstring) (n : nat) :
  clamp s (Z.of_nat n) = Nat.min n (length s).
Proof. unfold clamp, len. lia. Qed.

Lemma firstn_min (n : nat) (s : jsstring) :
  firstn (Nat.min n (length s)) s = firstn n s.
Proof.
  destruct (Nat.le_ge_cases n (length s)).
  - now rewrite Nat.min_l.
  - rewrite Nat.min_r by assumption.
    now rewrite !firstn_all2 by lia.
Qed.

Lemma skipn_min (n : nat) (s : jsstring) :
  skipn (Nat.min n (length s)) s = skipn n s.
Proof.
  destruct (Nat.le_ge_cases n (length s)).
  - now rewrite Nat.min_l.
  - rewrite Nat.min_r by assumption.
    now rewrite !skipn_all2 by lia.
Qed.

Lemma substring_0 (s : jsstring) (n : nat) :
  substring s 0 (Z.of_nat n) = firstn n s.
Proof.
  unfold substring. rewrite clamp_of_nat.
  replace (clamp s 0) with O by (unfold clamp, len; lia).
  rewrite Nat.max_0_l, Nat.min_0_l, Nat.sub_0_r. simpl.
  apply firstn_min.
Qed.

Lemma substringFrom_nat (s : jsstring) (n : nat) :
  substringFrom s (Z.of_nat n) = skipn n s.
Proof.
  unfold substringFrom. rewrite clamp_of_nat. apply skipn_min.
Qed.

End StringFacts.

(** *** C10: [replaceFirst] *)

(** C10. If [search] does not occur in [text], [replaceFirst] returns
    [text]; otherwise [text] splits as [pre ++ search ++ post] at the
    leftmost occurrence of [search] and the result is
    [pre ++ replacement ++ post]. *)
Theorem replaceFirst_spec (text search replacement : jsstring) :
  (~ occurs search text -> replaceFirst text search replacement = text)
  /\ (occurs search text ->
      exists pre post,
        text = pre ++ search ++ post
        /\ (forall pre' post',
               text = pre' ++ search ++ post' ->
               (length pre <= length pre')%nat)
        /\ replaceFirst text search replacement = pre ++ replacement ++ post).
Proof.
  unfold replaceFirst, indexOf.
  destruct (find_sub search text) as [k|] eqn:Hf; simpl.
  - destruct (find_sub_some _ _ _ Hf) as [Hsplit Hmin].
    split.
    + intros Hno. exfalso. apply Hno.
      eexists _, _. exact Hsplit.
    + intros _.
      exists (firstn k text), (skipn (k + length search) text).
      split; [exact Hsplit|]. split.
      * intros pre' post' Heq. apply Hmin in Heq.
        rewrite length_firstn. lia.
      * replace (Z.of_nat k =? -1) with false by (symmetry; apply Z.eqb_neq; lia).
        rewrite substring_0. unfold len.
        rewrite <- Nat2Z.inj_add, substringFrom_nat. reflexivity.
  - split; [reflexivity|].
    intros Ho. exfalso. revert Ho. now apply find_sub_none.
Qed.

Lemma replaceFirst_spec_witness :
  replaceFirst (js "a-b") (js "z") (js "X") = js "a-b"
  /\ exists pre post,
       js "a-b-a" = pre ++ js "a" ++ post
       /\ (forall pre' post',
              js "a-b-a" = pre' ++ js "a" ++ post' ->
              (length pre <= length pre')%nat)
       /\ replaceFirst (js "a-b-a") (js "a") (js "X") = pre ++ js "X" ++ post.
Proof.
  split.
  - apply (proj1 (replaceFirst_spec (js "a-b") (js "z") (js "X"))).
    intros Ho. apply occurs_find_sub in Ho. apply Ho. reflexivity.
  - apply (proj2 (replaceFirst_spec (js "a-b-a") (js "a") (js "X"))).
    exists [], (js "-b-a"). reflexivity.
Defined.

(** *** The key registry *)

Lemma str_eqb_eq (a b : jsstring) : str_eqb a b = true <-> a = b.
Proof.
  unfold str_eqb. destruct (list_eq_dec N.eq_dec a b); split; congruence.
Qed.

Lemma str_eqb_refl (a : jsstring) : str_eqb a a = true.
Proof. now apply str_eqb_eq. Qed.

Lemma str_eqb_neq (a b : jsstring) : str_eqb a b = false <-> a <> b.
Proof.
  unfold str_eqb. destruct (list_eq_dec N.eq_dec a b); split; congruence.
Qed.

Lemma str_eqb_sym (a b : jsstring) : str_eqb a b = str_eqb b a.
Proof.
  destruct (str_eqb b a) eqn:E.
  - apply str_eqb_eq in E. subst. apply str_eqb_refl.
  - apply str_eqb_neq in E. apply str_eqb_neq. congruence.
Qed.

Module ObjFacts.
Import Obj.

Lemma update_same (o : jsobject) (k v : jsstring) :
  get o k = Some v -> update o k v = o.
Proof.
  induction o as [|[k' v'] o IH]; simpl; [reflexivity|].
  destruct (str_eqb k' k); intros H.
  - now injection H as ->.
  - now rewrite IH.
Qed.

Lemma get_update_same (o : jsobject) (k v v0 : jsstring) :
  get o k = Some v0 -> get (update o k v) k = Some v.
Proof.
  induction o as [|[k' v'] o IH]; simpl; [discriminate|].
  destruct (str_eqb k' k) eqn:E; simpl; rewrite E; auto.
Qed.

Lemma get_update_other (o : jsobject) (k k' v : jsstring) :
  k <> k' -> get (update o k v) k' = get o k'.
Proof.
  intros Hne. induction o as [|[k0 v0] o IH]; simpl; [reflexivity|].
  destruct (str_eqb k0 k) eqn:E; simpl.
  - apply str_eqb_eq in E. subst k0.
    apply str_eqb_neq in Hne. now rewrite Hne.
  - now rewrite IH.
Qed.

Lemma get_insert_index_same (o : jsobject) (n : N) (k v : jsstring) :
  get o k = None -> get (insert_index o n k v) k = Some v.
Proof.
  induction o as [|[k' v'] o IH]; simpl.
  - now rewrite str_eqb_refl.
  - destruct (str_eqb k' k) eqn:E; [discriminate|]. intros H.
    destruct (array_index k') as [n'|]; [destruct (n' <? n)%N|]; simpl;
      rewrite ?E, ?str_eqb_refl; auto.
Qed.

Lemma get_insert_index_other (o : jsobject) (n : N) (k k' v : jsstring) :
  k <> k' -> get (insert_index o n k v) k' = get o k'.
Proof.
  intros Hne. apply str_eqb_neq in Hne.
  induction o as [|[k0 v0] o IH]; simpl.
  - now rewrite Hne.
  - destruct (array_index k0) as [n'|]; [destruct (n' <? n)%N|]; simpl;
      rewrite ?Hne, ?IH; reflexivity.
Qed.

Lemma get_app (o o' : jsobject) (k : jsstring) :
  get (o ++ o') k = match get o k with Some v => Some v | None => get o' k end.
Proof.
  induction o as [|[k0 v0] o IH]; simpl; [reflexivity|].
  now destruct (str_eqb k0 k).
Qed.

(** Reading a property back after an assignment. *)
Lemma get_set (o : jsobject) (k v k' : jsstring) :
  get (set o k v) k' =
  if str_eqb k k' && negb (str_eqb k (js "__proto__")) then Some v
  else get o k'.
Proof.
  unfold set. destruct (str_eqb k (js "__proto__")) eqn:Hp.
  - now rewrite andb_false_r.
  - rewrite andb_true_r. destruct (str_eqb k k') eqn:E.
    + apply str_eqb_eq in E. subst k'.
      destruct (get o k) eqn:G.
      * eapply get_update_same; eauto.
      * destruct (array_index k).
        -- now apply get_insert_index_same.
        -- rewrite get_app, G. simpl. now rewrite str_eqb_refl.
    + apply str_eqb_neq in E.
      destruct (get o k) eqn:G.
      * now apply get_update_other.
      * destruct (array_index k).
        -- now apply get_insert_index_other.
        -- rewrite get_app. destruct (get o k'); [reflexivity|]. simpl.
           apply str_eqb_neq in E. now rewrite E.
Qed.

Lemma set_same (o : jsobject) (k v : jsstring) :
  get o k = Some v -> set o k v = o.
Proof.
  intros H. unfold set. destruct (str_eqb k (js "__proto__")); [reflexivity|].
  rewrite H. now apply update_same.
Qed.

Lemma set_set (o : jsobject) (k v : jsstring) :
  set (set o k v) k v = set o k v.
Proof.
  destruct (str_eqb k (js "__proto__")) eqn:Hp.
  - unfold set. now rewrite Hp.
  - apply set_same. rewrite get_set, str_eqb_refl, Hp. reflexivity.
Qed.

Lemma get_register_all (keys : list jsstring) (o : jsobject) (k : jsstring) :
  get (fold_left register keys o) k =
  if registered keys k then Some k else get o k.
Proof.
  revert o. induction keys as [|k0 keys IH]; intros o; simpl; [reflexivity|].
  rewrite IH. unfold register, registered. simpl.
  fold (registered keys k). rewrite get_set.
  destruct (registered keys k); [now rewrite orb_true_r|].
  rewrite orb_false_r.
  destruct (str_eqb k0 k && negb (str_eqb k0 (js "__proto__"))) eqn:E;
    [|reflexivity].
  apply andb_true_iff in E as [E _]. apply str_eqb_eq in E. now subst.
Qed.

Lemma register_all_app (ks ks' : list jsstring) (o : jsobject) :
  fold_left register ks' (fold_left register ks o)
  = fold_left register (ks ++ ks') o.
Proof. now rewrite fold_left_app. Qed.

End ObjFacts.

(** The converter reads nothing from the registry: it adds its key, and
    the rest of its result is the same for every registry. *)
Lemma convert_registry (templateString methodPrefix : jsstring)
  (reg : jsobject) :
  convertTemplateToI18n templateString methodPrefix reg
  = (fst (convertTemplateToI18n templateString methodPrefix []),
     register reg
       (replacedText (fst (convertTemplateToI18n templateString methodPrefix
                             [])))).
Proof.
  unfold convertTemplateToI18n.
  destruct (fold_left convertStep _ _) as [[i ct] mp]. reflexivity.
Qed.

(** A rewrite step changes the registry only by registering keys, and
    neither the keys nor the rest of the state depend on the registry. *)
Lemma templateTermStep_registers (t : term) (buf : jsstring)
  (proc : list jsstring) (cnt : Z) :
  exists keys buf' proc' cnt', forall reg,
    templateTermStep (mkRewrite buf proc reg cnt) t
    = mkRewrite buf' proc' (fold_left register keys reg) cnt'.
Proof.
  unfold templateTermStep.
  cbn [newTemplateContent processedOriginals globalI18nMap extractedCount].
  destruct (existsb _ proc).
  { exists [], buf, proc, cnt. reflexivity. }
  destruct (indexOf buf (original t) =? -1).
  { exists [], buf, (original t :: proc), cnt. reflexivity. }
  destruct (test no_flags hasTemplateRegex (content t)).
  - set (conv := fst (convertTemplateToI18n (content t)
                        (template (i18nMethod (vue userConfig))) [])).
    exists [replacedText conv; replacedText conv]. eexists _, _, _.
    intros reg. rewrite convert_registry. fold conv. cbn iota beta.
    reflexivity.
  - exists [generateI18nKey (content t)]. eexists _, _, _.
    intros reg. reflexivity.
Qed.

Lemma templateTerms_register (terms : list term) :
  forall buf proc cnt,
  exists keys buf' proc' cnt', forall reg,
    fold_left templateTermStep terms (mkRewrite buf proc reg cnt)
    = mkRewrite buf' proc' (fold_left register keys reg) cnt'.
Proof.
  induction terms as [|t terms IH]; intros buf proc cnt.
  - exists [], buf, proc, cnt. reflexivity.
  - destruct (templateTermStep_registers t buf proc cnt)
      as (ks & b1 & p1 & c1 & H1).
    destruct (IH b1 p1 c1) as (ks2 & b2 & p2 & c2 & H2).
    exists (ks ++ ks2), b2, p2, c2. intros reg. simpl.
    now rewrite H1, H2, fold_left_app.
Qed.

Lemma tsTermStep_registers (cfg : scriptOptions) (t : term) (buf : jsstring)
  (proc : list jsstring) (cnt : Z) :
  exists keys buf' proc' cnt', forall reg,
    tsTermStep cfg (mkScript buf proc reg cnt) t
    = mkScript buf' proc' (fold_left register keys reg) cnt'.
Proof.
  unfold tsTermStep.
  cbn [modifiedContent processedTexts scriptMap scriptCount].
  destruct (includes (content t) (js "import")).
  { exists [], buf, proc, cnt. reflexivity. }
  destruct (existsb _ proc).
  { exists [], buf, proc, cnt. reflexivity. }
  destruct (test no_flags hasTemplateRegex (content t)).
  - set (conv := fst (convertTemplateToI18n (content t)
                        (scriptI18nMethod cfg) [])).
    exists [replacedText conv; replacedText conv]. eexists _, _, _.
    intros reg. rewrite convert_registry. fold conv. cbn iota beta.
    reflexivity.
  - exists [generateI18nKey (content t)]. eexists _, _, _.
    intros reg. reflexivity.
Qed.

Lemma tsTerms_register (cfg : scriptOptions) (terms : list term) :
  forall buf proc cnt,
  exists keys buf' proc' cnt', forall reg,
    fold_left (tsTermStep cfg) terms (mkScript buf proc reg cnt)
    = mkScript buf' proc' (fold_left register keys reg) cnt'.
Proof.
  induction terms as [|t terms IH]; intros buf proc cnt.
  - exists [], buf, proc, cnt. reflexivity.
  - destruct (tsTermStep_registers cfg t buf proc cnt)
      as (ks & b1 & p1 & c1 & H1).
    destruct (IH b1 p1 c1) as (ks2 & b2 & p2 & c2 & H2).
    exists (ks ++ ks2), b2, p2, c2. intros reg. simpl.
    now rewrite H1, H2, fold_left_app.
Qed.

Lemma vueScriptTermStep_registers (t : term) (buf : jsstring)
  (proc : list jsstring) (cnt : Z) :
  exists keys buf' proc' cnt', forall reg,
    vueScriptTermStep (mkScript buf proc reg cnt) t
    = mkScript buf' proc' (fold_left register keys reg) cnt'.
Proof.
  unfold vueScriptTermStep.
  cbn [modifiedContent processedTexts scriptMap scriptCount].
  destruct (includes (content t) (js "import")).
  { exists [], buf, proc, cnt. reflexivity. }
  destruct (existsb _ proc).
  { exists [], buf, proc, cnt. reflexivity. }
  set (conv := fst (convertTemplateToI18n (content t)
                      (script (i18nMethod (vue userConfig))) [])).
  destruct (type t);
    try (destruct (test no_flags hasTemplateRegex (content t));
         [ exists [replacedText conv; replacedText conv]; eexists _, _, _;
           intros reg; rewrite convert_registry; fold conv; cbn iota beta;
           reflexivity
         | exists [generateI18nKey (content t)]; eexists _, _, _;
           intros reg; reflexivity ]).
  exists [generateI18nKey (content t)]. eexists _, _, _.
  intros reg. reflexivity.
Qed.

Lemma vueScriptTerms_register (terms : list term) :
  forall buf proc cnt,
  exists keys buf' proc' cnt', forall reg,
    fold_left vueScriptTermStep terms (mkScript buf proc reg cnt)
    = mkScript buf' proc' (fold_left register keys reg) cnt'.
Proof.
  induction terms as [|t terms IH]; intros buf proc cnt.
  - exists [], buf, proc, cnt. reflexivity.
  - destruct (vueScriptTermStep_registers t buf proc cnt)
      as (ks & b1 & p1 & c1 & H1).
    destruct (IH b1 p1 c1) as (ks2 & b2 & p2 & c2 & H2).
    exists (ks ++ ks2), b2, p2, c2. intros reg. simpl.
    now rewrite H1, H2, fold_left_app.
Qed.

Lemma processScript_registers (scriptContent : jsstring) (isTsx : bool)
  (cnt : Z) :
  (forall reg, processScript scriptContent isTsx reg cnt = None)
  \/ exists keys buf proc cnt', forall reg,
       processScript scriptContent isTsx reg cnt
       = Some (mkScript buf proc (fold_left register keys reg) cnt').
Proof.
  unfold processScript. destruct (filter _ _); [now left|]. right.
  match goal with
  | |- context [fold_left vueScriptTermStep ?ts (mkScript ?b _ _ _)] =>
      destruct (vueScriptTerms_register ts b [] cnt)
        as (ks & b' & p & c0 & H)
  end.
  exists ks, b', p, c0. intros reg. now rewrite H.
Qed.

Lemma vueTemplatePart_registers (originalContent : jsstring)
  (config : runConfig) :
  exists keys text cnt, forall reg,
    vueTemplatePart originalContent config reg
    = mkFileResult text cnt (fold_left register keys reg).
Proof.
  unfold vueTemplatePart.
  destruct (exec flag_i templateBlockRegex originalContent) as [tm|];
    [destruct (processVueTemplate config)|].
  - unfold processTemplate.
    destruct (templateTerms_register
                (extractChineseTerms (removeComments (group tm 1))
                   TemplateCtx) (group tm 1) [] 0)
      as (ks & b & p & c0 & H).
    exists ks. eexists _, _. intros reg. rewrite H.
    cbn [newTemplateContent extractedCount globalI18nMap]. reflexivity.
  - exists [], originalContent, 0. reflexivity.
  - exists [], originalContent, 0. reflexivity.
Qed.

Lemma processVueFile_registers (originalContent : jsstring)
  (config : runConfig) :
  exists keys, forall reg,
    resultMap (processVueFile originalContent config reg)
    = fold_left register keys reg.
Proof.
  unfold processVueFile.
  destruct (vueTemplatePart_registers originalContent config)
    as (ks & text & cnt & Ht).
  destruct (exec flag_i scriptBlockRegex originalContent) as [sm|];
    [destruct (processVueScript config)|];
    try (exists ks; intros reg; now rewrite Ht).
  match goal with
  | |- context [processScript ?sc ?tsx _ _] =>
      destruct (processScript_registers sc tsx cnt)
        as [Hn|(ks2 & b & p & c0 & Hs)]
  end.
  - exists ks. intros reg. rewrite Ht. cbn [resultMap resultCount].
    now rewrite Hn.
  - exists (ks ++ ks2). intros reg. rewrite Ht. cbn [resultMap resultCount].
    rewrite Hs. cbn [resultMap scriptMap]. now rewrite fold_left_app.
Qed.

(** Every file only registers keys, each with itself as its text. *)
Lemma registryAfter_registers (config : runConfig) (f : sourceFile) :
  exists keys, forall reg,
    registryAfter config f reg = fold_left register keys reg.
Proof.
  unfold registryAfter, processFile.
  destruct (str_eqb (fileExt f) (js ".vue")).
  - destruct (processVueFile_registers (fileContent f) config) as (ks & H).
    exists ks. intros reg. now rewrite H.
  - destruct (str_eqb (fileExt f) (js ".ts")); [|now exists []].
    destruct (processTs config); cbn [negb]; [|now exists []].
    unfold processTsFile.
    destruct (filter _ _).
    + exists []. reflexivity.
    + match goal with
      | |- context [fold_left (tsTermStep ?cfg) ?ts (mkScript ?b _ _ _)] =>
          destruct (tsTerms_register cfg ts b [] 0) as (ks & b' & p & c0 & H)
      end.
      exists ks. intros reg. now rewrite H.
Qed.

(** *** C9: the key registry *)

(** C9. Registering a pair that is already present with the same value
    leaves the registry as it is, property order included; registering
    the same pair a second time, from whichever file, changes nothing
    more; and for any two files, the registries left by the two orders
    of processing hold the same text under every key. *)
Theorem registry_idempotent_commutative :
  (forall reg k v, Obj.get reg k = Some v -> Obj.set reg k v = reg)
  /\ (forall reg k v, Obj.set (Obj.set reg k v) k v = Obj.set reg k v)
  /\ (forall config fileA fileB reg k,
        Obj.get (registryAfter config fileB (registryAfter config fileA reg)) k
        = Obj.get (registryAfter config fileA (registryAfter config fileB reg))
            k).
Proof.
  split; [exact ObjFacts.set_same|]. split; [exact ObjFacts.set_set|].
  intros config fileA fileB reg k.
  destruct (registryAfter_registers config fileA) as (ka & Ha).
  destruct (registryAfter_registers config fileB) as (kb & Hb).
  rewrite !Ha, !Hb, !ObjFacts.get_register_all.
  destruct (registered ka k), (registered kb k); reflexivity.
Qed.

Lemma registry_idempotent_commutative_witness :
  Obj.set [(js "保存", js "保存")] (js "保存") (js "保存")
  = [(js "保存", js "保存")].
Proof.
  apply (proj1 registry_idempotent_commutative). reflexivity.
Defined.

(** *** The extractor only keeps what passed its filters *)

Lemma search_cls (fl : flags) (neg : bool) (rs : list (N * N))
  (pre suf : jsstring) (m : jsmatch) :
  search fl (Cls neg rs) pre suf = Some m ->
  exists x, In x suf /\ cls_mem fl neg rs x = true.
Proof.
  revert pre. induction suf as [|x t IH]; intros pre; simpl.
  - unfold match_here. simpl. discriminate.
  - unfold match_here. simpl.
    destruct (cls_mem fl neg rs x) eqn:E.
    + intros _. exists x. split; [now left|assumption].
    + intros H. apply IH in H as (y & Hy & Hc).
      exists y. split; [now right|assumption].
Qed.

Lemma test_cjk (s : jsstring) : test no_flags cjk s = true -> has_cjk s.
Proof.
  unfold test, exec, cjk.
  destruct (search _ _ _ _) as [m|] eqn:E; [|discriminate].
  intros _. apply search_cls in E as (x & Hx & Hc).
  exists x. split; [assumption|].
  unfold cls_mem, in_ranges, in_range in Hc. simpl in Hc.
  rewrite !orb_false_r in Hc.
  apply andb_true_iff in Hc as [H1 H2].
  apply N.leb_le in H1, H2. lia.
Qed.

Lemma dropWhile_fixed (f : N -> bool) (s : jsstring) :
  dropWhile f (dropWhile f s) = dropWhile f s.
Proof.
  induction s as [|x s IH]; simpl; [reflexivity|].
  destruct (f x) eqn:E; [assumption|]. simpl. now rewrite E.
Qed.

Lemma dropWhile_suffix (f : N -> bool) (s : jsstring) :
  exists p, s = p ++ dropWhile f s.
Proof.
  induction s as [|x s [p IH]]; simpl.
  - now exists [].
  - destruct (f x).
    + exists (x :: p). simpl. now f_equal.
    + now exists [].
Qed.

Lemma dropWhile_head (f : N -> bool) (s : jsstring) (x : N) (t : jsstring) :
  dropWhile f s = x :: t -> f x = false.
Proof.
  induction s as [|y s IH]; simpl; [discriminate|].
  destruct (f y) eqn:E; [assumption|]. now intros [= <- _].
Qed.

Lemma dropWhile_keep (f : N -> bool) (s : jsstring) :
  match s with [] => True | x :: _ => f x = false end -> dropWhile f s = s.
Proof. destruct s; simpl; [reflexivity|]. now intros ->. Qed.

Lemma trim_trim (s : jsstring) : trim (trim s) = trim s.
Proof.
  unfold trim.
  set (a := dropWhile is_ws s).
  set (b := dropWhile is_ws (rev a)).
  assert (Hb : dropWhile is_ws b = b) by apply dropWhile_fixed.
  assert (Hr : dropWhile is_ws (rev b) = rev b).
  { apply dropWhile_keep.
    destruct (rev b) as [|y r] eqn:Er; [exact I|].
    destruct (dropWhile_suffix is_ws (rev a)) as [p Hp]. fold b in Hp.
    apply (f_equal (@rev N)) in Hp. rewrite rev_involutive, rev_app_distr in Hp.
    rewrite Er in Hp. simpl in Hp.
    unfold a in Hp. now apply dropWhile_head in Hp. }
  now rewrite Hr, rev_involutive, Hb.
Qed.

Lemma truthy_nonempty (s : jsstring) : truthy s = true -> s <> [].
Proof. now destruct s. Qed.

Lemma fold_left_kept (A : Type) (f : list term -> A -> list term)
  (ms : list A) :
  (forall terms m, Forall kept terms -> Forall kept (f terms m)) ->
  forall terms, Forall kept terms -> Forall kept (fold_left f ms terms).
Proof.
  intros Hf. induction ms as [|m ms IH]; intros terms Ht; simpl; auto.
Qed.

Ltac split_guard H :=
  repeat match type of H with
         | (_ && _) = true =>
             let H' := fresh "G" in apply andb_true_iff in H as [H H']
         end;
  repeat match goal with
         | G : negb _ = true |- _ => apply negb_true_iff in G
         end.

Ltac keeps :=
  intros terms m Hterms;
  repeat match goal with
         | |- Forall kept (if ?b then _ else _) =>
             let E := fresh "E" in destruct b eqn:E; [|try assumption]
         end;
  try assumption;
  apply Forall_app; split; [assumption|];
  constructor; [|constructor];
  match goal with
  | E : (_ && _) = true |- _ => split_guard E
  end;
  unfold kept; simpl;
  repeat split; try assumption; try apply trim_trim; try discriminate;
  try (intros _; assumption);
  try (let H := fresh in intros H; exfalso; apply H; reflexivity).

Lemma doubleQuoteStep_kept (text : jsstring) (ctx : context) :
  forall terms m, Forall kept terms ->
                  Forall kept (doubleQuoteStep text ctx terms m).
Proof. unfold doubleQuoteStep. keeps. Qed.

Lemma i18nFieldStep_kept (text : jsstring) (ctx : context) :
  forall terms m, Forall kept terms ->
                  Forall kept (i18nFieldStep text ctx terms m).
Proof. unfold i18nFieldStep. keeps. Qed.

Lemma singleQuoteStep_kept (text : jsstring) (ctx : context) :
  forall terms m, Forall kept terms ->
                  Forall kept (singleQuoteStep text ctx terms m).
Proof. unfold singleQuoteStep. keeps. Qed.

Lemma templateStep_kept (text : jsstring) (ctx : context) :
  forall terms m, Forall kept terms ->
                  Forall kept (templateStep text ctx terms m).
Proof. unfold templateStep. keeps. Qed.

Lemma tagContentStep_kept (text : jsstring) :
  forall terms m, Forall kept terms ->
                  Forall kept (tagContentStep text terms m).
Proof. unfold tagContentStep. keeps. Qed.

Lemma buttonTextStep_kept (text : jsstring) :
  forall terms m, Forall kept terms ->
                  Forall kept (buttonTextStep text terms m).
Proof. unfold buttonTextStep. keeps. Qed.

Lemma extract_kept (text : jsstring) (ctx : context) :
  Forall kept (extractChineseTerms text ctx).
Proof.
  unfold extractChineseTerms.
  assert (H4 : Forall kept
                 (fold_left (templateStep text ctx)
                    (matchAll no_flags templateRegex text)
                    (fold_left (singleQuoteStep text ctx)
                       (matchAll no_flags singleQuoteRegex text)
                       (fold_left (i18nFieldStep text ctx)
                          (matchAll no_flags i18nFieldRegex text)
                          (fold_left (doubleQuoteStep text ctx)
                             (matchAll no_flags doubleQuoteRegex text) []))))).
  { apply fold_left_kept; [apply templateStep_kept|].
    apply fold_left_kept; [apply singleQuoteStep_kept|].
    apply fold_left_kept; [apply i18nFieldStep_kept|].
    apply fold_left_kept; [apply doubleQuoteStep_kept|].
    constructor. }
  destruct ctx; [|exact H4].
  apply fold_left_kept; [apply buttonTextStep_kept|].
  apply fold_left_kept; [apply tagContentStep_kept|].
  exact H4.
Qed.

Lemma extract_In_kept (text : jsstring) (ctx : context) (t : term) :
  In t (extractChineseTerms text ctx) -> kept t.
Proof.
  intros H. pose proof (extract_kept text ctx) as HF.
  rewrite Forall_forall in HF. now apply HF.
Qed.

(** *** C8: every candidate term holds target-script text *)

(** C8. For every buffer and both contexts, the content of every term the
    extractor returns is non-empty, is its own trimmed form, and holds at
    least one character of U+4E00..U+9FA5. *)
Theorem extracted_content_has_cjk (text : jsstring) (ctx : context)
  (t : term) :
  In t (extractChineseTerms text ctx) ->
  content t <> [] /\ trim (content t) = content t /\ has_cjk (content t).
Proof.
  intros H. apply extract_In_kept in H as (Ht & Hc & Htrim & _).
  split; [now apply truthy_nonempty|]. split; [assumption|].
  now apply test_cjk.
Qed.

Lemma extracted_content_has_cjk_witness :
  let text := js "<el-button>查询</el-button>" in
  let t := mkTerm (js ">查询<") (js "查询") TagContent [] [] in
  In t (extractChineseTerms text TemplateCtx)
  /\ content t <> [] /\ trim (content t) = content t /\ has_cjk (content t).
Proof.
  intros text t.
  assert (H : In t (extractChineseTerms text TemplateCtx))
    by (vm_compute; left; reflexivity).
  split; [exact H|].
  exact (extracted_content_has_cjk text TemplateCtx t H).
Defined.

(** *** C7: paths and code are not candidate terms *)

(** C7, as the code has it.  No term the extractor returns has a content
    that [isFilePath] accepts; no term from the double-quote,
    single-quote, field, tag-body or element-body scanner has a content
    that [isCodeLike] accepts (the backtick scanner does not ask
    [isCodeLike]); and the two literals of the specification are never
    the content of a term. *)
Theorem extracted_terms_not_path_or_code (text : jsstring) (ctx : context)
  (t : term) :
  In t (extractChineseTerms text ctx) ->
  isFilePath (content t) = false
  /\ (type t <> Template -> isCodeLike (content t) = false)
  /\ content t <> js "./assets/logo.png"
  /\ content t <> js "console.log(x)".
Proof.
  intros H. apply extract_In_kept in H as (_ & Hc & _ & Hp & Hcode).
  repeat split; try assumption.
  - intros E. rewrite E in Hp. vm_compute in Hp. discriminate.
  - intros E. rewrite E in Hc. vm_compute in Hc. discriminate.
Qed.

Lemma extracted_terms_not_path_or_code_witness :
  let text := js "const a = '保存'; const b = './assets/图.png';" in
  let t := mkTerm (js "'保存'") (js "保存") SingleQuote [] [] in
  In t (extractChineseTerms text ScriptCtx)
  /\ isFilePath (content t) = false
  /\ (type t <> Template -> isCodeLike (content t) = false)
  /\ content t <> js "./assets/logo.png"
  /\ content t <> js "console.log(x)".
Proof.
  intros text t.
  assert (H : In t (extractChineseTerms text ScriptCtx))
    by (vm_compute; left; reflexivity).
  split; [exact H|].
  exact (extracted_terms_not_path_or_code text ScriptCtx t H).
Defined.

(** A backtick literal whose content is code is returned as a term. *)
Lemma template_literal_with_code_is_extracted :
  let text := js "const s = `console.log(中)`;" in
  let t := mkTerm (js "`console.log(中)`") (js "console.log(中)") Template
             [] [] in
  extractChineseTerms text ScriptCtx = [t]
  /\ isCodeLike (content t) = true.
Proof. split; vm_compute; reflexivity. Qed.

(** *** What a match consumes *)

Section Passes.
Variable P : N -> bool.

Lemma passes_refl (st : mstate) : passes P st st.
Proof. exists []. repeat split. Qed.

Lemma passes_trans (a b d : mstate) :
  passes P a b -> passes P b d -> passes P a d.
Proof.
  intros (u & Hu1 & Hu2 & Hu3) (v & Hv1 & Hv2 & Hv3).
  exists (u ++ v). repeat split.
  - now rewrite Hu1, Hv1, app_assoc.
  - now rewrite Hv2, Hu2, rev_app_distr, app_assoc.
  - rewrite forallb_app. now rewrite Hu3, Hv3.
Qed.

Lemma passes_step (st : mstate) (x : N) (t : jsstring) :
  after st = x :: t -> P x = true -> passes P st (step st x t).
Proof.
  intros Ha Hx. exists [x]. simpl. repeat split; [assumption|].
  now rewrite Hx.
Qed.

Lemma passes_set_cap (st st' : mstate) (n : nat) (v : jsstring) :
  passes P st st' -> passes P st (set_cap n v st').
Proof. intros (u & H1 & H2 & H3). now exists u. Qed.

Lemma star_loop_passes
  (ma : (mstate -> option mstate) -> mstate -> option mstate) (g : bool)
  (k : mstate -> option mstate) :
  (forall k' st e, ma k' st = Some e ->
                   exists st', passes P st st' /\ k' st' = Some e) ->
  forall n st e, star_loop ma g k n st = Some e ->
                 exists st', passes P st st' /\ k st' = Some e.
Proof.
  intros Hma. induction n as [|n IH]; intros st e H; simpl in H.
  - exists st. split; [apply passes_refl|assumption].
  - assert (Hagain : forall e0,
               ma (fun st' =>
                     if (length (after st') <? length (after st))%nat
                     then star_loop ma g k n st' else None) st = Some e0 ->
               exists st', passes P st st' /\ k st' = Some e0).
    { intros e0 E. apply Hma in E as (st1 & Hp1 & E).
      destruct (_ <? _)%nat; [|discriminate].
      apply IH in E as (st2 & Hp2 & E).
      exists st2. split; [eapply passes_trans; eauto|assumption]. }
    destruct g.
    + destruct (ma _ st) as [e0|] eqn:E.
      * injection H as <-. now apply Hagain.
      * exists st. split; [apply passes_refl|assumption].
    + destruct (k st) as [e0|] eqn:E.
      * injection H as <-. exists st. split; [apply passes_refl|assumption].
      * now apply Hagain.
Qed.

Lemma rmatch_passes (fl : flags) (r : regex) :
  accepts_only fl P r ->
  forall k st e, rmatch fl r k st = Some e ->
                 exists st', passes P st st' /\ k st' = Some e.
Proof.
  induction r as [|c0|neg rs|a IHa b IHb|a IHa b IHb|g a IHa|n a IHa| | |];
    simpl; intros Hok k st e H.
  - exists st. split; [apply passes_refl|assumption].
  - destruct (after st) as [|x t] eqn:Ea; [discriminate|].
    destruct (chr_eq fl c0 x) eqn:Ec; [|discriminate].
    exists (step st x t). split; [|assumption].
    apply passes_step; auto.
  - destruct (after st) as [|x t] eqn:Ea; [discriminate|].
    destruct (cls_mem fl neg rs x) eqn:Ec; [|discriminate].
    exists (step st x t). split; [|assumption].
    apply passes_step; auto.
  - destruct Hok as [Ha Hb].
    apply (IHa Ha) in H as (st1 & Hp1 & H).
    apply (IHb Hb) in H as (st2 & Hp2 & H).
    exists st2. split; [eapply passes_trans; eauto|assumption].
  - destruct Hok as [Ha Hb].
    destruct (rmatch fl a k st) as [e0|] eqn:E.
    + injection H as <-. now apply (IHa Ha) in E.
    + now apply (IHb Hb) in H.
  - exact (star_loop_passes (rmatch fl a) g k (IHa Hok)
             (S (length (after st))) st e H).
  - apply (IHa Hok) in H as (st1 & Hp1 & H).
    exists (set_cap n (consumed st st1) st1). split; [|assumption].
    now apply passes_set_cap.
  - destruct (at_bol fl st); [|discriminate].
    exists st. split; [apply passes_refl|assumption].
  - destruct (at_eol fl st); [|discriminate].
    exists st. split; [apply passes_refl|assumption].
  - destruct (at_wordb st); [|discriminate].
    exists st. split; [apply passes_refl|assumption].
Qed.


End Passes.

(** *** The counter of the quantifier loop *)

Lemma star_loop_ext
  (ma : (mstate -> option mstate) -> mstate -> option mstate) (g : bool)
  (k1 k2 : mstate -> option mstate) :
  (forall j1 j2, (forall st, j1 st = j2 st) -> forall st, ma j1 st = ma j2 st) ->
  (forall st, k1 st = k2 st) ->
  forall n st, star_loop ma g k1 n st = star_loop ma g k2 n st.
Proof.
  intros Hma Hk. induction n as [|n IH]; intros st; cbn [star_loop].
  - apply Hk.
  - rewrite (Hma _ (fun st' =>
                      if (length (after st') <? length (after st))%nat
                      then star_loop ma g k2 n st' else None)).
    + now rewrite Hk.
    + intros st'. destruct (_ <? _)%nat; [apply IH|reflexivity].
Qed.

(** The matcher depends on its continuation only through its values. *)
Lemma rmatch_ext (fl : flags) (r : regex) :
  forall k1 k2, (forall st, k1 st = k2 st) ->
                forall st, rmatch fl r k1 st = rmatch fl r k2 st.
Proof.
  induction r as [|c0|neg rs|a IHa b IHb|a IHa b IHb|g a IHa|n a IHa| | |];
    intros k1 k2 Hk st; cbn [rmatch].
  - apply Hk.
  - destruct (after st); [reflexivity|]. now rewrite Hk.
  - destruct (after st); [reflexivity|]. now rewrite Hk.
  - apply IHa. intros st'. now apply IHb.
  - rewrite (IHa k1 k2 Hk), (IHb k1 k2 Hk). reflexivity.
  - apply star_loop_ext; assumption.
  - apply IHa. intros st'. apply Hk.
  - now rewrite Hk.
  - now rewrite Hk.
  - now rewrite Hk.
Qed.

(** A counter above the length of the text ahead is never exhausted:
    a larger one gives the same result. *)
Lemma star_loop_counter (fl : flags) (a : regex) (g : bool)
  (k : mstate -> option mstate) :
  forall n st,
    (length (after st) < n)%nat ->
    star_loop (rmatch fl a) g k n st = star_loop (rmatch fl a) g k (S n) st.
Proof.
  induction n as [|n IH]; intros st Hn; [inversion Hn|].
  cbn [star_loop].
  rewrite (rmatch_ext fl a _
             (fun st' =>
                if (length (after st') <? length (after st))%nat
                then star_loop (rmatch fl a) g k (S n) st' else None)).
  - reflexivity.
  - intros st'. destruct (_ <? _)%nat eqn:E; [|reflexivity].
    apply Nat.ltb_lt in E. apply IH. lia.
Qed.

(** *** The normalizer *)

Lemma subsequence_trans (a b d : jsstring) :
  subsequence a b -> subsequence b d -> subsequence a d.
Proof.
  intros Hab Hbd. revert a Hab.
  induction Hbd as [|x b d Hbd IH|x b d Hbd IH]; intros a0 Hab.
  - assumption.
  - inversion Hab; subst.
    + constructor. now apply IH.
    + apply sub_drop. now apply IH.
  - apply sub_drop. now apply IH.
Qed.


(** Deleting the matches of any pattern leaves a subsequence. *)
Lemma replace_scan_subsequence (fl : flags) (r : regex) :
  forall suf pre skip, subsequence (replace_scan fl r [] pre suf skip) suf.
Proof.
  induction suf as [|x t IH]; intros pre skip; destruct skip; simpl.
  - destruct (match_here fl r pre []); constructor.
  - constructor.
  - destruct (match_here fl r pre (x :: t)) as [m|]; simpl.
    + destruct (length (m_text m)); [apply sub_keep|apply sub_drop]; apply IH.
    + apply sub_keep, IH.
  - apply sub_drop, IH.
Qed.

Lemma replaceAll_subsequence (fl : flags) (r : regex) (s : jsstring) :
  subsequence (replaceAll fl r [] s) s.
Proof. apply replace_scan_subsequence. Qed.








(** *** C6: the normalizer *)


(** *** C3: the converter on the example of the specification *)

(** C3. Converting [共${count}条记录] gives the key [共{a}条记录], a call
    whose second argument maps [a] to [count], and, from an empty
    registry, the registry that holds exactly that key with itself as its
    text; the same holds when the literal is met in a script file or in
    the markup of a component; from any registry, the key is bound to
    itself afterwards. *)
Theorem convert_count_example :
  convertTemplateToI18n Examples.countTemplate (js "$t") []
  = (mkConversion Examples.countKey (js "$t('共{a}条记录', {a: count})")
       Examples.countKey [(js "a", js "count")],
     [(Examples.countKey, Examples.countKey)])
  /\ (let st := processTsFile (js "const s = `共${count}条记录`;") (js ".ts") []
      in
      modifiedContent st
      = js "import { i18n } from '@mgec/template/i18n/index.ts';" ++ nl
          ++ js "const s = i18n.global.t('共{a}条记录', {a: count});"
      /\ scriptMap st = [(Examples.countKey, Examples.countKey)])
  /\ (let st := processTemplate (js "<p>{{ `共${count}条记录` }}</p>") [] in
      newTemplateContent st = js "<p>{{ $t('共{a}条记录', {a: count}) }}</p>"
      /\ globalI18nMap st = [(Examples.countKey, Examples.countKey)])
  /\ (forall reg,
        Obj.get (snd (convertTemplateToI18n Examples.countTemplate (js "$t")
                        reg)) Examples.countKey
        = Some Examples.countKey).
Proof.
  repeat split; try (vm_compute; reflexivity).
  intros reg. rewrite convert_registry. cbn [snd]. unfold register.
  rewrite ObjFacts.get_set.
  replace (replacedText
             (fst (convertTemplateToI18n Examples.countTemplate (js "$t") [])))
    with Examples.countKey by (vm_compute; reflexivity).
  rewrite str_eqb_refl. reflexivity.
Qed.

(** *** C2: a plain attribute becomes a bound attribute *)

(** C2. The rewrite turns [<el-input placeholder="请输入">] into
    [<el-input :placeholder="$t('请输入')">] and registers the text, also
    when the element is the markup of a component file;
    [checkIfInAttribute] classifies the literal as a plain attribute that
    needs binding; and whenever the plain-attribute pattern matches, its
    answer is given without the bound-attribute pattern being asked. *)
Theorem plain_attribute_is_bound :
  processTemplate Examples.plainAttribute []
  = mkRewrite Examples.boundCall [dq ++ js "请输入" ++ dq]
      [(js "请输入", js "请输入")] 1
  /\ processVueFile Examples.page Examples.allOn []
     = mkFileResult Examples.pageOut 1 [(js "请输入", js "请输入")]
  /\ checkIfInAttribute Examples.plainAttribute (dq ++ js "请输入" ++ dq)
     = mkAttrCheck true true (js "placeholder")
  /\ (forall templateContent original basicMatch,
        exec no_flags (basicAttrRegex original) templateContent
        = Some basicMatch ->
        checkIfInAttribute templateContent original
        = mkAttrCheck true true (group basicMatch 1)).
Proof.
  split; [vm_compute; reflexivity|]. split; [vm_compute; reflexivity|].
  split; [vm_compute; reflexivity|].
  intros templateContent original basicMatch H.
  unfold checkIfInAttribute. now rewrite H.
Qed.

Lemma plain_attribute_is_bound_witness :
  checkIfInAttribute Examples.plainAttribute (dq ++ js "请输入" ++ dq)
  = mkAttrCheck true true
      (group (mkMatch 10 (js "placeholder=" ++ dq ++ js "请输入" ++ dq)
                [(1%nat, js "placeholder")]) 1).
Proof.
  apply (proj2 (proj2 (proj2 plain_attribute_is_bound))).
  vm_compute. reflexivity.
Defined.

(** *** C4, C5, C1: what the code does where the specification differs *)

(** Both occurrences of the marker [${x}] become [{a}]; the letter [b] is
    used up in the mapping and appears nowhere in the key. *)
Lemma repeated_marker_shares_placeholder :
  fst (convertTemplateToI18n Examples.twiceSame (js "$t") [])
  = mkConversion (js "{a}和{a}") (js "$t('{a}和{a}', {a: x, b: x})")
      (js "{a}和{a}") [(js "a", js "x"); (js "b", js "x")].
Proof. vm_compute. reflexivity. Qed.

(** C5.  With 27 markers the converter returns as usual: the name of
    the 27th placeholder is the code unit after [z], an opening brace,
    where the source announces the letters [a, b, c...], and the call
    it writes ends in [{: v26}]. *)
Lemma marker_27_gets_brace :
  key (fst (convertTemplateToI18n Examples.markers27 (js "$t") []))
  = js "{a}{b}{c}{d}{e}{f}{g}{h}{i}{j}{k}{l}{m}{n}{o}{p}{q}{r}{s}{t}{u}{v}{w}{x}{y}{z}{{}"
  /\ nth 26 (mapping (fst (convertTemplateToI18n Examples.markers27 (js "$t")
                             [])))
       ([], [])
     = (js "{", js "v26")
  /\ converted (fst (convertTemplateToI18n Examples.markers27 (js "$t") []))
     = js "$t('{a}{b}{c}{d}{e}{f}{g}{h}{i}{j}{k}{l}{m}{n}{o}{p}{q}{r}{s}{t}{u}{v}{w}{x}{y}{z}{{}', {a: v0, b: v1, c: v2, d: v3, e: v4, f: v5, g: v6, h: v7, i: v8, j: v9, k: v10, l: v11, m: v12, n: v13, o: v14, p: v15, q: v16, r: v17, s: v18, t: v19, u: v20, v: v21, w: v22, x: v23, y: v24, z: v25, {: v26})".
Proof. repeat split; vm_compute; reflexivity. Qed.


(** *** The converter on templates given by their parts *)

(** *** Literal patterns *)

Lemma chr_eq_plain (a x : N) : chr_eq no_flags a x = (a =? x)%N.
Proof. unfold chr_eq. simpl. apply orb_false_r. Qed.

Lemma rmatch_lit (p : jsstring) :
  forall k st,
    rmatch no_flags (lit p) k st
    = if prefixb p (after st)
      then k (mkState (rev p ++ before st) (skipn (length p) (after st))
                (caps st))
      else None.
Proof.
  induction p as [|x p IH]; intros k [b a cs]; simpl.
  - reflexivity.
  - destruct a as [|y t]; [reflexivity|].
    rewrite chr_eq_plain. destruct (x =? y)%N eqn:E; simpl; [|reflexivity].
    apply N.eqb_eq in E. subst y. rewrite IH. simpl.
    now rewrite <- app_assoc.
Qed.

Lemma match_here_lit (p pre suf : jsstring) :
  match_here no_flags (lit p) pre suf
  = if prefixb p suf then Some (mkMatch (length pre) p []) else None.
Proof.
  unfold match_here. rewrite rmatch_lit. simpl.
  destruct (prefixb p suf) eqn:E; [|reflexivity].
  apply prefixb_true in E.
  set (rest := skipn (length p) suf) in *. clearbody rest. subst suf.
  rewrite length_app, Nat.add_sub, firstn_app, Nat.sub_diag, firstn_all.
  simpl. now rewrite app_nil_r.
Qed.

Lemma lit_then_app (a b : jsstring) (r : regex) :
  lit_then (a ++ b) r = lit_then a (lit_then b r).
Proof. induction a; simpl; congruence. Qed.

Lemma lit_then_Eps (s : jsstring) : lit_then s Eps = lit s.
Proof. induction s; simpl; congruence. Qed.

(** *** [escapeRegExp] and the pattern built from its result *)

Lemma replace_scan_cons (fl : flags) (r : regex) (repl pre : jsstring) (x : N)
  (t : jsstring) :
  replace_scan fl r repl pre (x :: t) 0
  = match match_here fl r pre (x :: t) with
    | Some m =>
        expand (max_group r) m (rev pre) (skipn (length (m_text m)) (x :: t))
          repl
        ++ match length (m_text m) with
           | O => x :: replace_scan fl r repl (x :: pre) t 0
           | S n => replace_scan fl r repl (x :: pre) t n
           end
    | None => x :: replace_scan fl r repl (x :: pre) t 0
    end.
Proof. reflexivity. Qed.

Lemma replace_scan_nil (fl : flags) (r : regex) (repl pre : jsstring) :
  replace_scan fl r repl pre [] 0
  = match match_here fl r pre [] with
    | Some m => expand (max_group r) m (rev pre) (skipn (length (m_text m)) [])
                  repl ++ []
    | None => []
    end.
Proof. reflexivity. Qed.


Lemma match_here_cls (fl : flags) (neg : bool) (rs : list (N * N))
  (pre : jsstring) (x : N) (t : jsstring) :
  match_here fl (Cls neg rs) pre (x :: t)
  = if cls_mem fl neg rs x then Some (mkMatch (length pre) [x] []) else None.
Proof.
  unfold match_here. cbn [rmatch after].
  destruct (cls_mem fl neg rs x); [|reflexivity].
  cbn [step after caps length]. 
  replace (S (length t) - length t)%nat with 1%nat by lia. reflexivity.
Qed.

Lemma cls_mem_plain (rs : list (N * N)) (x : N) :
  cls_mem no_flags false rs x = in_ranges rs x.
Proof. unfold cls_mem. simpl. now rewrite orb_false_r. Qed.

Lemma expand_escape (n : nat) (m : jsmatch) (pre post : jsstring) :
  expand n m pre post (js "\$&") = ch "\" :: m_text m.
Proof. simpl. now rewrite app_nil_r. Qed.

Lemma escapeRegExp_units (s : jsstring) :
  escapeRegExp s = flat_map escapeUnit s.
Proof.
  unfold escapeRegExp, replaceAll. generalize (@nil N) as pre.
  induction s as [|x t IH]; intros pre; [reflexivity|].
  rewrite replace_scan_cons, match_here_cls, cls_mem_plain.
  cbn [flat_map]. unfold escapeUnit at 1.
  destruct (in_ranges syntaxCharRanges x).
  - rewrite expand_escape. cbn [m_text length app]. now rewrite IH.
  - cbn [app]. now rewrite IH.
Qed.

Lemma parse_escaped_units (s rest : jsstring) :
  parse_escaped (flat_map escapeUnit s ++ rest)
  = option_map (lit_then s) (parse_escaped rest).
Proof.
  induction s as [|x t IH]; simpl.
  - now destruct (parse_escaped rest).
  - unfold escapeUnit at 1.
    destruct (in_ranges syntaxCharRanges x) eqn:E.
    + cbn [app parse_escaped]. rewrite N.eqb_refl, E, IH.
      now destruct (parse_escaped rest).
    + cbn [app parse_escaped]. rewrite E.
      destruct (x =? ch "\")%N eqn:Ex.
      * apply N.eqb_eq in Ex. subst x. discriminate.
      * rewrite IH. now destruct (parse_escaped rest).
Qed.

(** The pattern [new RegExp(escapeRegExp(s))] matches the text [s] and
    nothing else. *)
Lemma RegExp_escapeRegExp (s : jsstring) : RegExp (escapeRegExp s) = lit s.
Proof.
  unfold RegExp. rewrite escapeRegExp_units.
  rewrite <- (app_nil_r (flat_map escapeUnit s)), parse_escaped_units.
  simpl. now rewrite lit_then_Eps.
Qed.

(** The pattern of [convertStep] matches the marker of [variable]. *)
Lemma RegExp_marker (variable : jsstring) :
  RegExp (js "\$\{" ++ escapeRegExp variable ++ js "\}") = lit (marker variable).
Proof.
  unfold RegExp. rewrite escapeRegExp_units.
  change (js "\$\{") with (flat_map escapeUnit (js "${")).
  rewrite !parse_escaped_units.
  change (parse_escaped (js "\}")) with (Some (lit (js "}"))).
  cbn [option_map]. unfold marker.
  rewrite <- !lit_then_Eps, !lit_then_app. reflexivity.
Qed.

(** *** Scanning a rendered template *)

Lemma marker_unfold (e : jsstring) :
  marker e = 36%N :: 123%N :: e ++ [125%N].
Proof. reflexivity. Qed.

Lemma no_dollar_app (a b : jsstring) :
  no_dollar (a ++ b) = no_dollar a && no_dollar b.
Proof. apply forallb_app. Qed.

Lemma expression_ok_parts (e : jsstring) :
  expression_ok e = true ->
  e <> [] /\ no_dollar e = true
  /\ forallb (fun x => negb (x =? 125)%N) e = true.
Proof.
  unfold expression_ok. intros H. apply andb_true_iff in H as [Ht H].
  split; [now apply truthy_nonempty|].
  induction e as [|x e IH]; simpl in *; [auto|].
  apply andb_true_iff in H as [Hx H].
  apply andb_true_iff in Hx as [Hd Hb].
  destruct e as [|y e]; simpl in *.
  - now rewrite Hd, Hb.
  - destruct (IH eq_refl H) as [H1 H2].
    change (ch "$") with 36%N in *. change (ch "}") with 125%N in *.
    now rewrite Hd, Hb, H1, H2.
Qed.

Lemma expand_plain (n : nat) (m : jsmatch) (pre post repl : jsstring) :
  no_dollar repl = true -> expand n m pre post repl = repl.
Proof.
  induction repl as [|x t IH]; simpl; intros H; [reflexivity|].
  apply andb_true_iff in H as [Hx Ht].
  change (ch "$") with 36%N in Hx. rewrite Hx. f_equal. now apply IH.
Qed.

Lemma replace_scan_plain (p repl u : jsstring) :
  no_dollar u = true ->
  forall pre rest,
    replace_scan no_flags (lit (36%N :: p)) repl pre (u ++ rest) 0
    = u ++ replace_scan no_flags (lit (36%N :: p)) repl (rev u ++ pre) rest 0.
Proof.
  induction u as [|x u IH]; intros Hu pre rest; [reflexivity|].
  simpl in Hu. apply andb_true_iff in Hu as [Hx Hu].
  change (ch "$") with 36%N in Hx. apply negb_true_iff in Hx.
  change ((x :: u) ++ rest) with (x :: u ++ rest).
  rewrite replace_scan_cons, match_here_lit.
  cbn [prefixb]. rewrite N.eqb_sym, Hx. cbn [andb].
  rewrite IH by assumption. simpl. now rewrite <- app_assoc.
Qed.

Lemma replace_scan_pass (fl : flags) (r : regex) (repl u : jsstring) :
  forall pre rest,
    replace_scan fl r repl pre (u ++ rest) (length u)
    = replace_scan fl r repl (rev u ++ pre) rest 0.
Proof.
  induction u as [|x u IH]; intros pre rest; [reflexivity|].
  simpl. rewrite IH. now rewrite <- app_assoc.
Qed.

Lemma str_eqb_cons (x y : N) (a b : jsstring) :
  str_eqb (x :: a) (y :: b) = (x =? y)%N && str_eqb a b.
Proof.
  destruct (N.eqb_spec x y) as [->|Hxy]; simpl.
  - destruct (str_eqb a b) eqn:E.
    + apply str_eqb_eq in E. subst. apply str_eqb_refl.
    + apply str_eqb_neq in E. apply str_eqb_neq. congruence.
  - apply str_eqb_neq. congruence.
Qed.

Lemma prefixb_until_brace (e e' rest : jsstring) :
  forallb (fun x => negb (x =? 125)%N) e = true ->
  forallb (fun x => negb (x =? 125)%N) e' = true ->
  prefixb (e ++ [125%N]) (e' ++ 125%N :: rest) = str_eqb e e'.
Proof.
  revert e'. induction e as [|x e IH]; intros [|y e'] He He';
    cbn [app prefixb forallb] in *.
  - now rewrite N.eqb_refl.
  - apply andb_true_iff in He' as [Hy _]. apply negb_true_iff in Hy.
    rewrite N.eqb_sym, Hy. symmetry. now apply str_eqb_neq.
  - apply andb_true_iff in He as [Hx _]. apply negb_true_iff in Hx.
    rewrite Hx. symmetry. now apply str_eqb_neq.
  - apply andb_true_iff in He as [_ He].
    apply andb_true_iff in He' as [_ He'].
    now rewrite IH, str_eqb_cons.
Qed.

Lemma prefixb_marker (e e' rest : jsstring) :
  expression_ok e = true -> expression_ok e' = true ->
  prefixb (marker e) (marker e' ++ rest) = str_eqb e e'.
Proof.
  intros He He'. apply expression_ok_parts in He as (_ & _ & He).
  apply expression_ok_parts in He' as (_ & _ & He').
  rewrite !marker_unfold. cbn [prefixb app]. rewrite !N.eqb_refl.
  cbn [andb]. rewrite <- app_assoc. now apply prefixb_until_brace.
Qed.

(** Replacing the marker of [e] in a text whose pieces are either
    markers or free of the dollar sign. *)
Lemma replace_marker_render (e repl : jsstring) (f g : jsstring -> jsstring) :
  expression_ok e = true -> no_dollar repl = true ->
  forall pieces pre,
    forallb (fun p => expression_ok (fst p) && no_dollar (snd p)) pieces = true ->
    (forall e', In e' (map fst pieces) ->
                (f e' = marker e'
                 /\ g e' = if str_eqb e e' then repl else marker e')
                \/ (no_dollar (f e') = true /\ g e' = f e')) ->
    replace_scan no_flags (lit (marker e)) repl pre (render f pieces) 0
    = render g pieces.
Proof.
  intros He Hrepl. induction pieces as [|[e' text] rest IH];
    intros pre Hok Hf.
  - cbn [render]. rewrite replace_scan_nil, marker_unfold, match_here_lit.
    reflexivity.
  - cbn [forallb fst snd] in Hok.
    apply andb_true_iff in Hok as [Hp Hrest].
    apply andb_true_iff in Hp as [He' Htext].
    assert (IH' : forall pre,
               replace_scan no_flags (lit (marker e)) repl pre
                 (render f rest) 0 = render g rest).
    { intros pre'. apply IH; [assumption|].
      intros e0 H0. apply Hf. now right. }
    cbn [render].
    destruct (Hf e' (or_introl eq_refl)) as [[Hfe Hge]|[Hfe Hge]];
      rewrite Hge.
    + rewrite Hfe. pose proof (prefixb_marker e e'
                                 (text ++ render f rest) He He') as Hpm.
      rewrite (marker_unfold e') in *. rewrite (marker_unfold e) in Hpm |- * at 1.
      cbn [app]. rewrite replace_scan_cons, match_here_lit.
      cbn [app] in Hpm. rewrite Hpm.
      destruct (str_eqb e e') eqn:Eee.
      * apply str_eqb_eq in Eee. subst e'.
        rewrite expand_plain by assumption.
        cbn [m_text length]. f_equal.
        change (123%N :: (e ++ [125%N]) ++ text ++ render f rest)
          with ((123%N :: e ++ [125%N]) ++ text ++ render f rest).
        replace (length (e ++ [125%N]))%nat
          with (length (e ++ [125%N]))%nat by reflexivity.
        change (S (length (e ++ [125%N])))
          with (length (123%N :: e ++ [125%N])).
        rewrite replace_scan_pass.
        rewrite <- marker_unfold.
        rewrite marker_unfold at 1.
        rewrite replace_scan_plain by assumption.
        rewrite <- marker_unfold. now rewrite IH'.
      * f_equal.
        change (123%N :: (e' ++ [125%N]) ++ text ++ render f rest)
          with ((123%N :: e' ++ [125%N]) ++ text ++ render f rest).
        apply expression_ok_parts in He' as (_ & Hd & _).
        rewrite replace_scan_plain
          by (cbn [no_dollar forallb]; fold (no_dollar (e' ++ [125%N]));
              rewrite no_dollar_app, Hd; reflexivity).
        rewrite replace_scan_plain by assumption.
        rewrite <- marker_unfold, IH'. cbn [app]. now rewrite <- !app_assoc.
    + rewrite marker_unfold.
      rewrite replace_scan_plain by assumption. f_equal.
      rewrite replace_scan_plain by assumption. f_equal.
      rewrite <- marker_unfold. apply IH'.
Qed.

(** *** The markers found by [variableRegex] *)

Lemma scan_cons (fl : flags) (r : regex) (pre : jsstring) (x : N)
  (t : jsstring) :
  scan fl r pre (x :: t) 0
  = match match_here fl r pre (x :: t) with
    | Some m => m :: scan fl r (x :: pre) t (length (m_text m) - 1)
    | None => scan fl r (x :: pre) t 0
    end.
Proof. reflexivity. Qed.

Lemma scan_pass (fl : flags) (r : regex) (u : jsstring) :
  forall pre rest,
    scan fl r pre (u ++ rest) (length u) = scan fl r (rev u ++ pre) rest 0.
Proof.
  induction u as [|x u IH]; intros pre rest; [reflexivity|].
  simpl. rewrite IH. now rewrite <- app_assoc.
Qed.

Lemma rmatch_cls_cons (fl : flags) (neg : bool) (rs : list (N * N))
  (k : mstate -> option mstate) (b : jsstring) (x : N) (t : jsstring)
  (cs : list (nat * jsstring)) :
  rmatch fl (Cls neg rs) k (mkState b (x :: t) cs)
  = if cls_mem fl neg rs x then k (mkState (x :: b) t cs) else None.
Proof. reflexivity. Qed.

(** A greedy class loop runs to the first code unit the class refuses,
    when what follows the loop matches there. *)
Lemma star_greedy_class (fl : flags) (neg : bool) (rs : list (N * N))
  (k : mstate -> option mstate) (y : N) (rest : jsstring) (e : mstate) :
  cls_mem fl neg rs y = false ->
  forall u n b cs,
    forallb (cls_mem fl neg rs) u = true ->
    (length u < n)%nat ->
    k (mkState (rev u ++ b) (y :: rest) cs) = Some e ->
    star_loop (rmatch fl (Cls neg rs)) true k n (mkState b (u ++ y :: rest) cs)
    = Some e.
Proof.
  intros Hy. induction u as [|x u IH]; intros n b cs Hu Hn Hk;
    (destruct n as [|n]; [inversion Hn|]); cbn [star_loop app].
  - rewrite rmatch_cls_cons, Hy. exact Hk.
  - cbn [forallb] in Hu. apply andb_true_iff in Hu as [Hx Hu].
    rewrite rmatch_cls_cons, Hx. cbn [after length].
    replace (length (u ++ y :: rest) <? S (length (u ++ y :: rest)))%nat
      with true by (symmetry; apply Nat.ltb_lt; lia).
    rewrite (IH n (x :: b) cs Hu); [reflexivity|simpl in Hn; lia|].
    cbn [rev] in Hk. now rewrite <- app_assoc in Hk.
Qed.

Lemma rmatch_Seq (fl : flags) (a b : regex) (k : mstate -> option mstate)
  (st : mstate) :
  rmatch fl (Seq a b) k st = rmatch fl a (rmatch fl b k) st.
Proof. reflexivity. Qed.

Lemma rmatch_Chr_cons (fl : flags) (c0 : N) (k : mstate -> option mstate)
  (b : jsstring) (x : N) (t : jsstring) (cs : list (nat * jsstring)) :
  rmatch fl (Chr c0) k (mkState b (x :: t) cs)
  = if chr_eq fl c0 x then k (mkState (x :: b) t cs) else None.
Proof. reflexivity. Qed.

Lemma rmatch_Group (fl : flags) (n : nat) (a : regex)
  (k : mstate -> option mstate) (st : mstate) :
  rmatch fl (Group n a) k st
  = rmatch fl a (fun st' => k (set_cap n (consumed st st') st')) st.
Proof. reflexivity. Qed.

Lemma rmatch_Star (fl : flags) (g : bool) (a : regex)
  (k : mstate -> option mstate) (st : mstate) :
  rmatch fl (Star g a) k st
  = star_loop (rmatch fl a) g k (S (length (after st))) st.
Proof. reflexivity. Qed.

Lemma variableRegex_unfold :
  variableRegex
  = Seq (Chr 36) (Seq (Chr 123)
       (Seq (Group 1 (Seq (Cls true [one "}"]) (Star true (Cls true [one "}"]))))
          (Chr 125))).
Proof. reflexivity. Qed.

Lemma not_brace (z : N) :
  cls_mem no_flags true [one "}"] z = negb (z =? 125)%N.
Proof.
  unfold cls_mem, in_ranges, in_range. cbn.
  rewrite !orb_false_r. f_equal.
  destruct (N.eqb_spec z 125) as [->|Hz]; [reflexivity|].
  destruct (N.leb_spec 125 z), (N.leb_spec z 125); simpl; try reflexivity.
  lia.
Qed.

Lemma match_here_variable_none (pre : jsstring) (x : N) (t : jsstring) :
  (x =? 36)%N = false ->
  match_here no_flags variableRegex pre (x :: t) = None.
Proof.
  intros Hx. unfold match_here. rewrite variableRegex_unfold.
  rewrite rmatch_Seq, rmatch_Chr_cons, chr_eq_plain.
  now rewrite N.eqb_sym, Hx.
Qed.

Lemma firstn_app_length (u rest : jsstring) (n : nat) :
  n = length u -> firstn n (u ++ rest) = u.
Proof.
  intros ->. rewrite firstn_app, Nat.sub_diag, firstn_all. simpl.
  apply app_nil_r.
Qed.

Lemma match_here_variable (pre e rest : jsstring) :
  expression_ok e = true ->
  match_here no_flags variableRegex pre (marker e ++ rest)
  = Some (mkMatch (length pre) (marker e) [(1%nat, e)]).
Proof.
  intros He. apply expression_ok_parts in He as (Hne & _ & Hb).
  destruct e as [|x e]; [contradiction|].
  cbn [forallb] in Hb. apply andb_true_iff in Hb as [Hx Hb].
  unfold match_here. rewrite variableRegex_unfold, marker_unfold.
  cbn [app].
  rewrite rmatch_Seq, rmatch_Chr_cons, chr_eq_plain, N.eqb_refl.
  rewrite rmatch_Seq, rmatch_Chr_cons, chr_eq_plain, N.eqb_refl.
  rewrite rmatch_Seq, rmatch_Group, rmatch_Seq, rmatch_cls_cons, not_brace, Hx.
  cbn [negb]. rewrite rmatch_Star. cbn [after].
  rewrite <- app_assoc. cbn [app].
  erewrite star_greedy_class; revgoals.
  - unfold set_cap, consumed. cbn [before after caps filter].
    rewrite rmatch_Chr_cons, chr_eq_plain, N.eqb_refl. reflexivity.
  - rewrite ?length_app. cbn [length]. lia.
  - clear -Hb. induction e as [|z e IH]; [reflexivity|].
    cbn [forallb] in *. apply andb_true_iff in Hb as [Hz Hb].
    now rewrite not_brace, Hz, IH.
  - rewrite not_brace. now rewrite N.eqb_refl.
  - cbn [before after caps filter length].
    f_equal. f_equal.
    + change (36%N :: 123%N :: x :: e ++ 125%N :: rest)
        with ((36%N :: 123%N :: x :: e) ++ [125%N] ++ rest).
      rewrite app_assoc.
      change ((36%N :: 123%N :: x :: e) ++ [125%N])
        with (36%N :: 123%N :: (x :: e) ++ [125%N]).
      apply firstn_app_length.
      cbn [length]. rewrite !length_app. cbn [length]. lia.
    + f_equal. f_equal.
      change (x :: e ++ 125%N :: rest) with ((x :: e) ++ 125%N :: rest).
      apply firstn_app_length.
      cbn [length]. rewrite !length_app. cbn [length]. lia.
Qed.

Lemma scan_variable_plain (u : jsstring) :
  no_dollar u = true ->
  forall pre rest,
    scan no_flags variableRegex pre (u ++ rest) 0
    = scan no_flags variableRegex (rev u ++ pre) rest 0.
Proof.
  induction u as [|x u IH]; intros Hu pre rest; [reflexivity|].
  cbn [no_dollar forallb] in Hu. apply andb_true_iff in Hu as [Hx Hu].
  change (ch "$") with 36%N in Hx. apply negb_true_iff in Hx.
  change ((x :: u) ++ rest) with (x :: u ++ rest).
  rewrite scan_cons, match_here_variable_none by assumption.
  rewrite IH by assumption. simpl. now rewrite <- app_assoc.
Qed.

Lemma variables_render (pieces : list (jsstring * jsstring)) :
  forallb (fun p => expression_ok (fst p) && no_dollar (snd p)) pieces = true ->
  forall pre,
    map (fun m => group m 1)
      (scan no_flags variableRegex pre (render marker pieces) 0)
    = map fst pieces.
Proof.
  induction pieces as [|[e text] rest IH]; intros Hok pre.
  - reflexivity.
  - cbn [forallb fst snd] in Hok.
    apply andb_true_iff in Hok as [Hp Hrest].
    apply andb_true_iff in Hp as [He Htext].
    cbn [render map fst].
    pose proof (match_here_variable pre e (text ++ render marker rest) He)
      as Hm.
    rewrite marker_unfold in Hm |- *. cbn [app] in Hm |- *.
    rewrite scan_cons, Hm. cbn [map m_text]. f_equal.
    match goal with
    | |- context [(?a - 1)%nat] =>
        replace (a - 1)%nat with (length (123%N :: e ++ [125%N]))
          by (cbn [length]; lia)
    end.
    change (123%N :: (e ++ [125%N]) ++ text ++ render marker rest)
      with ((123%N :: e ++ [125%N]) ++ text ++ render marker rest).
    rewrite scan_pass, scan_variable_plain by assumption.
    now apply IH.
Qed.

(** *** Names of the placeholders *)

Lemma placeholderName_code (i : nat) :
  Z.of_nat i <= 65438 -> placeholderName i = [N.of_nat (97 + i)].
Proof.
  intros Hi. unfold placeholderName, fromCharCode. f_equal.
  rewrite Z.mod_small by lia. lia.
Qed.

Lemma placeholder_no_dollar (i : nat) :
  Z.of_nat i <= 65438 -> no_dollar (placeholder i) = true.
Proof.
  intros Hi. unfold placeholder. rewrite placeholderName_code by assumption.
  assert (Hc : (N.of_nat (97 + i) =? 36)%N = false) by (apply N.eqb_neq; lia).
  revert Hc. generalize (N.of_nat (97 + i)). intros x Hx.
  change (js "{" ++ [x] ++ js "}") with [123%N; x; 125%N].
  unfold no_dollar. cbn [forallb]. change (ch "$") with 36%N.
  now rewrite Hx.
Qed.

Lemma get_bindings_fresh (l : list jsstring) (i j : nat) :
  (i + length l <= j)%nat -> Z.of_nat j <= 65438 ->
  Obj.get (bindings i l) (placeholderName j) = None.
Proof.
  revert i. induction l as [|e l IH]; intros i Hij Hj; [reflexivity|].
  cbn [bindings Obj.get length] in *.
  rewrite (placeholderName_code i), (placeholderName_code j) by lia.
  destruct (str_eqb _ _) eqn:E.
  - apply str_eqb_eq in E. apply (f_equal (hd 0%N)) in E. cbn [hd] in E.
    lia.
  - rewrite <- (placeholderName_code j) by lia. apply IH; lia.
Qed.

Lemma bindings_app (l : list jsstring) (e : jsstring) (i : nat) :
  bindings i (l ++ [e]) = bindings i l ++ [(placeholderName (i + length l), e)].
Proof.
  revert i. induction l as [|x l IH]; intros i; cbn [bindings app length].
  - now rewrite Nat.add_0_r.
  - rewrite IH. now rewrite Nat.add_succ_r.
Qed.

Lemma set_binding (l : list jsstring) (e : jsstring) :
  Z.of_nat (length l) <= 65438 ->
  Obj.set (bindings 0 l) (placeholderName (length l)) e = bindings 0 (l ++ [e]).
Proof.
  intros Hl. unfold Obj.set.
  rewrite get_bindings_fresh by lia.
  rewrite bindings_app. cbn [Nat.add].
  rewrite (placeholderName_code (length l)) by assumption.
  replace (str_eqb [N.of_nat (97 + length l)] (js "__proto__")) with false
    by (symmetry; apply str_eqb_neq; discriminate).
  unfold Obj.array_index. cbn [truthy andb]. rewrite andb_false_r.
  cbn [Obj.digits_value]. unfold is_digit, in_range.
  destruct (N.leb_spec (N.of_nat (97 + length l)) 57); [lia|].
  now rewrite andb_false_r.
Qed.

Lemma first_index_fresh (done rest : list jsstring) (e : jsstring) :
  existsb (str_eqb e) done = false ->
  first_index e (done ++ e :: rest) = length done.
Proof.
  induction done as [|x done IH]; cbn [existsb app first_index length].
  - now rewrite str_eqb_refl.
  - intros H. apply orb_false_iff in H as [Hx Hd].
    rewrite str_eqb_sym, Hx. now rewrite IH.
Qed.

Lemma first_index_lt (e : jsstring) (l : list jsstring) :
  In e l -> (first_index e l < length l)%nat.
Proof.
  induction l as [|x l IH]; [contradiction|].
  cbn [first_index length]. intros [->|H].
  - rewrite str_eqb_refl. lia.
  - destruct (str_eqb x e); [lia|]. apply IH in H. lia.
Qed.

Lemma existsb_str_In (e : jsstring) (l : list jsstring) :
  existsb (str_eqb e) l = true -> In e l.
Proof.
  intros H. apply existsb_exists in H as (x & Hx & E).
  apply str_eqb_eq in E. now subst.
Qed.

Lemma render_ext (f g : jsstring -> jsstring)
  (pieces : list (jsstring * jsstring)) :
  (forall e, In e (map fst pieces) -> f e = g e) ->
  render f pieces = render g pieces.
Proof.
  induction pieces as [|[e text] rest IH]; intros H; [reflexivity|].
  cbn [render]. rewrite (H e) by now left.
  rewrite IH; [reflexivity|]. intros e' He'. apply H. now right.
Qed.

(** *** The rounds of the converter *)

Lemma piece_step (all done todo : list jsstring) (e e' : jsstring) :
  all = done ++ e :: todo -> Z.of_nat (length all) <= 65439 -> In e' all ->
  (piece done all e' = marker e'
   /\ piece (done ++ [e]) all e'
      = if str_eqb e e' then placeholder (length done) else marker e')
  \/ (no_dollar (piece done all e') = true
      /\ piece (done ++ [e]) all e' = piece done all e').
Proof.
  intros Hall Hlen Hin. unfold piece. rewrite existsb_app. cbn [existsb].
  rewrite orb_false_r.
  destruct (existsb (str_eqb e') done) eqn:Ed.
  - right. split; [|reflexivity]. apply placeholder_no_dollar.
    pose proof (first_index_lt e' all Hin). lia.
  - left. split; [reflexivity|]. cbn [orb]. rewrite (str_eqb_sym e' e).
    destruct (str_eqb e e') eqn:E; [|reflexivity].
    apply str_eqb_eq in E. subst e'.
    now rewrite Hall, first_index_fresh by assumption.
Qed.

Lemma pieces_expression_ok (pieces : list (jsstring * jsstring)) (e : jsstring) :
  forallb (fun p => expression_ok (fst p) && no_dollar (snd p)) pieces = true ->
  In e (map fst pieces) -> expression_ok e = true.
Proof.
  intros H Hin. apply in_map_iff in Hin as (p & <- & Hp).
  rewrite forallb_forall in H. apply H in Hp.
  now apply andb_true_iff in Hp as [Hp _].
Qed.

Lemma convert_fold (lead : jsstring) (pieces : list (jsstring * jsstring)) :
  well_formed lead pieces = true -> Z.of_nat (length pieces) <= 65439 ->
  forall todo done,
    map fst pieces = done ++ todo ->
    fold_left convertStep todo
      (Z.of_nat (length done),
       lead ++ render (piece done (map fst pieces)) pieces,
       bindings 0 done)
    = (Z.of_nat (length (map fst pieces)),
       lead ++ render (piece (map fst pieces) (map fst pieces)) pieces,
       bindings 0 (map fst pieces)).
Proof.
  intros Hwf Hlen. apply andb_true_iff in Hwf as [Hlead Hpieces].
  set (all := map fst pieces).
  assert (Hall_len : length all = length pieces) by apply length_map.
  induction todo as [|e todo IH]; intros done Hall.
  - rewrite app_nil_r in Hall. now rewrite <- Hall.
  - assert (Hdone : Z.of_nat (length done) <= 65438).
    { apply (f_equal (@length jsstring)) in Hall.
      rewrite length_app in Hall. cbn [length] in Hall. lia. }
    assert (He : expression_ok e = true).
    { apply (pieces_expression_ok pieces); [assumption|].
      fold all. rewrite Hall. apply in_or_app. right. now left. }
    cbn [fold_left]. unfold convertStep at 2.
    change (fromCharCode (97 + Z.of_nat (length done)))
      with (placeholderName (length done)).
    change (js "{" ++ placeholderName (length done) ++ js "}")
      with (placeholder (length done)).
    rewrite RegExp_marker, set_binding by assumption.
    unfold replaceAll.
    rewrite (marker_unfold e), replace_scan_plain by assumption.
    rewrite <- marker_unfold.
    rewrite (replace_marker_render e (placeholder (length done))
               (piece done all) (piece (done ++ [e]) all)).
    + replace (Z.of_nat (length done) + 1)
        with (Z.of_nat (length (done ++ [e])))
        by (rewrite length_app; cbn [length]; lia).
      apply IH. now rewrite <- app_assoc.
    + assumption.
    + now apply placeholder_no_dollar.
    + assumption.
    + intros e' He'. apply (piece_step all done todo); [assumption|lia|].
      assumption.
Qed.

Lemma In_existsb_str (e : jsstring) (l : list jsstring) :
  In e l -> existsb (str_eqb e) l = true.
Proof.
  intros H. apply existsb_exists. exists e. split; [assumption|].
  apply str_eqb_refl.
Qed.

(** The converter on a template given by its parts: every marker is
    written as the placeholder of the first marker with the same
    expression, and the mapping binds one name per marker, in order. *)
Lemma convert_render (lead : jsstring) (pieces : list (jsstring * jsstring))
  (methodPrefix : jsstring) (reg : jsobject) :
  well_formed lead pieces = true -> Z.of_nat (length pieces) <= 65439 ->
  key (fst (convertTemplateToI18n (lead ++ render marker pieces) methodPrefix
              reg))
  = lead ++ render (fun e => placeholder (first_index e (map fst pieces)))
              pieces
  /\ mapping (fst (convertTemplateToI18n (lead ++ render marker pieces)
                     methodPrefix reg))
     = bindings 0 (map fst pieces).
Proof.
  intros Hwf Hlen.
  pose proof (convert_fold lead pieces Hwf Hlen (map fst pieces) [] eq_refl)
    as Hfold.
  apply andb_true_iff in Hwf as [Hlead Hpieces].
  unfold convertTemplateToI18n, matchAll.
  rewrite scan_variable_plain, variables_render by assumption.
  cbn [length bindings] in Hfold. change (Z.of_nat 0) with 0 in Hfold.
  rewrite (render_ext (piece [] (map fst pieces)) marker) in Hfold
    by reflexivity.
  match goal with
  | |- context [fold_left convertStep ?l ?init] =>
      replace (fold_left convertStep l init)
        with (Z.of_nat (length (map fst pieces)),
              lead ++ render (piece (map fst pieces) (map fst pieces)) pieces,
              bindings 0 (map fst pieces))
        by (symmetry; exact Hfold)
  end.
  cbn [fst key mapping]. split; [|reflexivity].
  f_equal. apply render_ext. intros e He. unfold piece.
  now rewrite In_existsb_str.
Qed.

Lemma render_in_order (all : list jsstring) :
  NoDup all ->
  forall pieces done,
    all = done ++ map fst pieces ->
    render (fun e => placeholder (first_index e all)) pieces
    = renderInOrder (length done) pieces.
Proof.
  intros Hnd. induction pieces as [|[e text] rest IH]; intros done Hall;
    [reflexivity|].
  cbn [render renderInOrder map fst] in *.
  assert (He : existsb (str_eqb e) done = false).
  { destruct (existsb (str_eqb e) done) eqn:E; [|reflexivity].
    apply existsb_str_In in E. exfalso.
    rewrite Hall in Hnd. apply NoDup_remove_2 in Hnd.
    apply Hnd. apply in_or_app. now left. }
  rewrite Hall at 1. rewrite first_index_fresh by assumption.
  f_equal. f_equal.
  replace (S (length done)) with (length (done ++ [e]))
    by (rewrite length_app; cbn [length]; lia).
  apply IH. now rewrite <- app_assoc.
Qed.

Lemma nth_bindings (l : list jsstring) :
  forall n i, (n < length l)%nat ->
              nth n (bindings i l) ([], [])
              = (placeholderName (i + n), nth n l []).
Proof.
  induction l as [|e l IH]; intros n i Hn; [inversion Hn|].
  destruct n as [|n]; cbn [bindings nth].
  - now rewrite Nat.add_0_r.
  - rewrite IH by (simpl in Hn; lia). now rewrite Nat.add_succ_r.
Qed.

(** *** C4: placeholders in order of appearance *)

(** C4, as the code has it.  For a template in which the dollar sign
    occurs only where a marker starts, with at most 26 markers: the
    mapping binds the letters a, b, c, ... to the expressions of the
    markers in their order, a repeated expression taking a letter of its
    own; in the key, every occurrence of a marker is written as the
    letter of the first marker with the same expression; so when the
    expressions differ from one another, the i-th marker is written as
    the i-th letter. *)
Theorem placeholders_by_first_appearance (lead : jsstring)
  (pieces : list (jsstring * jsstring)) (methodPrefix : jsstring)
  (reg : jsobject) :
  well_formed lead pieces = true -> (length pieces <= 26)%nat ->
  mapping (fst (convertTemplateToI18n (lead ++ render marker pieces)
                  methodPrefix reg))
  = bindings 0 (map fst pieces)
  /\ key (fst (convertTemplateToI18n (lead ++ render marker pieces)
                 methodPrefix reg))
     = lead ++ render (fun e => placeholder (first_index e (map fst pieces)))
                 pieces
  /\ (NoDup (map fst pieces) ->
      key (fst (convertTemplateToI18n (lead ++ render marker pieces)
                  methodPrefix reg))
      = lead ++ renderInOrder 0 pieces).
Proof.
  intros Hwf Hlen.
  destruct (convert_render lead pieces methodPrefix reg Hwf) as [Hk Hm];
    [lia|].
  split; [exact Hm|]. split; [exact Hk|].
  intros Hnd. rewrite Hk. f_equal.
  now apply (render_in_order (map fst pieces) Hnd pieces []).
Qed.

Lemma placeholders_by_first_appearance_witness :
  js "共" ++ render marker Examples.countPagePieces = Examples.countPage
  /\ well_formed (js "共") Examples.countPagePieces = true
  /\ (length Examples.countPagePieces <= 26)%nat
  /\ NoDup (map fst Examples.countPagePieces)
  /\ key (fst (convertTemplateToI18n
                 (js "共" ++ render marker Examples.countPagePieces) (js "$t")
                 []))
     = js "共" ++ renderInOrder 0 Examples.countPagePieces.
Proof.
  assert (Hwf : well_formed (js "共") Examples.countPagePieces = true)
    by reflexivity.
  assert (Hlen : (length Examples.countPagePieces <= 26)%nat)
    by (simpl; lia).
  assert (Hnd : NoDup (map fst Examples.countPagePieces)).
  { repeat constructor; simpl; intuition discriminate. }
  split; [vm_compute; reflexivity|].
  split; [exact Hwf|]. split; [exact Hlen|]. split; [exact Hnd|].
  exact (proj2 (proj2 (placeholders_by_first_appearance (js "共")
                         Examples.countPagePieces (js "$t") [] Hwf Hlen))
           Hnd).
Defined.

(** *** C5: more than 26 markers *)

(** The converter has no error path: for a template with more than 26
    markers (and fewer than 65440) it returns as for any other, the name
    of marker [i] being the code unit [97 + i]; the 27th name is the
    opening brace. *)
Theorem beyond_alphabet_continues (lead : jsstring)
  (pieces : list (jsstring * jsstring)) (methodPrefix : jsstring)
  (reg : jsobject) :
  well_formed lead pieces = true ->
  (26 < length pieces)%nat -> Z.of_nat (length pieces) <= 65439 ->
  mapping (fst (convertTemplateToI18n (lead ++ render marker pieces)
                  methodPrefix reg))
  = bindings 0 (map fst pieces)
  /\ key (fst (convertTemplateToI18n (lead ++ render marker pieces)
                 methodPrefix reg))
     = lead ++ render (fun e => placeholder (first_index e (map fst pieces)))
                 pieces
  /\ nth 26 (mapping (fst (convertTemplateToI18n
                             (lead ++ render marker pieces) methodPrefix reg)))
       ([], [])
     = (js "{", nth 26 (map fst pieces) []).
Proof.
  intros Hwf Hmore Hlen.
  destruct (convert_render lead pieces methodPrefix reg Hwf Hlen) as [Hk Hm].
  split; [exact Hm|]. split; [exact Hk|].
  rewrite Hm, nth_bindings by (rewrite length_map; lia). reflexivity.
Qed.

Lemma beyond_alphabet_continues_witness :
  [] ++ render marker Examples.pieces27 = Examples.markers27
  /\ well_formed [] Examples.pieces27 = true
  /\ (26 < length Examples.pieces27)%nat
  /\ nth 26 (mapping (fst (convertTemplateToI18n
                             ([] ++ render marker Examples.pieces27) (js "$t")
                             [])))
       ([], [])
     = (js "{", nth 26 (map fst Examples.pieces27) []).
Proof.
  split; [vm_compute; reflexivity|].
  assert (Hwf : well_formed [] Examples.pieces27 = true)
    by (vm_compute; reflexivity).
  assert (Hmore : (26 < length Examples.pieces27)%nat) by (simpl; lia).
  assert (Hlen : Z.of_nat (length Examples.pieces27) <= 65439)
    by (simpl; lia).
  split; [exact Hwf|]. split; [exact Hmore|].
  exact (proj2 (proj2 (beyond_alphabet_continues [] Examples.pieces27
                         (js "$t") [] Hwf Hmore Hlen))).
Defined.


(** *** Call sites the rewrite introduces *)

Lemma search_found (fl : flags) (r : regex) :
  forall w pre suf m,
    match_here fl r (rev w ++ pre) suf = Some m ->
    exists m', search fl r pre (w ++ suf) = Some m'.
Proof.
  induction w as [|x w IH]; intros pre suf m H.
  - cbn [rev app] in *. exists m. destruct suf; cbn [search]; now rewrite H.
  - cbn [app search]. destruct (match_here fl r pre (x :: w ++ suf)) as [m0|].
    + now exists m0.
    + apply (IH (x :: pre) suf m). cbn [rev] in H.
      now rewrite <- app_assoc in H.
Qed.

Lemma test_found (fl : flags) (r : regex) (w suf : jsstring) (m : jsmatch) :
  match_here fl r (rev w) suf = Some m -> test fl r (w ++ suf) = true.
Proof.
  intros H. unfold test, exec.
  destruct (search_found fl r w [] suf m) as [m' Hm'].
  - now rewrite app_nil_r.
  - now rewrite Hm'.
Qed.











(** *** C1: scanning the output of a rewrite *)








(** A dollar sign before a marker joins the placeholder written for it,
    and the next round takes the two for a marker. *)
Lemma dollar_before_marker_collides :
  fst (convertTemplateToI18n Examples.dollarBeforeMarker (js "$t") [])
  = mkConversion (js "{b}{b}") (js "$t('{b}{b}', {a: x, b: a})") (js "{b}{b}")
      [(js "a", js "x"); (js "b", js "a")].
Proof. vm_compute. reflexivity. Qed.

(** ** Further properties of the code *)

(** *** A continuation that fails on every state that can be reached *)

Section Dead.
Variable Q : jsstring -> Prop.
Hypothesis Q_tail : forall x t, Q (x :: t) -> Q t.

Lemma star_loop_dead
  (ma : (mstate -> option mstate) -> mstate -> option mstate) (g : bool)
  (k : mstate -> option mstate) :
  (forall k' st, Q (after st) ->
                 (forall st', Q (after st') -> k' st' = None) ->
                 ma k' st = None) ->
  (forall st, Q (after st) -> k st = None) ->
  forall n st, Q (after st) -> star_loop ma g k n st = None.
Proof.
  intros Hma Hk. induction n as [|n IH]; intros st HQ; cbn [star_loop].
  - now apply Hk.
  - rewrite (Hma _ st HQ), (Hk st HQ); [now destruct g|].
    intros st' HQ'. destruct (_ <? _)%nat; [now apply IH|reflexivity].
Qed.

Lemma rmatch_dead (fl : flags) (r : regex) :
  forall k st, Q (after st) ->
               (forall st', Q (after st') -> k st' = None) ->
               rmatch fl r k st = None.
Proof.
  induction r as [|c0|neg rs|a IHa b IHb|a IHa b IHb|g a IHa|n a IHa| | |];
    intros k st HQ Hk; cbn [rmatch].
  - now apply Hk.
  - destruct (after st) as [|x t] eqn:Ea; [reflexivity|].
    destruct (chr_eq fl c0 x); [|reflexivity].
    apply Hk. simpl. eapply Q_tail, HQ.
  - destruct (after st) as [|x t] eqn:Ea; [reflexivity|].
    destruct (cls_mem fl neg rs x); [|reflexivity].
    apply Hk. simpl. eapply Q_tail, HQ.
  - apply IHa; [assumption|]. intros st' HQ'. now apply IHb.
  - rewrite IHa, IHb; auto.
  - apply star_loop_dead; auto.
  - apply IHa; [assumption|]. intros st' HQ'. now apply Hk.
  - destruct (at_bol fl st); auto.
  - destruct (at_eol fl st); auto.
  - destruct (at_wordb st); auto.
Qed.

Lemma search_dead (fl : flags) (r : regex) :
  (forall pre suf, Q suf -> match_here fl r pre suf = None) ->
  forall suf pre, Q suf -> search fl r pre suf = None.
Proof.
  intros H. induction suf as [|x t IH]; intros pre HQ; cbn [search];
    rewrite (H _ _ HQ); [reflexivity|].
  apply IH. eapply Q_tail, HQ.
Qed.

Lemma replace_scan_dead (fl : flags) (r : regex) (repl : jsstring) :
  (forall pre suf, Q suf -> match_here fl r pre suf = None) ->
  forall suf pre, Q suf -> replace_scan fl r repl pre suf 0 = suf.
Proof.
  intros H. induction suf as [|x t IH]; intros pre HQ; cbn [replace_scan];
    rewrite (H _ _ HQ); [reflexivity|].
  f_equal. apply IH. eapply Q_tail, HQ.
Qed.

Lemma scan_dead (fl : flags) (r : regex) :
  (forall pre suf, Q suf -> match_here fl r pre suf = None) ->
  forall suf pre, Q suf -> scan fl r pre suf 0 = [].
Proof.
  intros H. induction suf as [|x t IH]; intros pre HQ; cbn [scan];
    rewrite (H _ _ HQ); [reflexivity|].
  apply IH. eapply Q_tail, HQ.
Qed.

End Dead.

(** *** An invariant of the states a match goes through *)

Section Invariant.
Variable Inv : mstate -> Prop.
Hypothesis Inv_step :
  forall st x t, Inv st -> after st = x :: t -> Inv (step st x t).
Hypothesis Inv_cap :
  forall st st' n, Inv st -> Inv st' ->
                   (exists u, after st = u ++ after st') ->
                   Inv (set_cap n (consumed st st') st').

Lemma ahead_refl (st : mstate) : ahead st st.
Proof. now exists []. Qed.

Lemma ahead_trans (a b d : mstate) : ahead a b -> ahead b d -> ahead a d.
Proof.
  intros [u Hu] [v Hv]. exists (u ++ v). now rewrite Hu, Hv, app_assoc.
Qed.

Lemma star_loop_inv
  (ma : (mstate -> option mstate) -> mstate -> option mstate) (g : bool)
  (k : mstate -> option mstate) :
  (forall k' st e, Inv st -> ma k' st = Some e ->
                   exists st', Inv st' /\ ahead st st' /\ k' st' = Some e) ->
  forall n st e, Inv st -> star_loop ma g k n st = Some e ->
                 exists st', Inv st' /\ ahead st st' /\ k st' = Some e.
Proof.
  intros Hma. induction n as [|n IH]; intros st e HI H; simpl in H.
  - exists st. auto using ahead_refl.
  - assert (Hagain : forall e0,
               ma (fun st' =>
                     if (length (after st') <? length (after st))%nat
                     then star_loop ma g k n st' else None) st = Some e0 ->
               exists st', Inv st' /\ ahead st st' /\ k st' = Some e0).
    { intros e0 E. apply Hma in E as (st1 & HI1 & Hp1 & E); [|assumption].
      destruct (_ <? _)%nat; [|discriminate].
      apply IH in E as (st2 & HI2 & Hp2 & E); [|assumption].
      exists st2. eauto using ahead_trans. }
    destruct g.
    + destruct (ma _ st) as [e0|] eqn:E.
      * injection H as <-. now apply Hagain.
      * exists st. auto using ahead_refl.
    + destruct (k st) as [e0|] eqn:E.
      * injection H as <-. exists st. auto using ahead_refl.
      * now apply Hagain.
Qed.

Lemma rmatch_inv (fl : flags) (r : regex) :
  forall k st e, Inv st -> rmatch fl r k st = Some e ->
                 exists st', Inv st' /\ ahead st st' /\ k st' = Some e.
Proof.
  induction r as [|c0|neg rs|a IHa b IHb|a IHa b IHb|g a IHa|n a IHa| | |];
    simpl; intros k st e HI H.
  - exists st. auto using ahead_refl.
  - destruct (after st) as [|x t] eqn:Ea; [discriminate|].
    destruct (chr_eq fl c0 x) eqn:Ec; [|discriminate].
    exists (step st x t). repeat split; auto. exists [x]. now rewrite Ea.
  - destruct (after st) as [|x t] eqn:Ea; [discriminate|].
    destruct (cls_mem fl neg rs x) eqn:Ec; [|discriminate].
    exists (step st x t). repeat split; auto. exists [x]. now rewrite Ea.
  - apply IHa in H as (st1 & HI1 & Hp1 & H); [|assumption].
    apply IHb in H as (st2 & HI2 & Hp2 & H); [|assumption].
    exists st2. eauto using ahead_trans.
  - destruct (rmatch fl a k st) as [e0|] eqn:E.
    + injection H as <-. now apply IHa in E.
    + now apply IHb in H.
  - exact (star_loop_inv (rmatch fl a) g k IHa (S (length (after st))) st e
             HI H).
  - apply IHa in H as (st1 & HI1 & Hp1 & H); [|assumption].
    exists (set_cap n (consumed st st1) st1). repeat split; auto.
  - destruct (at_bol fl st); [|discriminate].
    exists st. auto using ahead_refl.
  - destruct (at_eol fl st); [|discriminate].
    exists st. auto using ahead_refl.
  - destruct (at_wordb st); [|discriminate].
    exists st. auto using ahead_refl.
Qed.

End Invariant.

(** *** The code units of a match and of its groups come from the text *)

Section Units.
Variable P : N -> bool.

Lemma forallb_firstn (n : nat) (s : jsstring) :
  forallb P s = true -> forallb P (firstn n s) = true.
Proof.
  revert n. induction s as [|x t IH]; intros [|n]; simpl; auto.
  intros H. apply andb_true_iff in H as [-> H]. simpl. auto.
Qed.

Lemma forallb_skipn (n : nat) (s : jsstring) :
  forallb P s = true -> forallb P (skipn n s) = true.
Proof.
  revert n. induction s as [|x t IH]; intros [|n]; simpl; auto.
  intros H. apply andb_true_iff in H as [_ H]. auto.
Qed.

Lemma units_ok_step (st : mstate) (x : N) (t : jsstring) :
  units_ok P st -> after st = x :: t -> units_ok P (step st x t).
Proof.
  intros [Ha Hc] E. split; [|assumption]. simpl. rewrite E in Ha.
  simpl in Ha. now apply andb_true_iff in Ha.
Qed.

Lemma units_ok_cap (st st' : mstate) (n : nat) :
  units_ok P st -> units_ok P st' -> (exists u, after st = u ++ after st') ->
  units_ok P (set_cap n (consumed st st') st').
Proof.
  intros [Ha Hc] [Ha' Hc'] _. split; [assumption|]. simpl.
  constructor.
  - simpl. unfold consumed. now apply forallb_firstn.
  - apply Forall_forall. intros p Hp. apply filter_In in Hp as [Hp _].
    revert p Hp. now apply Forall_forall.
Qed.

Lemma assoc_nat_units (n : nat) (l : list (nat * jsstring)) :
  Forall (fun p => forallb P (snd p) = true) l ->
  forallb P (assoc_nat n l) = true.
Proof.
  induction 1 as [|[k v] l Hv Hl IH]; simpl; [reflexivity|].
  now destruct (Nat.eqb k n).
Qed.

Lemma match_here_units (fl : flags) (r : regex) (pre suf : jsstring)
  (m : jsmatch) :
  forallb P suf = true ->
  match_here fl r pre suf = Some m ->
  forallb P (m_text m) = true /\ forall n, forallb P (group m n) = true.
Proof.
  intros Hs. unfold match_here.
  destruct (rmatch fl r Some _) as [e|] eqn:E; [|discriminate].
  intros [= <-]. simpl.
  apply (rmatch_inv (units_ok P) units_ok_step units_ok_cap) in E
    as (st' & [Ha Hc] & _ & [= ->]).
  - split; [now apply forallb_firstn|].
    intros n. unfold group. simpl. now apply assoc_nat_units.
  - split; [assumption|constructor].
Qed.

Lemma search_units (fl : flags) (r : regex) :
  forall suf pre m,
    forallb P suf = true ->
    search fl r pre suf = Some m ->
    forallb P (m_text m) = true /\ forall n, forallb P (group m n) = true.
Proof.
  induction suf as [|x t IH]; intros pre m Hs; cbn [search];
    destruct (match_here fl r pre _) as [m0|] eqn:E.
  - intros [= <-]. eapply match_here_units; eauto.
  - discriminate.
  - intros [= <-]. eapply match_here_units; eauto.
  - apply IH. simpl in Hs. now apply andb_true_iff in Hs.
Qed.

Lemma scan_units (fl : flags) (r : regex) :
  forall suf pre skip m,
    forallb P suf = true ->
    In m (scan fl r pre suf skip) ->
    forallb P (m_text m) = true /\ forall n, forallb P (group m n) = true.
Proof.
  induction suf as [|x t IH]; intros pre skip m Hs; destruct skip as [|k];
    cbn [scan].
  - destruct (match_here fl r pre []) as [m0|] eqn:E; [|intros []].
    intros [<-|[]]. eapply match_here_units; eauto.
  - intros [].
  - assert (Ht : forallb P t = true).
    { simpl in Hs. now apply andb_true_iff in Hs. }
    destruct (match_here fl r pre (x :: t)) as [m0|] eqn:E.
    + intros [<-|Hin];
        [exact (match_here_units fl r pre (x :: t) m0 Hs E)|].
      eapply IH; eauto.
    + apply IH; assumption.
  - apply IH. simpl in Hs. now apply andb_true_iff in Hs.
Qed.

Lemma matchAll_units (fl : flags) (r : regex) (s : jsstring) (m : jsmatch) :
  forallb P s = true -> In m (matchAll fl r s) ->
  forallb P (m_text m) = true /\ forall n, forallb P (group m n) = true.
Proof. apply scan_units. Qed.

Lemma exec_units (fl : flags) (r : regex) (s : jsstring) (m : jsmatch) :
  forallb P s = true -> exec fl r s = Some m ->
  forallb P (m_text m) = true /\ forall n, forallb P (group m n) = true.
Proof. apply search_units. Qed.

Lemma dropWhile_units (f : N -> bool) (s : jsstring) :
  forallb P s = true -> forallb P (dropWhile f s) = true.
Proof.
  induction s as [|x t IH]; simpl; [reflexivity|].
  intros H. destruct (f x); [|exact H].
  apply IH. now apply andb_true_iff in H.
Qed.

Lemma forallb_rev (s : jsstring) : forallb P (rev s) = forallb P s.
Proof.
  induction s as [|x t IH]; simpl; [reflexivity|].
  rewrite forallb_app, IH. simpl. rewrite andb_true_r. apply andb_comm.
Qed.

Lemma trim_units (s : jsstring) :
  forallb P s = true -> forallb P (trim s) = true.
Proof.
  intros H. unfold trim. rewrite forallb_rev. apply dropWhile_units.
  rewrite forallb_rev. now apply dropWhile_units.
Qed.

Lemma subsequence_units (a b : jsstring) :
  subsequence a b -> forallb P b = true -> forallb P a = true.
Proof.
  induction 1 as [|x a b _ IH|x a b _ IH]; simpl; auto; intros H;
    apply andb_true_iff in H as [Hx H]; [rewrite Hx|]; auto.
Qed.

End Units.

(** *** Texts without a character of the target script *)

Lemma test_no_cjk (s : jsstring) :
  no_cjk s = true -> test no_flags cjk s = false.
Proof.
  intros H. destruct (test no_flags cjk s) eqn:E; [|reflexivity].
  apply test_cjk in E as (x & Hin & Hx).
  unfold no_cjk in H. rewrite forallb_forall in H. specialize (H x Hin).
  unfold not_cjk, in_range in H.
  apply negb_true_iff, andb_false_iff in H as [H|H];
    apply N.leb_gt in H; lia.
Qed.

Lemma fold_left_same (A B : Type) (f : A -> B -> A) (ms : list B) (a : A) :
  (forall m, In m ms -> forall a', f a' m = a') -> fold_left f ms a = a.
Proof.
  revert a. induction ms as [|m ms IH]; intros a H; simpl; [reflexivity|].
  rewrite (H m (or_introl eq_refl)). apply IH. intros m' Hm'.
  apply H. now right.
Qed.

Section NoCjk.
Variable text : jsstring.
Hypothesis Htext : no_cjk text = true.

Lemma group_no_cjk (fl : flags) (r : regex) (m : jsmatch) (n : nat) :
  In m (matchAll fl r text) ->
  test no_flags cjk (trim (group m n)) = false.
Proof.
  intros Hm. apply test_no_cjk. apply trim_units.
  now apply (matchAll_units not_cjk fl r text m Htext Hm).
Qed.

Ltac drop_cjk :=
  intros m Hm terms;
  match goal with
  | |- context [test no_flags cjk (trim (group m ?n))] =>
      rewrite (group_no_cjk _ _ m n Hm)
  end;
  rewrite ?andb_false_r; cbn [andb negb orb];
  rewrite ?orb_true_r;
  repeat match goal with
         | |- (if ?b then _ else _) = _ => destruct b; try reflexivity
         end;
  try reflexivity.

Lemma extract_no_cjk (ctx : context) : extractChineseTerms text ctx = [].
Proof.
  unfold extractChineseTerms.
  rewrite (fold_left_same _ _ (doubleQuoteStep text ctx));
    [|unfold doubleQuoteStep; drop_cjk].
  rewrite (fold_left_same _ _ (i18nFieldStep text ctx));
    [|unfold i18nFieldStep; drop_cjk].
  rewrite (fold_left_same _ _ (singleQuoteStep text ctx));
    [|unfold singleQuoteStep; drop_cjk].
  rewrite (fold_left_same _ _ (templateStep text ctx));
    [|unfold templateStep; drop_cjk].
  destruct ctx; [|reflexivity].
  rewrite (fold_left_same _ _ (tagContentStep text));
    [|unfold tagContentStep; drop_cjk].
  rewrite (fold_left_same _ _ (buttonTextStep text));
    [|unfold buttonTextStep; drop_cjk].
  reflexivity.
Qed.

Lemma extractTsx_no_cjk : extractTsxTagContent text = [].
Proof.
  unfold extractTsxTagContent.
  apply fold_left_same. unfold tsxTagStep. drop_cjk.
Qed.

End NoCjk.

(** X7.  From a text without a character of the target script neither
    scanner returns a term, in either context. *)
Theorem extract_without_cjk (text : jsstring) (ctx : context) :
  no_cjk text = true ->
  extractChineseTerms text ctx = [] /\ extractTsxTagContent text = [].
Proof.
  intros H. split; [now apply extract_no_cjk|now apply extractTsx_no_cjk].
Qed.

Lemma extract_without_cjk_witness :
  no_cjk (js "<p title='ok'>{{ msg }}</p>") = true
  /\ extractChineseTerms (js "<p title='ok'>{{ msg }}</p>") TemplateCtx = []
  /\ extractTsxTagContent (js "<p title='ok'>{{ msg }}</p>") = [].
Proof.
  split; [reflexivity|].
  apply extract_without_cjk. reflexivity.
Defined.

Lemma removeComments_subsequence (text : jsstring) :
  subsequence (removeComments text) text.
Proof.
  unfold removeComments.
  eapply subsequence_trans; [apply replaceAll_subsequence|].
  eapply subsequence_trans; [apply replaceAll_subsequence|].
  eapply subsequence_trans; [apply replaceAll_subsequence|].
  apply replaceAll_subsequence.
Qed.

Lemma removeComments_no_cjk (text : jsstring) :
  no_cjk text = true -> no_cjk (removeComments text) = true.
Proof.
  intros H. unfold no_cjk.
  apply (subsequence_units not_cjk _ text); [|exact H].
  apply removeComments_subsequence.
Qed.

(** X16.  A script file without a character of the target script is left
    as it is: same content, no import added, no term counted, registry
    untouched. *)
Theorem processTsFile_without_cjk (originalContent ext : jsstring)
  (registry : jsobject) :
  no_cjk originalContent = true ->
  processTsFile originalContent ext registry
  = mkScript originalContent [] registry 0.
Proof.
  intros H. unfold processTsFile.
  rewrite (extract_no_cjk _ (removeComments_no_cjk _ H)). reflexivity.
Qed.

Lemma processTsFile_without_cjk_witness :
  no_cjk (js "const price = '$' + n;") = true
  /\ processTsFile (js "const price = '$' + n;") (js ".ts") []
     = mkScript (js "const price = '$' + n;") [] [] 0.
Proof.
  split; [reflexivity|].
  apply processTsFile_without_cjk. reflexivity.
Defined.

Lemma replaceString_self (s part : jsstring) :
  no_dollar part = true -> replaceString s part part = s.
Proof.
  intros H. unfold replaceString.
  destruct (find_sub part s) as [k|] eqn:E; [|reflexivity].
  rewrite (expand_plain _ _ _ _ _ H).
  symmetry. exact (proj1 (find_sub_some _ _ _ E)).
Qed.

Lemma processTemplate_no_cjk (templateContent : jsstring) (reg : jsobject) :
  no_cjk templateContent = true ->
  processTemplate templateContent reg = mkRewrite templateContent [] reg 0.
Proof.
  intros H. unfold processTemplate.
  rewrite (extract_no_cjk _ (removeComments_no_cjk _ H)). reflexivity.
Qed.

Lemma processScript_no_cjk (scriptContent : jsstring) (isTsx : bool)
  (reg : jsobject) (count : Z) :
  no_cjk scriptContent = true ->
  processScript scriptContent isTsx reg count = None.
Proof.
  intros H. unfold processScript.
  rewrite (extract_no_cjk _ (removeComments_no_cjk _ H)).
  rewrite (extractTsx_no_cjk _ (removeComments_no_cjk _ H)).
  now destruct isTsx.
Qed.

(** X15.  A component file without a character of the target script and
    without a dollar sign is left as it is: same content, no term
    counted, registry untouched.  (The template block is written back
    through [String.prototype.replace], which reads the dollar patterns
    of the block.) *)
Theorem processVueFile_without_cjk (originalContent : jsstring)
  (config : runConfig) (registry : jsobject) :
  no_cjk originalContent = true ->
  no_dollar originalContent = true ->
  processVueFile originalContent config registry
  = mkFileResult originalContent 0 registry.
Proof.
  intros Hc Hd.
  assert (Ht : vueTemplatePart originalContent config registry
               = mkFileResult originalContent 0 registry).
  { unfold vueTemplatePart.
    destruct (exec flag_i templateBlockRegex originalContent) as [tm|] eqn:E;
      [|reflexivity].
    destruct (processVueTemplate config); [|reflexivity].
    pose proof (exec_units not_cjk _ _ _ _ Hc E) as [_ Hg].
    pose proof (exec_units (fun x => negb (x =? ch "$")%N) _ _ _ _ Hd E)
      as [_ Hg'].
    rewrite (processTemplate_no_cjk _ _ (Hg 1%nat)).
    cbn [newTemplateContent extractedCount globalI18nMap].
    now rewrite (replaceString_self _ _ (Hg' 1%nat)). }
  unfold processVueFile. rewrite Ht.
  destruct (exec flag_i scriptBlockRegex originalContent) as [sm|] eqn:E;
    [|reflexivity].
  destruct (processVueScript config); [|reflexivity].
  pose proof (exec_units not_cjk _ _ _ _ Hc E) as [_ Hg].
  cbn [resultMap resultCount resultContent].
  now rewrite (processScript_no_cjk _ _ _ _ (Hg 1%nat)).
Qed.

Lemma processVueFile_without_cjk_witness :
  no_cjk (js "<template><p>ok</p></template>") = true
  /\ no_dollar (js "<template><p>ok</p></template>") = true
  /\ processVueFile (js "<template><p>ok</p></template>") Examples.allOn []
     = mkFileResult (js "<template><p>ok</p></template>") 0 [].
Proof.
  split; [reflexivity|]. split; [reflexivity|].
  apply processVueFile_without_cjk; reflexivity.
Defined.

Lemma dollar_quote_example :
  resultContent (processVueFile (js "<template>{{ '$' }}</template>")
                   Examples.allOn [])
  = js "<template>{{ '</template> }}</template>".
Proof. vm_compute. reflexivity. Qed.

(** *** Where a term lies in the text *)

Lemma match_here_prefix (fl : flags) (r : regex) (pre suf : jsstring)
  (m : jsmatch) :
  match_here fl r pre suf = Some m ->
  m_index m = length pre /\ exists v, suf = m_text m ++ v.
Proof.
  unfold match_here. destruct (rmatch fl r Some _) as [e|]; [|discriminate].
  intros [= <-]. simpl. split; [reflexivity|].
  eexists. symmetry. apply firstn_skipn.
Qed.

Lemma scan_occurs (fl : flags) (r : regex) :
  forall suf pre skip m,
    In m (scan fl r pre suf skip) ->
    exists u v, suf = u ++ m_text m ++ v
                /\ m_index m = (length pre + length u)%nat
                /\ match_here fl r (rev u ++ pre) (m_text m ++ v) = Some m.
Proof.
  induction suf as [|x t IH]; intros pre skip m; destruct skip as [|k];
    cbn [scan].
  - destruct (match_here fl r pre []) as [m0|] eqn:E; [|intros []].
    intros [Heq|[]]. subst m0.
    destruct (match_here_prefix _ _ _ _ _ E) as [Hi [v Hv]].
    exists [], v. cbn [app rev length]. rewrite <- Hv.
    split; [reflexivity|]. split; [lia|exact E].
  - intros [].
  - assert (Hrec : forall k0, In m (scan fl r (x :: pre) t k0) ->
               exists u v, x :: t = u ++ m_text m ++ v
                           /\ m_index m = (length pre + length u)%nat
                           /\ match_here fl r (rev u ++ pre) (m_text m ++ v)
                              = Some m).
    { intros k0 Hin. apply IH in Hin as (u & v & Hs & Hi & Hm).
      exists (x :: u), v. simpl. rewrite <- app_assoc. simpl.
      simpl in Hi.
      repeat split; [now rewrite Hs| lia | exact Hm]. }
    destruct (match_here fl r pre (x :: t)) as [m0|] eqn:E.
    + intros [Heq|Hin]; [subst m0|now apply Hrec in Hin].
      destruct (match_here_prefix _ _ _ _ _ E) as [Hi [v Hv]].
      exists [], v. cbn [app rev length]. rewrite <- Hv.
      split; [reflexivity|]. split; [lia|exact E].
    + apply Hrec.
  - intros Hin. apply IH in Hin as (u & v & Hs & Hi & Hm).
    exists (x :: u), v. simpl. rewrite <- app_assoc. simpl.
    simpl in Hi.
      repeat split; [now rewrite Hs| lia | exact Hm].
Qed.

Lemma matchAll_occurs (fl : flags) (r : regex) (s : jsstring) (m : jsmatch) :
  In m (matchAll fl r s) ->
  occurs (m_text m) s
  /\ exists pre suf, match_here fl r pre suf = Some m.
Proof.
  intros H. apply scan_occurs in H as (u & v & Hs & _ & Hm).
  split; [now exists u, v|eauto].
Qed.

(** A pattern [o ( [^...]* ) c]: the match is the group between the two
    delimiters. *)
Lemma delimited_match (o c0 : N) (g : bool) (rs : list (N * N))
  (pre suf : jsstring) (m : jsmatch) :
  match_here no_flags
    (Seq (Chr o) (Seq (Group 1 (Star g (Cls true rs))) (Chr c0))) pre suf
  = Some m ->
  m_text m = o :: group m 1 ++ [c0]
  /\ forallb (cls_mem no_flags true rs) (group m 1) = true.
Proof.
  unfold match_here.
  destruct (rmatch _ _ Some _) as [e|] eqn:E; [|discriminate].
  intros [= <-]. cbn [m_text group m_caps].
  destruct suf as [|x t]; [discriminate|].
  rewrite rmatch_Seq, rmatch_Chr_cons in E.
  destruct (chr_eq no_flags o x) eqn:Eo; [|discriminate].
  rewrite chr_eq_plain in Eo. apply N.eqb_eq in Eo. subst x.
  rewrite rmatch_Seq, rmatch_Group in E.
  apply (rmatch_passes (cls_mem no_flags true rs)) in E
    as (st' & (u & H1 & H2 & H3) & E); [|intros y Hy; exact Hy].
  cbn [rmatch] in E. cbn [after step set_cap before caps] in *.
  destruct (after st') as [|y t'] eqn:Ea; [discriminate|].
  destruct (chr_eq no_flags c0 y) eqn:Ec; [|discriminate].
  rewrite chr_eq_plain in Ec. apply N.eqb_eq in Ec. subst y.
  injection E as <-. cbn [after caps step set_cap assoc_nat Nat.eqb].
  assert (Hc : consumed (mkState (o :: pre) t []) st' = u).
  { unfold consumed. cbn [after]. rewrite Ea, H1, length_app.
    rewrite Nat.add_sub, firstn_app, Nat.sub_diag, firstn_all. simpl.
    apply app_nil_r. }
  rewrite Hc. split; [|exact H3].
  rewrite H1. cbn [length]. rewrite length_app. cbn [length].
  replace (S (length u + S (length t')) - length t')%nat
    with (S (length u + 1))%nat by lia.
  cbn [firstn]. f_equal.
  rewrite firstn_app, firstn_all2 by lia.
  replace (length u + 1 - length u)%nat with 1%nat by lia.
  reflexivity.
Qed.

Lemma fold_left_located (text : jsstring) (A : Type)
  (f : list term -> A -> list term) (ms : list A) :
  (forall terms m, In m ms -> Forall (located text) terms ->
                   Forall (located text) (f terms m)) ->
  forall terms, Forall (located text) terms ->
                Forall (located text) (fold_left f ms terms).
Proof.
  induction ms as [|m ms IH]; intros Hf terms Ht; simpl; [assumption|].
  apply IH.
  - intros terms' m' Hin. apply Hf. now right.
  - apply Hf; [now left|assumption].
Qed.

Ltac locates :=
  repeat match goal with
         | |- Forall _ (if ?b then _ else _) =>
             destruct b; [|try assumption]
         end;
  try assumption;
  apply Forall_app; split; [assumption|];
  constructor; [|constructor].

Lemma quote_located (text : jsstring) (q : N) (ty : term_type) (m : jsmatch) :
  delimiters ty = Some (q, q) ->
  In m (matchAll no_flags
          (Seq (Chr q) (Seq (Group 1 (Star true (Cls true [(q, q)]))) (Chr q)))
          text) ->
  located text (mkTerm (m_text m) (trim (group m 1)) ty [] []).
Proof.
  intros Hty Hm. apply matchAll_occurs in Hm as [Ho (pre & suf & Hm)].
  split; [exact Ho|]. unfold shaped. cbn [type original content].
  rewrite Hty. apply delimited_match in Hm as [Ht Hg].
  exists (group m 1). repeat split; [exact Ht|].
  rewrite forallb_forall in *. intros x Hx. specialize (Hg x Hx).
  unfold cls_mem, in_ranges, in_range in Hg. simpl in Hg.
  rewrite !orb_false_r in Hg.
  destruct (x =? q)%N eqn:E; [|reflexivity].
  apply N.eqb_eq in E. subst x. now rewrite N.leb_refl in Hg.
Qed.

Lemma extract_located (text : jsstring) (ctx : context) :
  Forall (located text) (extractChineseTerms text ctx).
Proof.
  unfold extractChineseTerms.
  assert (H4 : Forall (located text)
                 (fold_left (templateStep text ctx)
                    (matchAll no_flags templateRegex text)
                    (fold_left (singleQuoteStep text ctx)
                       (matchAll no_flags singleQuoteRegex text)
                       (fold_left (i18nFieldStep text ctx)
                          (matchAll no_flags i18nFieldRegex text)
                          (fold_left (doubleQuoteStep text ctx)
                             (matchAll no_flags doubleQuoteRegex text) []))))).
  { apply fold_left_located.
    { intros terms m Hm Ht. unfold templateStep. locates.
      now apply (quote_located text (ch "`")). }
    apply fold_left_located.
    { intros terms m Hm Ht. unfold singleQuoteStep. locates.
      now apply (quote_located text (ch "'")). }
    apply fold_left_located.
    { intros terms m Hm Ht. unfold i18nFieldStep. locates.
      split; [|exact I]. now apply matchAll_occurs in Hm. }
    apply fold_left_located; [|constructor].
    intros terms m Hm Ht. unfold doubleQuoteStep. locates.
    now apply (quote_located text 34%N). }
  destruct ctx; [|exact H4].
  apply fold_left_located.
  { intros terms m Hm Ht. unfold buttonTextStep. locates.
    split; [|exact I]. now apply matchAll_occurs in Hm. }
  apply fold_left_located; [|exact H4].
  intros terms m Hm Ht. unfold tagContentStep. locates.
  apply matchAll_occurs in Hm as [Ho (pre & suf & Hm)].
  apply delimited_match in Hm as [Htx Hg].
  split.
  - cbn [original]. change (js ">" ++ group m 1 ++ js "<")
      with (ch ">" :: group m 1 ++ [ch "<"]). now rewrite <- Htx.
  - unfold shaped. cbn [type original content delimiters].
    exists (group m 1). repeat split.
    rewrite forallb_forall in *. intros x Hx. specialize (Hg x Hx).
    unfold cls_mem, in_ranges, in_range, one in Hg. simpl in Hg.
    rewrite !orb_false_r in Hg. apply negb_true_iff in Hg.
    apply orb_false_iff in Hg as [H1 H2].
    apply andb_true_iff. split; apply negb_true_iff, N.eqb_neq; intros ->;
      vm_compute in H1, H2; discriminate.
Qed.

(** X8.  The [original] of every term occurs in the scanned text.  For
    a double-quote, single-quote, template or tag-content term it is the
    opening delimiter, an inner text that holds no delimiter, and the
    closing delimiter, and [content] is the inner text trimmed. *)
Theorem extracted_terms_located (text : jsstring) (ctx : context) (t : term) :
  In t (extractChineseTerms text ctx) ->
  occurs (original t) text
  /\ match delimiters (type t) with
     | Some (o, c) =>
         exists inner,
           original t = o :: inner ++ [c]
           /\ content t = trim inner
           /\ forallb (fun x => negb (x =? o)%N && negb (x =? c)%N) inner
              = true
     | None => True
     end.
Proof.
  intros H. pose proof (extract_located text ctx) as HF.
  rewrite Forall_forall in HF. exact (HF t H).
Qed.

Lemma extracted_terms_located_witness :
  let text := js "const s = `共${n}条`;" in
  let t := mkTerm (js "`共${n}条`") (js "共${n}条") Template [] [] in
  In t (extractChineseTerms text ScriptCtx)
  /\ occurs (original t) text
  /\ exists inner,
       original t = ch "`" :: inner ++ [ch "`"]
       /\ content t = trim inner
       /\ forallb (fun x => negb (x =? ch "`")%N && negb (x =? ch "`")%N)
            inner = true.
Proof.
  cbv zeta.
  assert (H : In (mkTerm (js "`共${n}条`") (js "共${n}条") Template [] [])
                (extractChineseTerms (js "const s = `共${n}条`;") ScriptCtx)).
  { vm_compute. left. reflexivity. }
  split; [exact H|].
  exact (extracted_terms_located _ _ _ H).
Defined.

(** *** Patterns that cannot match *)

Lemma find_sub_tail (search : jsstring) (x : N) (t : jsstring) :
  find_sub search (x :: t) = None -> find_sub search t = None.
Proof.
  cbn [find_sub]. destruct (prefixb search (x :: t)); [discriminate|].
  now destruct (find_sub search t).
Qed.

Lemma find_sub_head (search s : jsstring) :
  find_sub search s = None -> prefixb search s = false.
Proof.
  destruct s; cbn [find_sub]; destruct (prefixb search _); auto; discriminate.
Qed.

Lemma includes_false (s search : jsstring) :
  includes s search = false <-> find_sub search s = None.
Proof. unfold includes. destruct (find_sub search s); split; congruence. Qed.

(** A pattern that begins with a literal finds nothing in a text that
    lacks the literal. *)
Lemma match_here_lit_then (p : jsstring) (r : regex) (pre suf : jsstring) :
  find_sub p suf = None ->
  match_here no_flags (Seq (lit p) r) pre suf = None.
Proof.
  intros H. unfold match_here. rewrite rmatch_Seq, rmatch_lit.
  cbn [after]. now rewrite (find_sub_head _ _ H).
Qed.

Lemma replaceAll_lacks_literal (p : jsstring) (r : regex) (repl s : jsstring) :
  includes s p = false ->
  replaceAll no_flags (Seq (lit p) r) repl s = s.
Proof.
  intros H. apply includes_false in H. unfold replaceAll.
  apply (replace_scan_dead (fun suf => find_sub p suf = None)
           (find_sub_tail p)); auto.
  intros pre suf. apply match_here_lit_then.
Qed.


Lemma lacks_tail (c0 x : N) (t : jsstring) :
  lacks c0 (x :: t) = true -> lacks c0 t = true.
Proof. unfold lacks. simpl. intros H. now apply andb_true_iff in H. Qed.

Lemma lacks_head (c0 x : N) (t : jsstring) :
  lacks c0 (x :: t) = true -> (c0 =? x)%N = false.
Proof.
  unfold lacks. simpl. intros H. apply andb_true_iff in H as [H _].
  apply negb_true_iff in H. now rewrite N.eqb_sym.
Qed.

Lemma lacks_includes (c0 : N) (s : jsstring) :
  lacks c0 s = true -> includes s [c0] = false.
Proof.
  intros H. apply includes_false.
  induction s as [|x t IH]; [reflexivity|].
  cbn [find_sub prefixb]. rewrite (lacks_head _ _ _ H). cbn [andb].
  now rewrite (IH (lacks_tail _ _ _ H)).
Qed.

Lemma toggle_case_other (x c0 : N) :
  in_range c0 97 122 = false -> in_range c0 65 90 = false ->
  (c0 =? toggle_case x)%N = true -> (c0 =? x)%N = true.
Proof.
  unfold toggle_case, in_range. intros H1 H2.
  destruct ((97 <=? x) && (x <=? 122))%N eqn:E1.
  - intros H. apply N.eqb_eq in H. subst c0.
    apply andb_true_iff in E1 as [A B]. apply N.leb_le in A, B.
    apply andb_false_iff in H2 as [H2|H2]; apply N.leb_gt in H2; lia.
  - destruct ((65 <=? x) && (x <=? 90))%N eqn:E2; [|auto].
    intros H. apply N.eqb_eq in H. subst c0.
    apply andb_true_iff in E2 as [A B]. apply N.leb_le in A, B.
    apply andb_false_iff in H1 as [H1|H1]; apply N.leb_gt in H1; lia.
Qed.

Lemma chr_eq_other (fl : flags) (c0 x : N) :
  in_range c0 97 122 = false -> in_range c0 65 90 = false ->
  chr_eq fl c0 x = (c0 =? x)%N.
Proof.
  intros H1 H2. unfold chr_eq.
  destruct (c0 =? x)%N eqn:E; [reflexivity|]. simpl.
  destruct (ignoreCase fl); [|reflexivity]. simpl.
  destruct (c0 =? toggle_case x)%N eqn:E'; [|reflexivity].
  apply (toggle_case_other _ _ H1 H2) in E'. congruence.
Qed.

Lemma rmatch_needs (fl : flags) (c0 : N) :
  in_range c0 97 122 = false -> in_range c0 65 90 = false ->
  forall r k st,
    needs c0 r = true -> lacks c0 (after st) = true ->
    rmatch fl r k st = None.
Proof.
  intros H1 H2.
  induction r as [|x|neg rs|a IHa b IHb|a IHa b IHb|g a IHa|n a IHa| | |];
    intros k st Hn Hl; cbn [needs] in Hn; try discriminate.
  - cbn [rmatch]. destruct (after st) as [|y t] eqn:Ea; [reflexivity|].
    apply N.eqb_eq in Hn. subst x.
    rewrite (chr_eq_other fl c0 y H1 H2).
    now rewrite (lacks_head _ _ _ Hl).
  - rewrite rmatch_Seq. apply orb_true_iff in Hn as [Hn|Hn].
    + now apply IHa.
    + apply (rmatch_dead (fun s => lacks c0 s = true)
               (fun y t => lacks_tail c0 y t)); [assumption|].
      intros st' Hl'. now apply IHb.
  - apply andb_true_iff in Hn as [Ha Hb]. cbn [rmatch].
    now rewrite IHa, IHb.
  - rewrite rmatch_Group. now apply IHa.
Qed.

Lemma match_here_needs (fl : flags) (c0 : N) (r : regex) (pre suf : jsstring) :
  in_range c0 97 122 = false -> in_range c0 65 90 = false ->
  needs c0 r = true -> lacks c0 suf = true ->
  match_here fl r pre suf = None.
Proof.
  intros H1 H2 Hn Hl. unfold match_here.
  now rewrite (rmatch_needs fl c0 H1 H2 r Some (mkState pre suf []) Hn Hl).
Qed.

Lemma test_needs (fl : flags) (c0 : N) (r : regex) (s : jsstring) :
  in_range c0 97 122 = false -> in_range c0 65 90 = false ->
  needs c0 r = true -> lacks c0 s = true -> test fl r s = false.
Proof.
  intros H1 H2 Hn Hl. unfold test, exec.
  rewrite (search_dead (fun s => lacks c0 s = true)
             (fun y t => lacks_tail c0 y t)); auto.
  intros pre suf. now apply match_here_needs.
Qed.

Lemma replaceAll_needs (fl : flags) (c0 : N) (r : regex) (repl s : jsstring) :
  in_range c0 97 122 = false -> in_range c0 65 90 = false ->
  needs c0 r = true -> lacks c0 s = true -> replaceAll fl r repl s = s.
Proof.
  intros H1 H2 Hn Hl. unfold replaceAll.
  apply (replace_scan_dead (fun s => lacks c0 s = true)
           (fun y t => lacks_tail c0 y t)); auto.
  intros pre suf. now apply match_here_needs.
Qed.

Lemma rmatch_lit_then_none (fl : flags) (p : jsstring) (r : regex) :
  ignoreCase fl = false ->
  forall k st, prefixb p (after st) = false ->
               rmatch fl (lit_then p r) k st = None.
Proof.
  intros Hfl. induction p as [|x p IH]; intros k st H; [discriminate|].
  cbn [lit_then]. rewrite rmatch_Seq. cbn [rmatch].
  destruct (after st) as [|y t] eqn:Ea; [reflexivity|].
  cbn [prefixb] in H. unfold chr_eq. rewrite Hfl. cbn [andb].
  rewrite orb_false_r.
  destruct (x =? y)%N; [|reflexivity]. cbn [andb] in H.
  now apply IH.
Qed.

Lemma replaceAll_lacks_opener (fl : flags) (p : jsstring) (r : regex)
  (repl s : jsstring) :
  ignoreCase fl = false ->
  includes s p = false ->
  replaceAll fl (lit_then p r) repl s = s.
Proof.
  intros Hfl H. apply includes_false in H. unfold replaceAll.
  apply (replace_scan_dead (fun suf => find_sub p suf = None)
           (find_sub_tail p)); auto.
  intros pre suf Hs. unfold match_here.
  rewrite (rmatch_lit_then_none fl p r Hfl); [reflexivity|].
  cbn [after]. now apply find_sub_head.
Qed.

(** X1.  A text that holds neither [//] nor [/*] nor [<!--] nor a [#]
    comes back from [removeComments] as it is. *)
Theorem removeComments_without_comment (text : jsstring) :
  includes text (js "//") = false ->
  includes text (js "/*") = false ->
  includes text (js "<!--") = false ->
  lacks (ch "#") text = true ->
  removeComments text = text.
Proof.
  intros H1 H2 H3 H4. unfold removeComments.
  change lineCommentRegex
    with (lit_then (js "//") (Seq (Star true dot) Eol)).
  rewrite (replaceAll_lacks_opener flag_m _ _ _ _ eq_refl H1).
  change blockCommentRegex
    with (lit_then (js "/*") (seqs [Star false any; c "*"; c "/"])).
  rewrite (replaceAll_lacks_opener no_flags _ _ _ _ eq_refl H2).
  change htmlCommentRegex
    with (Seq (lit (js "<!--")) (Seq (Star false any) (l "-->"))).
  rewrite (replaceAll_lacks_literal _ _ _ _ H3).
  apply (replaceAll_needs flag_m (ch "#")); auto.
Qed.

Lemma removeComments_without_comment_witness :
  includes (js "const a = 1 / 2;") (js "//") = false
  /\ includes (js "const a = 1 / 2;") (js "/*") = false
  /\ includes (js "const a = 1 / 2;") (js "<!--") = false
  /\ lacks (ch "#") (js "const a = 1 / 2;") = true
  /\ removeComments (js "const a = 1 / 2;") = js "const a = 1 / 2;".
Proof.
  repeat (split; [reflexivity|]).
  apply removeComments_without_comment; reflexivity.
Defined.

(** *** [isFilePath] and [isCodeLike] *)

Lemma extensionNames_patterns : fileExtensions = map lit extensionNames.
Proof. reflexivity. Qed.

Lemma isFilePath_some (text : jsstring) (p : flags * regex) (w suf : jsstring)
  (m : jsmatch) (before_ after_ : list (flags * regex)) :
  text = w ++ suf ->
  match_here (fst p) (snd p) (rev w) suf = Some m ->
  [ plain (seqs [Bol; c "."; Opt true (c "."); c "/"]);
    plain (seqs [Bol; c "@"; c "/"]);
    plain (seqs [Bol; c "~"; c "/"]);
    plain (seqs [Bol; c "/"; Cls true [one "/"]]);
    (flag_i, seqs [c "."; Group 1 (alts fileExtensions); Eol]) ]
  = before_ ++ p :: after_ ->
  isFilePath text = true.
Proof.
  intros -> Hm Hp. unfold isFilePath. rewrite Hp.
  match goal with |- (if ?b then _ else _) = _ => destruct b end;
    [reflexivity|].
  unfold some_test. rewrite existsb_app. cbn [existsb].
  rewrite (test_found _ _ _ _ _ Hm). apply orb_true_r.
Qed.

(** X4.  A text that begins with [./], [../], [@/] or [~/] is a file
    path, whatever follows; so is a text that ends in a dot and one of
    the thirty listed extensions, whatever stands before. *)
Theorem isFilePath_recognizes :
  (forall rest, isFilePath (js "./" ++ rest) = true)
  /\ (forall rest, isFilePath (js "../" ++ rest) = true)
  /\ (forall rest, isFilePath (js "@/" ++ rest) = true)
  /\ (forall rest, isFilePath (js "~/" ++ rest) = true)
  /\ (forall name e, In e extensionNames ->
                     isFilePath (name ++ js "." ++ e) = true).
Proof.
  split; [|split; [|split; [|split]]].
  - intros rest.
    eapply (isFilePath_some _ _ [] _ _ []); [reflexivity| |reflexivity].
    lazy. reflexivity.
  - intros rest.
    eapply (isFilePath_some _ _ [] _ _ []); [reflexivity| |reflexivity].
    lazy. reflexivity.
  - intros rest.
    eapply (isFilePath_some _ _ [] _ _ [_]); [reflexivity| |reflexivity].
    lazy. reflexivity.
  - intros rest.
    eapply (isFilePath_some _ _ [] _ _ [_; _]); [reflexivity| |reflexivity].
    lazy. reflexivity.
  - intros name e He.
    eapply (isFilePath_some _ _ name _ _ [_; _; _; _] []);
      [reflexivity| |reflexivity].
    cbn [fst snd].
    unfold extensionNames in He. cbn [map In] in He.
    repeat (destruct He as [<-|He]; [lazy; reflexivity|]).
    destruct He.
Qed.

(** X5.  A text with neither a dot nor a slash is no file path. *)
Theorem isFilePath_needs_dot_or_slash (text : jsstring) :
  lacks (ch ".") text = true -> lacks (ch "/") text = true ->
  isFilePath text = false.
Proof.
  intros Hd Hs. unfold isFilePath, some_test. cbn [existsb fst snd plain].
  repeat match goal with
         | |- context [test ?fl ?r text] =>
             first
               [ rewrite (test_needs fl (ch ".") r text eq_refl eq_refl
                            eq_refl Hd)
               | rewrite (test_needs fl (ch "/") r text eq_refl eq_refl
                            eq_refl Hs) ]
         end.
  now rewrite andb_false_r.
Qed.

Lemma isFilePath_needs_dot_or_slash_witness :
  lacks (ch ".") (js "用户名称") = true
  /\ lacks (ch "/") (js "用户名称") = true
  /\ isFilePath (js "用户名称") = false.
Proof.
  split; [reflexivity|]. split; [reflexivity|].
  apply isFilePath_needs_dot_or_slash; reflexivity.
Defined.

Lemma isFilePath_recognizes_witness :
  In (js "png") extensionNames
  /\ isFilePath (js "图片" ++ js "." ++ js "png") = true.
Proof.
  assert (H : In (js "png") extensionNames) by (left; reflexivity).
  split; [exact H|].
  exact (proj2 (proj2 (proj2 (proj2 isFilePath_recognizes))) (js "图片")
           (js "png") H).
Defined.

Lemma star_greedy_class_end (fl : flags) (neg : bool) (rs : list (N * N))
  (k : mstate -> option mstate) (e : mstate) :
  forall u n b cs,
    forallb (cls_mem fl neg rs) u = true ->
    (length u < n)%nat ->
    k (mkState (rev u ++ b) [] cs) = Some e ->
    star_loop (rmatch fl (Cls neg rs)) true k n (mkState b u cs) = Some e.
Proof.
  induction u as [|x u IH]; intros n b cs Hu Hn Hk;
    (destruct n as [|n]; [inversion Hn|]); cbn [star_loop].
  - cbn [rmatch after]. exact Hk.
  - cbn [forallb] in Hu. apply andb_true_iff in Hu as [Hx Hu].
    rewrite rmatch_cls_cons, Hx. cbn [after length].
    replace (length u <? S (length u))%nat
      with true by (symmetry; apply Nat.ltb_lt; lia).
    rewrite (IH n (x :: b) cs Hu); [reflexivity|simpl in Hn; lia|].
    cbn [rev] in Hk. now rewrite <- app_assoc in Hk.
Qed.

Lemma label_test (text : jsstring) :
  text <> [] ->
  forallb (in_ranges labelRanges) text = true ->
  test no_flags (seqs [Bol; Plus true (Cls false labelRanges); Eol]) text
  = true.
Proof.
  intros Hne Hall. destruct text as [|x u]; [congruence|].
  cbn [forallb] in Hall. apply andb_true_iff in Hall as [Hx Hu].
  unfold test, exec. cbn [search]. unfold match_here.
  cbn [seqs]. unfold Plus. rewrite rmatch_Seq.
  change (rmatch no_flags Bol ?k ?st)
    with (if at_bol no_flags st then k st else None).
  unfold at_bol. cbn [before].
  rewrite !rmatch_Seq, rmatch_cls_cons, cls_mem_plain, Hx, rmatch_Star.
  cbn [after].
  erewrite star_greedy_class_end; [reflexivity| |apply Nat.lt_succ_diag_r|].
  - rewrite forallb_forall in *. intros y Hy. rewrite cls_mem_plain. auto.
  - cbn [rmatch]. unfold at_eol. cbn [after]. reflexivity.
Qed.

(** X3.  On a non-empty text made only of characters of the target
    script, Latin letters, digits, white space, brackets and unit signs,
    the code patterns are not consulted: the text is code only where a
    call [word(] stands before any character of the target script.  Such
    a text without an opening parenthesis is never code, keywords
    included. *)
Theorem isCodeLike_label (text : jsstring) :
  text <> [] ->
  forallb (in_ranges labelRanges) text = true ->
  isCodeLike text
  = test no_flags (seqs [Plus true word; Star true ws; c "("]) text
    && negb (test no_flags cjk (split_head text (ch "(")))
  /\ (lacks (ch "(") text = true -> isCodeLike text = false).
Proof.
  intros Hne Hall.
  assert (E : isCodeLike text
              = test no_flags (seqs [Plus true word; Star true ws; c "("]) text
                && negb (test no_flags cjk (split_head text (ch "(")))).
  { unfold isCodeLike. rewrite (label_test text Hne Hall).
    now destruct (_ && _). }
  split; [exact E|].
  intros Hl. rewrite E.
  match goal with
  | |- context [test ?fl ?r text] =>
      now rewrite (test_needs fl (ch "(") r text eq_refl eq_refl eq_refl Hl)
  end.
Qed.

Lemma isCodeLike_label_witness :
  js "if 返回 return" <> []
  /\ forallb (in_ranges labelRanges) (js "if 返回 return") = true
  /\ lacks (ch "(") (js "if 返回 return") = true
  /\ isCodeLike (js "if 返回 return") = false.
Proof.
  assert (H1 : js "if 返回 return" <> []) by discriminate.
  assert (H2 : forallb (in_ranges labelRanges) (js "if 返回 return") = true)
    by reflexivity.
  assert (H3 : lacks (ch "(") (js "if 返回 return") = true) by reflexivity.
  repeat (split; [assumption|]).
  exact (proj2 (isCodeLike_label _ H1 H2) H3).
Defined.

(** *** [escapeRegExp] *)

Lemma search_lit (s : jsstring) :
  forall suf pre,
    search no_flags (lit s) pre suf
    = option_map (fun k => mkMatch (length pre + k) s []) (find_sub s suf).
Proof.
  induction suf as [|x t IH]; intros pre; cbn [search find_sub];
    rewrite match_here_lit.
  - destruct (prefixb s []); [|reflexivity]. simpl. now rewrite Nat.add_0_r.
  - destruct (prefixb s (x :: t)).
    + simpl. now rewrite Nat.add_0_r.
    + rewrite IH. destruct (find_sub s t); [|reflexivity]. simpl.
      do 2 f_equal. lia.
Qed.

(** X2.  [escapeRegExp] puts one backslash before each syntax character
    and leaves the other code units alone; the pattern compiled from its
    result matches the text itself and nothing else, so that its first
    match is the first occurrence of the text and [test] agrees with
    [includes]. *)
Theorem escapeRegExp_finds_literal (s text : jsstring) :
  escapeRegExp s = flat_map escapeUnit s
  /\ exec no_flags (RegExp (escapeRegExp s)) text
     = option_map (fun k => mkMatch k s []) (find_sub s text)
  /\ test no_flags (RegExp (escapeRegExp s)) text = includes text s.
Proof.
  split; [apply escapeRegExp_units|].
  assert (E : exec no_flags (RegExp (escapeRegExp s)) text
              = option_map (fun k => mkMatch k s []) (find_sub s text)).
  { rewrite RegExp_escapeRegExp. unfold exec. now rewrite search_lit. }
  split; [exact E|].
  unfold test, includes. rewrite E. now destruct (find_sub s text).
Qed.

(** *** Files are rewritten independently of the registry *)

Lemma processTsFile_independent (originalContent ext : jsstring) :
  exists keys text cnt, forall reg,
    (let st := processTsFile originalContent ext reg in
     mkFileResult (modifiedContent st) (scriptCount st) (scriptMap st))
    = mkFileResult text cnt (fold_left register keys reg).
Proof.
  unfold processTsFile. destruct (filter _ _).
  - exists [], originalContent, 0. reflexivity.
  - match goal with
    | |- context [fold_left (tsTermStep ?cfg) ?ts (mkScript ?b _ _ _)] =>
        destruct (tsTerms_register cfg ts b [] 0) as (ks & b' & p & c0 & H)
    end.
    exists ks, b', c0. intros reg. cbv zeta. now rewrite H.
Qed.

Lemma processVueFile_independent (originalContent : jsstring)
  (config : runConfig) :
  exists keys text cnt, forall reg,
    processVueFile originalContent config reg
    = mkFileResult text cnt (fold_left register keys reg).
Proof.
  unfold processVueFile.
  destruct (vueTemplatePart_registers originalContent config)
    as (ks & text & cnt & Ht).
  destruct (exec flag_i scriptBlockRegex originalContent) as [sm|];
    [destruct (processVueScript config)|];
    try (exists ks, text, cnt; intros reg; now rewrite Ht).
  match goal with
  | |- context [processScript ?sc ?tsx _ _] =>
      destruct (processScript_registers sc tsx cnt)
        as [Hn|(ks2 & b & p & c0 & Hs)]
  end.
  - exists ks, text, cnt. intros reg. rewrite Ht.
    cbn [resultMap resultCount]. now rewrite Hn.
  - exists (ks ++ ks2). eexists _, _. intros reg. rewrite Ht.
    cbn [resultMap resultCount resultContent].
    rewrite Hs. cbn [modifiedContent scriptCount scriptMap].
    rewrite fold_left_app. reflexivity.
Qed.

Lemma processFile_independent (ext originalContent : jsstring)
  (config : runConfig) :
  (forall reg, processFile ext originalContent config reg = None)
  \/ exists keys text cnt, forall reg,
       processFile ext originalContent config reg
       = Some (mkFileResult text cnt (fold_left register keys reg)).
Proof.
  unfold processFile. destruct (str_eqb ext (js ".vue")).
  - right.
    destruct (processVueFile_independent originalContent config)
      as (ks & text & cnt & H).
    exists ks, text, cnt. intros reg. now rewrite H.
  - destruct (str_eqb ext (js ".ts")); [|now left].
    destruct (processTs config); cbn [negb]; [|now left]. right.
    destruct (processTsFile_independent originalContent ext)
      as (ks & text & cnt & H).
    exists ks, text, cnt. intros reg. specialize (H reg). cbv zeta in H.
    now rewrite H.
Qed.

(** X20.  What a file is rewritten to, and the number of terms counted
    in it, do not depend on the keys registered before. *)
Theorem processFile_ignores_registry (ext originalContent : jsstring)
  (config : runConfig) (reg reg' : jsobject) :
  option_map (fun r => (resultContent r, resultCount r))
    (processFile ext originalContent config reg)
  = option_map (fun r => (resultContent r, resultCount r))
      (processFile ext originalContent config reg').
Proof.
  destruct (processFile_independent ext originalContent config)
    as [H|(ks & text & cnt & H)]; now rewrite !H.
Qed.

(** *** [processFile] on disk and the loop of [main] *)

(** Where the file can be read, [processFile] on disk is the rewrite of
    its content, followed by the write. *)
Lemma processFileOnDisk_read (f : diskFile) (config : cliConfig)
  (registry : jsobject) (originalContent : jsstring) :
  diskContent f = Some originalContent ->
  processFileOnDisk f config registry
  = match processFile (diskExt f) originalContent (switches config) registry
    with
    | Some result => writeBack config f result
    | None => mkAnswer true 0 registry
    end.
Proof.
  intros H. unfold processFileOnDisk, processFile. rewrite H.
  destruct (str_eqb (diskExt f) (js ".vue")); [reflexivity|].
  destruct (str_eqb (diskExt f) (js ".ts")); [|reflexivity].
  now destruct (processTs (switches config)).
Qed.

(** What a file is answered with does not depend on the registry, and
    the registry it leaves is the one it met with some keys registered. *)
Lemma processFileOnDisk_independent (f : diskFile) (config : cliConfig) :
  exists keys ok cnt, forall reg,
    processFileOnDisk f config reg
    = mkAnswer ok cnt (fold_left register keys reg).
Proof.
  unfold processFileOnDisk.
  destruct (str_eqb (diskExt f) (js ".vue")).
  - destruct (diskContent f) as [originalContent|];
      [|now exists [], false, 0].
    destruct (processVueFile_independent originalContent (switches config))
      as (ks & text & cnt & H).
    unfold writeBack.
    destruct (negb (dryRun config) && truthy text && negb (diskWritable f))
      eqn:E.
    + exists ks, false, 0. intros reg. rewrite H.
      cbn [resultContent resultMap]. now rewrite E.
    + exists ks, true, cnt. intros reg. rewrite H.
      cbn [resultContent resultMap resultCount]. now rewrite E.
  - destruct (str_eqb (diskExt f) (js ".ts")); [|now exists [], true, 0].
    destruct (processTs (switches config)); cbn [negb];
      [|now exists [], true, 0].
    destruct (diskContent f) as [originalContent|];
      [|now exists [], false, 0].
    destruct (processTsFile_independent originalContent (diskExt f))
      as (ks & text & cnt & H).
    unfold writeBack.
    destruct (negb (dryRun config) && truthy text && negb (diskWritable f))
      eqn:E.
    + exists ks, false, 0. intros reg. specialize (H reg). cbv zeta in H |- *.
      rewrite H. cbn [resultContent resultMap]. now rewrite E.
    + exists ks, true, cnt. intros reg. specialize (H reg). cbv zeta in H |- *.
      rewrite H. cbn [resultContent resultMap resultCount]. now rewrite E.
Qed.

Lemma runStep_shape (config : cliConfig) (f : diskFile) (reg0 : jsobject) :
  exists keys cnt, forall st,
    runStep config st f
    = mkRun (fold_left register keys (runMap st)) (totalExtracted st + cnt)
        (successCount st
         + (if success (processFileOnDisk f config reg0) then 1 else 0)).
Proof.
  unfold runStep.
  destruct (processFileOnDisk_independent f config) as (ks & ok & cnt & H).
  rewrite (H reg0). cbn [success]. destruct ok.
  - exists ks, cnt. intros st. rewrite H. reflexivity.
  - exists ks, 0. intros st. rewrite H. cbn [success answerMap].
    f_equal; lia.
Qed.

Lemma sameRun_refl (a : runState) : sameRun a a.
Proof. repeat split. Qed.

Lemma sameRun_trans (a b d : runState) :
  sameRun a b -> sameRun b d -> sameRun a d.
Proof.
  intros (H1 & H2 & H3) (G1 & G2 & G3).
  split; [|split]; [|congruence|congruence].
  intros k. now rewrite H1.
Qed.

Lemma runStep_sameRun (config : cliConfig) (f : diskFile) (a b : runState) :
  sameRun a b -> sameRun (runStep config a f) (runStep config b f).
Proof.
  intros (H1 & H2 & H3).
  destruct (runStep_shape config f []) as (ks & cnt & H). rewrite !H.
  split; [|split]; cbn [runMap totalExtracted successCount];
    [|congruence|congruence].
  intros k. rewrite !ObjFacts.get_register_all. now rewrite H1.
Qed.

Lemma runStep_swap (config : cliConfig) (f g : diskFile) (a : runState) :
  sameRun (runStep config (runStep config a f) g)
    (runStep config (runStep config a g) f).
Proof.
  destruct (runStep_shape config f []) as (ks & cnt & Hf).
  destruct (runStep_shape config g []) as (ks' & cnt' & Hg).
  rewrite ?Hf, ?Hg, ?Hf. cbn [runMap totalExtracted successCount].
  split; [|split]; cbn [runMap totalExtracted successCount]; [|lia|lia].
  intros k. rewrite !ObjFacts.get_register_all.
  destruct (registered ks k), (registered ks' k); reflexivity.
Qed.

Lemma fold_runStep_sameRun (config : cliConfig) (files : list diskFile) :
  forall a b, sameRun a b ->
              sameRun (fold_left (runStep config) files a)
                (fold_left (runStep config) files b).
Proof.
  induction files as [|f files IH]; intros a b H; simpl; [exact H|].
  apply IH. now apply runStep_sameRun.
Qed.

Lemma fold_runStep_permutation (config : cliConfig)
  (files files' : list diskFile) :
  Permutation files files' ->
  forall a, sameRun (fold_left (runStep config) files a)
              (fold_left (runStep config) files' a).
Proof.
  induction 1 as [|f l l' _ IH|f g l|l l' l'' _ IH1 _ IH2]; intros a; simpl.
  - apply sameRun_refl.
  - apply IH.
  - apply fold_runStep_sameRun, runStep_swap.
  - eapply sameRun_trans; [apply IH1|apply IH2].
Qed.

(** X21.  The order in which the files are handled changes neither what
    a lookup in the final registry answers nor the counts of the
    summary. *)
Theorem run_order_irrelevant (config : cliConfig)
  (files files' : list diskFile) (registry : jsobject) :
  Permutation files files' ->
  (forall k, Obj.get (runMap (runFiles config files registry)) k
             = Obj.get (runMap (runFiles config files' registry)) k)
  /\ totalExtracted (runFiles config files registry)
     = totalExtracted (runFiles config files' registry)
  /\ successCount (runFiles config files registry)
     = successCount (runFiles config files' registry).
Proof.
  intros H. exact (fold_runStep_permutation config files files' H _).
Qed.

Lemma run_order_irrelevant_witness :
  let a := mkDiskFile (js ".ts") (Some Examples.scriptFile) true in
  let b := mkDiskFile (js ".vue") (Some Examples.page) true in
  Permutation [a; b] [b; a]
  /\ totalExtracted (runFiles (defaultConfig (js "src")) [a; b] [])
     = totalExtracted (runFiles (defaultConfig (js "src")) [b; a] []).
Proof.
  cbv zeta.
  assert (H : Permutation
                [mkDiskFile (js ".ts") (Some Examples.scriptFile) true;
                 mkDiskFile (js ".vue") (Some Examples.page) true]
                [mkDiskFile (js ".vue") (Some Examples.page) true;
                 mkDiskFile (js ".ts") (Some Examples.scriptFile) true])
    by apply perm_swap.
  split; [exact H|].
  exact (proj1 (proj2 (run_order_irrelevant (defaultConfig (js "src")) _ _ []
                         H))).
Defined.

Lemma fold_register_keeps (keys : list jsstring) (reg : jsobject)
  (k v : jsstring) :
  Obj.get reg k = Some v ->
  Obj.get (fold_left register keys reg) k
  = Some (if registered keys k then k else v).
Proof.
  intros H. rewrite ObjFacts.get_register_all, H.
  now destruct (registered keys k).
Qed.

(** The files that [processFile] answers with [success: true]. *)
Lemma fold_runStep_shape (config : cliConfig) (files : list diskFile)
  (reg0 : jsobject) :
  exists keys, forall a,
    runMap (fold_left (runStep config) files a)
    = fold_left register keys (runMap a)
    /\ successCount (fold_left (runStep config) files a)
       = successCount a
         + Z.of_nat
             (length (filter (fun f => success (processFileOnDisk f config reg0))
                        files)).
Proof.
  induction files as [|f files (ks & IH)].
  - exists []. intros a. simpl. split; [reflexivity|lia].
  - destruct (runStep_shape config f reg0) as (ks0 & cnt & H).
    exists (ks0 ++ ks). intros a. cbn [fold_left filter].
    destruct (IH (runStep config a f)) as [E1 E2].
    rewrite E1, E2, H. cbn [runMap successCount].
    rewrite fold_left_app. split; [reflexivity|].
    destruct (success (processFileOnDisk f config reg0)); cbn [length]; lia.
Qed.

Lemma readable_succeeds (config : cliConfig) (f : diskFile) (reg : jsobject) :
  (isRead config f = true ->
   diskContent f <> None /\ diskWritable f = true) ->
  success (processFileOnDisk f config reg) = true.
Proof.
  unfold isRead, processFileOnDisk, writeBack. intros H.
  destruct (str_eqb (diskExt f) (js ".vue")).
  - destruct (H eq_refl) as [Hc Hw].
    destruct (diskContent f); [|now elim Hc].
    rewrite Hw. cbn [negb]. now rewrite andb_false_r.
  - destruct (str_eqb (diskExt f) (js ".ts")); [|reflexivity].
    destruct (processTs (switches config)); [|reflexivity].
    destruct (H eq_refl) as [Hc Hw]. cbn [negb].
    destruct (diskContent f); [|now elim Hc].
    cbv zeta. rewrite Hw. cbn [negb]. now rewrite andb_false_r.
Qed.

Lemma unreadable_fails (config : cliConfig) (f : diskFile) (reg : jsobject) :
  isRead config f = true -> diskContent f = None ->
  processFileOnDisk f config reg = mkAnswer false 0 reg.
Proof.
  unfold isRead, processFileOnDisk. intros H Hc. rewrite Hc.
  destruct (str_eqb (diskExt f) (js ".vue")); [reflexivity|].
  destruct (str_eqb (diskExt f) (js ".ts")); [|discriminate].
  cbn [orb andb] in H. now rewrite H.
Qed.

(** X22.  A run never drops a key: an entry that was there is still
    there afterwards, with its text or with the key itself as text, and
    every other entry of the result maps a key to itself.  The files
    counted as handled are those [processFile] answers with success:
    all of them when every file that is read can be read and written,
    and a file that cannot be read is not counted and changes
    nothing. *)
Theorem run_keeps_entries (config : cliConfig) (files : list diskFile)
  (registry : jsobject) (k : jsstring) :
  (forall v, Obj.get registry k = Some v ->
             Obj.get (runMap (runFiles config files registry)) k = Some v
             \/ Obj.get (runMap (runFiles config files registry)) k = Some k)
  /\ (forall v, Obj.get (runMap (runFiles config files registry)) k = Some v ->
                Obj.get registry k = Some v \/ v = k)
  /\ successCount (runFiles config files registry)
     = Z.of_nat
         (length (filter (fun f => success (processFileOnDisk f config registry))
                    files))
  /\ 0 <= successCount (runFiles config files registry)
       <= Z.of_nat (length files)
  /\ (Forall (fun f => isRead config f = true ->
                       diskContent f <> None /\ diskWritable f = true) files ->
      successCount (runFiles config files registry)
      = Z.of_nat (length files))
  /\ (forall f st,
        isRead config f = true -> diskContent f = None ->
        runStep config st f = st).
Proof.
  unfold runFiles.
  destruct (fold_runStep_shape config files registry) as (ks & H).
  destruct (H (mkRun registry 0 0)) as [E1 E2]. rewrite E1, E2.
  cbn [runMap successCount].
  split; [|split; [|split; [|split; [|split]]]].
  - intros v Hv. rewrite (fold_register_keeps ks _ _ _ Hv).
    destruct (registered ks k); auto.
  - intros v. rewrite ObjFacts.get_register_all.
    destruct (registered ks k); [intros [= <-]; now right|now left].
  - lia.
  - pose proof (filter_length_le
                  (fun f => success (processFileOnDisk f config registry))
                  files). lia.
  - intros Hall. rewrite forallb_filter_id; [lia|].
    apply forallb_forall. intros f Hf. rewrite Forall_forall in Hall.
    apply readable_succeeds. now apply Hall.
  - intros f st Hr Hc. unfold runStep.
    rewrite (unreadable_fails config f (runMap st) Hr Hc).
    cbn [success answerMap]. now destruct st.
Qed.

Lemma run_keeps_entries_witness :
  let script := mkDiskFile (js ".ts") (Some Examples.scriptFile) true in
  let unreadable := mkDiskFile (js ".vue") None true in
  let config := defaultConfig (js "src") in
  let registry := [(js "保存", js "Save")] in
  Obj.get registry (js "保存") = Some (js "Save")
  /\ (Obj.get (runMap (runFiles config [script; unreadable] registry))
        (js "保存")
      = Some (js "Save")
      \/ Obj.get (runMap (runFiles config [script; unreadable] registry))
           (js "保存")
         = Some (js "保存"))
  /\ successCount (runFiles config [script; unreadable] registry) = 1
  /\ Forall (fun f => isRead config f = true ->
                      diskContent f <> None /\ diskWritable f = true)
       [script]
  /\ successCount (runFiles config [script] registry) = 1
  /\ isRead config unreadable = true
  /\ diskContent unreadable = None
  /\ runStep config (mkRun registry 0 0) unreadable = mkRun registry 0 0.
Proof.
  cbv zeta.
  assert (H : Obj.get [(js "保存", js "Save")] (js "保存") = Some (js "Save"))
    by reflexivity.
  assert (Hall : Forall (fun f => isRead (defaultConfig (js "src")) f = true ->
                                  diskContent f <> None
                                  /\ diskWritable f = true)
                   [mkDiskFile (js ".ts") (Some Examples.scriptFile) true]).
  { constructor; [|constructor]. intros _. split; [discriminate|reflexivity]. }
  split; [exact H|].
  destruct (run_keeps_entries (defaultConfig (js "src"))
              [mkDiskFile (js ".ts") (Some Examples.scriptFile) true;
               mkDiskFile (js ".vue") None true]
              [(js "保存", js "Save")] (js "保存"))
    as (H1 & _ & H3 & _ & _ & H6).
  split; [exact (H1 _ H)|].
  split; [rewrite H3; vm_compute; reflexivity|].
  split; [exact Hall|].
  split.
  { exact (proj1 (proj2 (proj2 (proj2 (proj2
             (run_keeps_entries (defaultConfig (js "src"))
                [mkDiskFile (js ".ts") (Some Examples.scriptFile) true]
                [(js "保存", js "Save")] (js "保存")))))) Hall). }
  split; [reflexivity|]. split; [reflexivity|].
  exact (H6 (mkDiskFile (js ".vue") None true)
           (mkRun [(js "保存", js "Save")] 0 0) eq_refl eq_refl).
Defined.

(** *** The import section of a script file *)

Lemma star_loop_total
  (ma : (mstate -> option mstate) -> mstate -> option mstate) (g : bool)
  (k : mstate -> option mstate) :
  (forall st, k st <> None) ->
  forall n st, star_loop ma g k n st <> None.
Proof.
  intros Hk n st. destruct n as [|n]; cbn [star_loop]; [apply Hk|].
  destruct g.
  - destruct (ma _ st); [discriminate|apply Hk].
  - specialize (Hk st). destruct (k st); [discriminate|contradiction].
Qed.

(** X17.  The pattern for the import section matches every text, at its
    start: the branch of [processTsFile] that puts the import before the
    whole file is never taken, and the import section is a prefix of the
    file. *)
Theorem importRegex_matches_at_start (text : jsstring) :
  exists m rest,
    exec flag_m importRegex text = Some m
    /\ m_index m = 0%nat
    /\ text = m_text m ++ rest.
Proof.
  assert (H : match_here flag_m importRegex [] text <> None).
  { unfold match_here, importRegex. cbn [seqs].
    rewrite rmatch_Seq.
    change (rmatch flag_m Bol ?k ?st)
      with (if at_bol flag_m st then k st else None).
    unfold at_bol. cbn [before].
    rewrite rmatch_Seq, rmatch_Group, rmatch_Star.
    match goal with
    | |- match ?s with _ => _ end <> None =>
        assert (Hs : s <> None); [|destruct s; congruence]
    end.
    apply star_loop_total. intros st. rewrite rmatch_Star.
    apply star_loop_total. discriminate. }
  destruct (match_here flag_m importRegex [] text) as [m|] eqn:E;
    [|contradiction].
  destruct (match_here_prefix _ _ _ _ _ E) as [Hi [rest Hr]].
  exists m, rest. repeat split; [|exact Hi|exact Hr].
  unfold exec. destruct text; cbn [search]; now rewrite E.
Qed.

(** *** The lines of a script *)

Lemma splitLines_cons (s line : jsstring) :
  exists first others, splitLines s line = first :: others.
Proof.
  revert line. induction s as [|x t IH]; intros line; cbn [splitLines].
  - now exists (rev line), [].
  - destruct (x =? 10)%N; [now eexists _, _|apply IH].
Qed.

Lemma join_cons (sep p : jsstring) (q : jsstring) (rest : list jsstring) :
  join sep (p :: q :: rest) = p ++ sep ++ join sep (q :: rest).
Proof. reflexivity. Qed.

Lemma join_splitLines (s : jsstring) :
  forall line, join nl (splitLines s line) = rev line ++ s.
Proof.
  induction s as [|x t IH]; intros line; cbn [splitLines].
  - simpl. now rewrite app_nil_r.
  - destruct (x =? 10)%N eqn:E.
    + apply N.eqb_eq in E. subst x.
      destruct (splitLines_cons t []) as (f & o & Hs).
      specialize (IH []). rewrite Hs in *. rewrite join_cons, IH.
      reflexivity.
    + rewrite IH. cbn [rev]. now rewrite <- app_assoc.
Qed.

Lemma lastImportLoop_range (lines : list jsstring) :
  forall i last inImport,
    lastImportLoop lines i last inImport = last
    \/ i <= lastImportLoop lines i last inImport
         < i + Z.of_nat (length lines).
Proof.
  induction lines as [|line rest IH]; intros i last inImport;
    cbn [lastImportLoop]; [now left|].
  assert (Hstep : forall b,
             lastImportLoop rest (i + 1) i b = last
             \/ i <= lastImportLoop rest (i + 1) i b
                  < i + Z.of_nat (length (line :: rest))).
  { intros b. right. cbn [length].
    destruct (IH (i + 1) i b) as [->|H]; lia. }
  assert (Hskip : lastImportLoop rest (i + 1) last inImport = last
                  \/ i <= lastImportLoop rest (i + 1) last inImport
                       < i + Z.of_nat (length (line :: rest))).
  { cbn [length]. destruct (IH (i + 1) last inImport) as [->|H];
      [now left|right; lia]. }
  destruct (_ || _ || _); [exact Hskip|].
  destruct (startsWith _ _); [apply Hstep|].
  destruct inImport; [apply Hstep|].
  destruct (_ && _ && _); [now left|exact Hskip].
Qed.

Lemma skipBlankLines_split (lines : list jsstring) :
  forall i, exists blanks post,
    lines = blanks ++ post
    /\ Forall blank blanks
    /\ match post with
       | [] => True
       | line :: _ => truthy (trim line) = true
       end
    /\ skipBlankLines lines i = i + Z.of_nat (length blanks).
Proof.
  induction lines as [|line rest IH]; intros i; cbn [skipBlankLines].
  - exists [], []. repeat split; [constructor|simpl; lia].
  - destruct (truthy (trim line)) eqn:E; cbn [negb].
    + exists [], (line :: rest). repeat split; [constructor|exact E|simpl; lia].
    + destruct (IH (i + 1)) as (bs & post & -> & Hb & Hp & Hi).
      exists (line :: bs), post. repeat split; [|exact Hp|].
      * constructor; [|exact Hb]. unfold blank. now destruct (trim line).
      * rewrite Hi. cbn [length]. lia.
Qed.

Lemma spliceIn_app (a b items : list jsstring) :
  spliceIn (a ++ b) (Z.of_nat (length a)) items = a ++ items ++ b.
Proof.
  unfold spliceIn. rewrite Nat2Z.id.
  rewrite firstn_app, Nat.sub_diag, firstn_all, skipn_app, Nat.sub_diag.
  rewrite skipn_all. simpl. now rewrite app_nil_r.
Qed.

(** The instance statement goes after the blank lines that follow line
    [n - 1]. *)
Lemma insert_instance (lines : list jsstring) (n : nat) (inst : jsstring) :
  (n <= length lines)%nat ->
  exists blanks post,
    skipn n lines = blanks ++ post
    /\ Forall blank blanks
    /\ match post with
       | [] => True
       | line :: _ => truthy (trim line) = true
       end
    /\ (let insertIndex := skipBlankLines (skipn n lines) (Z.of_nat n) in
        if insertIndex <? Z.of_nat (length lines)
        then spliceIn lines insertIndex [[]; inst]
        else lines ++ [[]; inst])
       = firstn n lines ++ blanks ++ [[]; inst] ++ post.
Proof.
  intros Hn.
  destruct (skipBlankLines_split (skipn n lines) (Z.of_nat n))
    as (bs & post & Hs & Hb & Hp & Hi).
  exists bs, post. repeat split; try assumption.
  cbv zeta. rewrite Hi.
  assert (Hlines : lines = (firstn n lines ++ bs) ++ post).
  { rewrite <- app_assoc, <- Hs. symmetry. apply firstn_skipn. }
  assert (Hlen : length (firstn n lines ++ bs) = (n + length bs)%nat).
  { rewrite length_app, length_firstn. lia. }
  replace (Z.of_nat n + Z.of_nat (length bs))
    with (Z.of_nat (length (firstn n lines ++ bs))) by lia.
  destruct (_ <? _) eqn:E.
  - rewrite Hlines at 1. rewrite spliceIn_app. now rewrite <- app_assoc.
  - apply Z.ltb_ge in E.
    assert (post = []) as ->.
    { apply (f_equal (@length jsstring)) in Hlines.
      rewrite length_app in Hlines. destruct post; [reflexivity|].
      cbn [length] in Hlines. lia. }
    rewrite app_nil_r in Hlines. rewrite Hlines at 1.
    now rewrite <- app_assoc.
Qed.

(** *** Where [addUseI18n] puts the import *)

Lemma importLine_no_comment (line : jsstring) :
  importLine line = true -> commentLine line = false.
Proof.
  unfold importLine, commentLine, startsWith. intros H.
  apply prefixb_true in H. rewrite H. reflexivity.
Qed.

(** Without an import line the loop finds nothing. *)
Lemma lastImportLoop_none (lines : list jsstring) :
  Forall (fun line => importLine line = false) lines ->
  forall i, lastImportLoop lines i (-1) false = -1.
Proof.
  induction 1 as [|line rest Hl _ IH]; intros i; cbn [lastImportLoop];
    [reflexivity|].
  unfold importLine in Hl. rewrite Hl.
  destruct (_ || _ || _); [apply IH|].
  change (0 <=? -1) with false. rewrite andb_false_r. apply IH.
Qed.

(** Up to the first import line the loop passes over every line. *)
Lemma lastImportLoop_first (head : list jsstring) (line : jsstring)
  (rest : list jsstring) :
  Forall (fun l => importLine l = false) head ->
  importLine line = true ->
  forall i,
    lastImportLoop (head ++ line :: rest) i (-1) false
    = lastImportLoop rest (i + Z.of_nat (length head) + 1)
        (i + Z.of_nat (length head)) (negb (endsImport (trim line))).
Proof.
  intros Hhead Hline. induction Hhead as [|l0 head Hl _ IH]; intros i;
    cbn [app lastImportLoop length].
  - pose proof (importLine_no_comment line Hline) as Hc.
    unfold commentLine in Hc. rewrite Hc.
    unfold importLine in Hline. rewrite Hline.
    now rewrite Z.add_0_r.
  - unfold importLine in Hl. rewrite Hl.
    replace (i + Z.of_nat (S (length head)) + 1)
      with (i + 1 + Z.of_nat (length head) + 1) by lia.
    replace (i + Z.of_nat (S (length head)))
      with (i + 1 + Z.of_nat (length head)) by lia.
    destruct (_ || _ || _); [apply IH|].
    change (0 <=? -1) with false. rewrite andb_false_r. apply IH.
Qed.

(** After an import that ended, the loop goes on over imports, comments
    and blank lines and stops at the first line of code. *)
Lemma lastImportLoop_group (lines : list jsstring) :
  Forall singleLineImport lines ->
  forall i last,
    0 <= i -> 0 <= last ->
    exists group skipped tail,
      lines = group ++ skipped ++ tail
      /\ lastImportLoop lines i last false
         = match group with
           | [] => last
           | _ :: _ => i + Z.of_nat (length group) - 1
           end
      /\ (group = [] \/ exists g l, group = g ++ [l] /\ importLine l = true)
      /\ Forall (fun l => importLine l || passedLine l = true) group
      /\ Forall (fun l => passedLine l = true) skipped
      /\ codeAhead tail.
Proof.
  induction 1 as [|line rest Hline _ IH]; intros i last Hi Hlast.
  - exists [], [], []. split; [reflexivity|]. split; [reflexivity|].
    split; [now left|]. split; [constructor|]. split; [constructor|exact I].
  - assert (Hstep : forall last0 : Z,
               0 <= last0 ->
               importLine line || passedLine line = true ->
               (importLine line = true -> last0 = i) ->
               exists group skipped tail,
                 line :: rest = group ++ skipped ++ tail
                 /\ lastImportLoop rest (i + 1) last0 false
                    = match group with
                      | [] => if importLine line then i else last0
                      | _ :: _ => i + Z.of_nat (length group) - 1
                      end
                 /\ (group = []
                     \/ exists g l, group = g ++ [l] /\ importLine l = true)
                 /\ Forall (fun l => importLine l || passedLine l = true) group
                 /\ Forall (fun l => passedLine l = true) skipped
                 /\ codeAhead tail
                 /\ (importLine line = true -> group <> [])).
    { intros last0 Hlast0 Hp Himp.
      destruct (IH (i + 1) last0 ltac:(lia) Hlast0)
        as (g & sk & tl & Hs & Hr & Hg & Fg & Fs & Ht).
      destruct g as [|g0 g].
      - destruct (importLine line) eqn:Ei.
        + exists [line], sk, tl. cbn [app] in *.
          split; [now rewrite Hs|].
          split; [rewrite Hr, (Himp eq_refl); cbn [length]; lia|].
          split; [right; exists [], line; now split|].
          split; [constructor; [now rewrite Ei|constructor]|].
          split; [exact Fs|]. split; [exact Ht|discriminate].
        + exists [], (line :: sk), tl. cbn [app] in *.
          split; [now rewrite Hs|]. split; [exact Hr|].
          split; [now left|]. split; [constructor|].
          split; [constructor; [exact Hp|exact Fs]|].
          split; [exact Ht|discriminate].
      - exists (line :: g0 :: g), sk, tl. cbn [app] in *.
        split; [now rewrite Hs|].
        split; [rewrite Hr; cbn [length]; lia|].
        split.
        { right. destruct Hg as [Hg|(g' & l0 & Hg & Hl)]; [discriminate|].
          exists (line :: g'), l0. cbn [app]. now rewrite Hg. }
        split; [constructor; [exact Hp|exact Fg]|].
        split; [exact Fs|]. split; [exact Ht|discriminate]. }
    cbn [lastImportLoop].
    destruct (startsWith (trim line) (js "//") || startsWith (trim line) (js "/*")
              || startsWith (trim line) (js "*")) eqn:Ec.
    + assert (Hi0 : importLine line = false).
      { destruct (importLine line) eqn:E; [|reflexivity].
        apply importLine_no_comment in E. unfold commentLine in E.
        congruence. }
      destruct (Hstep last Hlast) as (g & sk & tl & H1 & H2 & H3 & H4 & H5 & H6 & _).
      { unfold passedLine, commentLine. rewrite Ec. apply orb_true_r. }
      { rewrite Hi0. discriminate. }
      rewrite Hi0 in H2. exists g, sk, tl. repeat (split; [assumption|]).
      assumption.
    + destruct (startsWith (trim line) (js "import ")) eqn:Ei.
      * rewrite (Hline Ei). cbn [negb].
        destruct (Hstep i Hi) as (g & sk & tl & H1 & H2 & H3 & H4 & H5 & H6 & H7).
        { unfold importLine. now rewrite Ei. }
        { reflexivity. }
        unfold importLine in H2, H7. rewrite Ei in H2.
        exists g, sk, tl. split; [assumption|]. split.
        { rewrite H2. destruct g; [now elim (H7 Ei)|reflexivity]. }
        repeat (split; [assumption|]). assumption.
      * destruct (truthy (trim line)) eqn:Et.
        -- replace (0 <=? last) with true by (symmetry; apply Z.leb_le; lia).
           cbn [negb andb].
           exists [], [], (line :: rest). split; [reflexivity|].
           split; [reflexivity|]. split; [now left|]. split; [constructor|].
           split; [constructor|].
           unfold codeAhead, codeLine, commentLine, importLine.
           now rewrite Et, Ec, Ei.
        -- cbn [andb].
           destruct (Hstep last Hlast)
             as (g & sk & tl & H1 & H2 & H3 & H4 & H5 & H6 & _).
           { unfold passedLine. rewrite Et. cbn [negb].
             now rewrite !orb_true_r. }
           { unfold importLine. rewrite Ei. discriminate. }
           unfold importLine in H2. rewrite Ei in H2.
           exists g, sk, tl. repeat (split; [assumption|]). assumption.
Qed.

Lemma addUseI18n_top (scriptContent : jsstring) :
  lastImportLoop (splitLines scriptContent []) 0 (-1) false = -1 ->
  exists blanks post,
    splitLines scriptContent [] = blanks ++ post
    /\ Forall blank blanks
    /\ textAhead post
    /\ addUseI18n scriptContent
       = join nl ([vueImportStatement (vue userConfig); []] ++ blanks
                    ++ [[]; instanceStatement (vue userConfig)] ++ post).
Proof.
  intros Hl. unfold addUseI18n.
  set (lines := splitLines scriptContent []) in *.
  set (imp := vueImportStatement (vue userConfig)).
  set (inst := instanceStatement (vue userConfig)).
  rewrite Hl. change (0 <=? -1) with false. cbv iota beta.
  change (0 + 1) with (Z.of_nat 1).
  destruct (insert_instance ([imp; []] ++ lines) 1 inst)
    as (bs & post & Hs & Hb & Hp & Hi); [cbn [length app]; lia|].
  cbv zeta in Hi. rewrite Nat2Z.id. rewrite Hi.
  cbn [app skipn firstn] in Hs |- *.
  destruct bs as [|b bs].
  - cbn [app] in Hs. subst post. now vm_compute in Hp.
  - cbn [app] in Hs. injection Hs as <- Hs.
    exists bs, post. cbn [app].
    split; [exact Hs|]. split; [now inversion Hb|]. split; [exact Hp|].
    reflexivity.
Qed.

Lemma addUseI18n_found (scriptContent : jsstring) (n0 : nat) :
  lastImportLoop (splitLines scriptContent []) 0 (-1) false
  = Z.of_nat n0 - 1 ->
  (0 < n0 <= length (splitLines scriptContent []))%nat ->
  exists blanks post,
    skipn n0 (splitLines scriptContent []) = blanks ++ post
    /\ Forall blank blanks
    /\ textAhead post
    /\ addUseI18n scriptContent
       = join nl (firstn n0 (splitLines scriptContent [])
                    ++ [vueImportStatement (vue userConfig)] ++ blanks
                    ++ [[]; instanceStatement (vue userConfig)] ++ post).
Proof.
  intros Hl Hn0. unfold addUseI18n.
  set (lines := splitLines scriptContent []) in *.
  set (imp := vueImportStatement (vue userConfig)).
  set (inst := instanceStatement (vue userConfig)).
  rewrite Hl.
  replace (0 <=? Z.of_nat n0 - 1) with true by (symmetry; apply Z.leb_le; lia).
  cbv iota beta.
  replace (Z.of_nat n0 - 1 + 1) with (Z.of_nat n0) by lia.
  assert (Hl1 : spliceIn lines (Z.of_nat n0) [imp]
                = (firstn n0 lines ++ [imp]) ++ skipn n0 lines).
  { unfold spliceIn. rewrite Nat2Z.id. now rewrite <- app_assoc. }
  rewrite Hl1.
  replace (Z.of_nat n0 + 1) with (Z.of_nat (S n0)) by lia.
  destruct (insert_instance ((firstn n0 lines ++ [imp]) ++ skipn n0 lines)
              (S n0) inst) as (bs & post & Hs & Hb & Hp & Hi).
  { rewrite !length_app, length_firstn, length_skipn. cbn [length]. lia. }
  cbv zeta in Hi. rewrite Nat2Z.id. rewrite Hi.
  assert (Hlen : length (firstn n0 lines ++ [imp]) = S n0).
  { rewrite length_app, length_firstn. cbn [length]. lia. }
  rewrite <- Hlen in Hs |- *.
  rewrite skipn_app, Nat.sub_diag, skipn_all in Hs. cbn [app skipn] in Hs.
  rewrite firstn_app, Nat.sub_diag, firstn_all. cbn [firstn].
  rewrite app_nil_r.
  exists bs, post.
  split; [exact Hs|]. split; [exact Hb|]. split; [exact Hp|].
  now rewrite <- !app_assoc.
Qed.

(** X14.  Joining the lines of a script gives the script back, and the
    import statement and the instance statement are inserted as lines of
    their own; no line of the script is lost or moved.  Where no line
    begins an import, the import statement goes on top with an empty
    line after it.  Where the imports end on the line they begin on, it
    goes right after the last import line of the first import section:
    the imports, comments and blank lines from the first import line up
    to the first line of code.  The blank lines that follow come next,
    then an empty line and the instance statement. *)
Theorem addUseI18n_inserts (scriptContent : jsstring) :
  join nl (splitLines scriptContent []) = scriptContent
  /\ (exists pre sep blanks post,
         splitLines scriptContent [] = pre ++ blanks ++ post
         /\ addUseI18n scriptContent
            = join nl (pre ++ [vueImportStatement (vue userConfig)] ++ sep
                         ++ blanks
                         ++ [[]; instanceStatement (vue userConfig)] ++ post)
         /\ (sep = [] \/ sep = [[]] /\ pre = [])
         /\ Forall blank blanks)
  /\ (Forall (fun line => importLine line = false)
        (splitLines scriptContent []) ->
      exists blanks post,
        splitLines scriptContent [] = blanks ++ post
        /\ Forall blank blanks
        /\ textAhead post
        /\ addUseI18n scriptContent
           = join nl ([vueImportStatement (vue userConfig); []] ++ blanks
                        ++ [[]; instanceStatement (vue userConfig)] ++ post))
  /\ (forall head line rest,
        splitLines scriptContent [] = head ++ line :: rest ->
        Forall (fun l => importLine l = false) head ->
        importLine line = true ->
        Forall singleLineImport (line :: rest) ->
        exists group skipped tail blanks post,
          rest = group ++ skipped ++ tail
          /\ (group = []
              \/ exists g l, group = g ++ [l] /\ importLine l = true)
          /\ Forall (fun l => importLine l || passedLine l = true) group
          /\ Forall (fun l => passedLine l = true) skipped
          /\ codeAhead tail
          /\ skipped ++ tail = blanks ++ post
          /\ Forall blank blanks
          /\ textAhead post
          /\ addUseI18n scriptContent
             = join nl (head ++ line :: group
                          ++ [vueImportStatement (vue userConfig)] ++ blanks
                          ++ [[]; instanceStatement (vue userConfig)]
                          ++ post)).
Proof.
  split; [apply (join_splitLines scriptContent [])|].
  split; [|split].
  - destruct (lastImportLoop_range (splitLines scriptContent []) 0 (-1) false)
      as [Hl|Hl].
    + destruct (addUseI18n_top scriptContent Hl) as (bs & post & H1 & H2 & _ & H4).
      exists [], [[]], bs, post. cbn [app] in *.
      split; [exact H1|]. split; [exact H4|].
      split; [right; split; reflexivity|exact H2].
    + set (last := lastImportLoop (splitLines scriptContent []) 0 (-1) false)
        in *.
      destruct (addUseI18n_found scriptContent (Z.to_nat (last + 1)))
        as (bs & post & H1 & H2 & _ & H4); [fold last; lia|lia|].
      exists (firstn (Z.to_nat (last + 1)) (splitLines scriptContent [])),
        [], bs, post.
      split; [rewrite <- H1; symmetry; apply firstn_skipn|].
      split; [exact H4|]. split; [left; reflexivity|exact H2].
  - intros Hno. apply addUseI18n_top. now apply lastImportLoop_none.
  - intros head line rest Hlines Hhead Hline Hsingle.
    pose proof (lastImportLoop_first head line rest Hhead Hline 0) as Hfirst.
    rewrite <- Hlines in Hfirst.
    inversion Hsingle as [|? ? Hl1 Hrest]; subst.
    rewrite (Hl1 Hline) in Hfirst. cbn [negb] in Hfirst.
    destruct (lastImportLoop_group rest Hrest
                (0 + Z.of_nat (length head) + 1) (0 + Z.of_nat (length head)))
      as (g & sk & tl & Hs & Hr & Hg & Fg & Fs & Ht); [lia|lia|].
    set (n0 := (length head + 1 + length g)%nat).
    assert (Hlast : lastImportLoop (splitLines scriptContent []) 0 (-1) false
                    = Z.of_nat n0 - 1).
    { rewrite Hfirst, Hr. unfold n0. destruct g; cbn [length]; lia. }
    assert (Hsplit : splitLines scriptContent []
                     = (head ++ line :: g) ++ sk ++ tl).
    { rewrite Hlines, Hs, <- app_assoc. reflexivity. }
    assert (Hlen : length (head ++ line :: g) = n0).
    { rewrite length_app. cbn [length]. unfold n0. lia. }
    destruct (addUseI18n_found scriptContent n0 Hlast)
      as (bs & post & H1 & H2 & H3 & H4).
    { rewrite Hsplit, length_app, Hlen. lia. }
    rewrite Hsplit, <- Hlen in H1, H4.
    rewrite skipn_app, Nat.sub_diag, skipn_all in H1. cbn [app skipn] in H1.
    rewrite firstn_app, Nat.sub_diag, firstn_all in H4. cbn [firstn] in H4.
    rewrite app_nil_r in H4.
    exists g, sk, tl, bs, post.
    repeat (split; [assumption|]).
    rewrite H4, <- !app_assoc. reflexivity.
Qed.

Lemma addUseI18n_inserts_witness :
  let script := js "import { ref } from 'vue';" ++ nl ++ nl
                ++ js "const msg = '你好';" in
  (splitLines script []
   = [] ++ js "import { ref } from 'vue';" :: [[]; js "const msg = '你好';"]
   /\ importLine (js "import { ref } from 'vue';") = true
   /\ Forall singleLineImport
        (js "import { ref } from 'vue';" :: [[]; js "const msg = '你好';"])
   /\ exists group skipped tail blanks post,
        [[]; js "const msg = '你好';"] = group ++ skipped ++ tail
        /\ codeAhead tail
        /\ addUseI18n script
           = join nl ([] ++ js "import { ref } from 'vue';" :: group
                        ++ [vueImportStatement (vue userConfig)] ++ blanks
                        ++ [[]; instanceStatement (vue userConfig)] ++ post))
  /\ (Forall (fun line => importLine line = false)
        (splitLines (js "const msg = '你好';") [])
      /\ exists blanks post,
           addUseI18n (js "const msg = '你好';")
           = join nl ([vueImportStatement (vue userConfig); []] ++ blanks
                        ++ [[]; instanceStatement (vue userConfig)] ++ post)).
Proof.
  cbv zeta.
  assert (Hs : splitLines (js "import { ref } from 'vue';" ++ nl ++ nl
                           ++ js "const msg = '你好';") []
               = [] ++ js "import { ref } from 'vue';"
                   :: [[]; js "const msg = '你好';"]) by reflexivity.
  assert (Hi : importLine (js "import { ref } from 'vue';") = true)
    by reflexivity.
  assert (Hf : Forall singleLineImport
                 (js "import { ref } from 'vue';"
                  :: [[]; js "const msg = '你好';"])).
  { constructor; [intros _; reflexivity|].
    constructor; [intros H; discriminate H|].
    constructor; [intros H; discriminate H|constructor]. }
  assert (Hno : Forall (fun line => importLine line = false)
                  (splitLines (js "const msg = '你好';") [])).
  { constructor; [reflexivity|constructor]. }
  split.
  - split; [exact Hs|]. split; [exact Hi|]. split; [exact Hf|].
    destruct (proj2 (proj2 (proj2 (addUseI18n_inserts _))) _ _ _ Hs
                (Forall_nil _) Hi Hf)
      as (g & sk & tl & bs & post & H1 & _ & _ & _ & H5 & _ & _ & _ & H9).
    exists g, sk, tl, bs, post. split; [exact H1|]. split; [exact H5|exact H9].
  - split; [exact Hno|].
    destruct (proj1 (proj2 (proj2 (addUseI18n_inserts _))) Hno)
      as (bs & post & _ & _ & _ & H4).
    exists bs, post. exact H4.
Defined.

(** *** [processQuotedStringOnce] and [processQuotedString] *)

Lemma replaceFirst_absent (text search replacement : jsstring) :
  find_sub search text = None ->
  replaceFirst text search replacement = text.
Proof.
  intros H. unfold replaceFirst, indexOf. now rewrite H.
Qed.

Lemma find_sub_app_none (a search s : jsstring) :
  find_sub search s = None -> find_sub (a ++ search) s = None.
Proof.
  intros H. destruct (find_sub (a ++ search) s) as [k|] eqn:E; [|reflexivity].
  apply find_sub_some in E as [E _].
  exfalso. apply (find_sub_none _ _ H).
  exists (firstn k s ++ a), (skipn (k + length (a ++ search)) s).
  rewrite E at 1. now rewrite <- !app_assoc.
Qed.

Lemma basicAttr_absent (templateContent original0 : jsstring) :
  find_sub original0 templateContent = None ->
  exec no_flags (basicAttrRegex original0) templateContent = None.
Proof.
  intros H. unfold exec.
  apply (search_dead (fun s => find_sub original0 s = None)
           (find_sub_tail original0)); [|exact H].
  intros pre suf Hs. unfold match_here, basicAttrRegex. cbn [seqs].
  rewrite rmatch_Seq.
  rewrite (rmatch_dead (fun s => find_sub original0 s = None)
             (find_sub_tail original0)); [reflexivity|exact Hs|].
  intros st1 Hst1. rewrite rmatch_Seq.
  apply (rmatch_dead (fun s => find_sub original0 s = None)
           (find_sub_tail original0)); [exact Hst1|].
  intros st2 Hst2. rewrite rmatch_Seq.
  apply (rmatch_dead (fun s => find_sub original0 s = None)
           (find_sub_tail original0)); [exact Hst2|].
  intros st3 Hst3. rewrite rmatch_Seq.
  apply (rmatch_dead (fun s => find_sub original0 s = None)
           (find_sub_tail original0)); [exact Hst3|].
  intros st4 Hst4. rewrite RegExp_escapeRegExp, rmatch_lit.
  now rewrite (find_sub_head _ _ Hst4).
Qed.

Lemma replaceString_absent (s search repl : jsstring) :
  find_sub search s = None -> replaceString s search repl = s.
Proof. intros H. unfold replaceString. now rewrite H. Qed.

(** X11.  Neither [processQuotedStringOnce] nor [processQuotedString]
    touches a buffer in which the literal does not occur. *)
Theorem processQuotedString_absent (templateContent : jsstring) (t : term)
  (key : jsstring) :
  ~ occurs (original t) templateContent ->
  processQuotedStringOnce templateContent t key = templateContent
  /\ processQuotedString templateContent t key = templateContent.
Proof.
  intros Hno.
  assert (H : find_sub (original t) templateContent = None).
  { destruct (find_sub (original t) templateContent) eqn:E; [|reflexivity].
    exfalso. apply Hno. apply find_sub_some in E as [E _]. eexists _, _.
    exact E. }
  split.
  - unfold processQuotedStringOnce.
    repeat match goal with
           | |- (if ?b then _ else _) = _ => destruct b
           end;
      apply replaceFirst_absent; try assumption.
    rewrite app_assoc. now apply find_sub_app_none.
  - unfold processQuotedString, checkIfInAttribute.
    rewrite (basicAttr_absent _ _ H).
    destruct (exec no_flags (vueAttrRegex (original t)) templateContent);
      cbn [isAttribute needsBinding attrName];
      [now apply replaceString_absent|].
    destruct (isInVueBindingExpression _ _);
      now apply replaceString_absent.
Qed.

Lemma processQuotedString_absent_witness :
  let t := mkTerm (js "'保存'") (js "保存") SingleQuote [] [] in
  ~ occurs (original t) (js "<p>标题</p>")
  /\ processQuotedStringOnce (js "<p>标题</p>") t (js "保存") = js "<p>标题</p>"
  /\ processQuotedString (js "<p>标题</p>") t (js "保存") = js "<p>标题</p>".
Proof.
  cbv zeta.
  assert (H : ~ occurs (original (mkTerm (js "'保存'") (js "保存") SingleQuote
                                    [] []))
                (js "<p>标题</p>")).
  { apply find_sub_none. reflexivity. }
  split; [exact H|].
  exact (processQuotedString_absent _ _ (js "保存") H).
Defined.

Lemma expand_call (n : nat) (m : jsmatch) (pre post key tail : jsstring) :
  no_dollar key = true -> no_dollar tail = true ->
  expand n m pre post (js "$t('" ++ key ++ tail) = js "$t('" ++ key ++ tail.
Proof.
  intros Hk Ht.
  change (js "$t('" ++ key ++ tail)
    with (36%N :: 116%N :: 40%N :: 39%N :: key ++ tail).
  cbn [expand N.eqb Pos.eqb negb is_digit in_range N.leb N.compare
         Pos.compare Pos.compare_cont andb].
  do 4 f_equal. apply expand_plain. now rewrite no_dollar_app, Hk, Ht.
Qed.

Lemma replaceString_as_replaceFirst (s search repl : jsstring) :
  (forall n m pre post, expand n m pre post repl = repl) ->
  replaceString s search repl = replaceFirst s search repl.
Proof.
  intros H. unfold replaceString, replaceFirst, indexOf.
  destruct (find_sub search s) as [k|] eqn:E; cbn [index_result].
  - replace (Z.of_nat k =? -1) with false by (symmetry; apply Z.eqb_neq; lia).
    rewrite H, substring_0.
    replace (Z.of_nat k + len search)
      with (Z.of_nat (k + length search)) by (unfold len; lia).
    now rewrite substringFrom_nat.
  - reflexivity.
Qed.

(** X12.  Where the literal is not the value of a plain attribute and
    the key holds no dollar sign, [processQuotedString] and
    [processQuotedStringOnce] give the same text. *)
Theorem processQuotedString_agree (templateContent : jsstring) (t : term)
  (key : jsstring) :
  needsBinding (checkIfInAttribute templateContent (original t)) = false ->
  no_dollar key = true ->
  processQuotedString templateContent t key
  = processQuotedStringOnce templateContent t key.
Proof.
  intros Hn Hk. unfold processQuotedString, processQuotedStringOnce.
  rewrite Hn.
  assert (H1 : forall n m pre post,
             expand n m pre post (js "$t('" ++ key ++ js "')")
             = js "$t('" ++ key ++ js "')").
  { intros. now apply expand_call. }
  assert (H2 : forall n m pre post,
             expand n m pre post (js "{{ $t('" ++ key ++ js "') }}")
             = js "{{ $t('" ++ key ++ js "') }}").
  { intros.
    change (js "{{ $t('" ++ key ++ js "') }}")
      with (123%N :: 123%N :: 32%N :: (js "$t('" ++ key ++ js "') }}")).
    cbn [expand N.eqb Pos.eqb negb]. do 3 f_equal. now apply expand_call. }
  destruct (isAttribute _); [now apply replaceString_as_replaceFirst|].
  destruct (isInVueBindingExpression _ _);
    now apply replaceString_as_replaceFirst.
Qed.

Lemma processQuotedString_agree_witness :
  let t := mkTerm (js "'请输入'") (js "请输入") SingleQuote [] [] in
  needsBinding (checkIfInAttribute Examples.boundAttribute (original t))
  = false
  /\ no_dollar (js "请输入") = true
  /\ processQuotedString Examples.boundAttribute t (js "请输入")
     = processQuotedStringOnce Examples.boundAttribute t (js "请输入").
Proof.
  cbv zeta. split; [reflexivity|]. split; [reflexivity|].
  apply processQuotedString_agree; reflexivity.
Defined.

(** *** [lastIndexOf] *)

Lemma find_last_spec (search : jsstring) :
  forall s,
    match find_last search s with
    | Some k =>
        (k <= length s)%nat
        /\ prefixb search (skipn k s) = true
        /\ forall j, (k < j <= length s)%nat ->
                     prefixb search (skipn j s) = false
    | None => forall j, (j <= length s)%nat ->
                        prefixb search (skipn j s) = false
    end.
Proof.
  induction s as [|x t IH]; cbn [find_last].
  - destruct (prefixb search []) eqn:E.
    + repeat split; [lia|exact E|]. intros j Hj. simpl in Hj. lia.
    + intros j Hj. simpl in Hj. assert (j = 0%nat) as -> by lia. exact E.
  - destruct (find_last search t) as [k|].
    + destruct IH as (Hk & Hp & Hmax). repeat split; [simpl; lia|exact Hp|].
      intros j Hj. destruct j as [|j]; [lia|]. cbn [skipn].
      apply Hmax. simpl in Hj. lia.
    + destruct (prefixb search (x :: t)) eqn:E.
      * repeat split; [simpl; lia|exact E|].
        intros j Hj. destruct j as [|j]; [lia|]. cbn [skipn].
        apply IH. simpl in Hj. lia.
      * intros j Hj. destruct j as [|j]; [exact E|]. cbn [skipn].
        apply IH. simpl in Hj. lia.
Qed.

Lemma find_last_at (search s : jsstring) (k : nat) :
  (k <= length s)%nat ->
  prefixb search (skipn k s) = true ->
  (forall j, (k < j <= length s)%nat -> prefixb search (skipn j s) = false) ->
  find_last search s = Some k.
Proof.
  intros Hk Hp Hmax. pose proof (find_last_spec search s) as H.
  destruct (find_last search s) as [k'|].
  - destruct H as (Hk' & Hp' & Hmax'). f_equal.
    destruct (Nat.lt_trichotomy k k') as [Hlt|[->|Hgt]]; [|reflexivity|].
    + rewrite Hmax in Hp' by lia. discriminate.
    + rewrite Hmax' in Hp by lia. discriminate.
  - rewrite H in Hp by assumption. discriminate.
Qed.

Lemma find_last_absent (search s : jsstring) :
  find_sub search s = None -> find_last search s = None.
Proof.
  intros H. pose proof (find_last_spec search s) as Hs.
  destruct (find_last search s) as [k|]; [|reflexivity].
  destruct Hs as (_ & Hp & _). exfalso.
  apply (find_sub_none _ _ H). apply prefixb_true in Hp.
  exists (firstn k s), (skipn (length search) (skipn k s)).
  rewrite <- Hp. symmetry. apply firstn_skipn.
Qed.

Lemma prefixb_needs (c0 : N) (search s : jsstring) :
  In c0 search -> lacks c0 s = true -> prefixb search s = false.
Proof.
  intros Hin Hl. destruct (prefixb search s) eqn:E; [|reflexivity].
  apply prefixb_true in E. unfold lacks in Hl. rewrite forallb_forall in Hl.
  assert (Hc : In c0 s) by (rewrite E; apply in_or_app; now left).
  apply Hl in Hc. now rewrite N.eqb_refl in Hc.
Qed.

Lemma lacks_skipn (c0 : N) (n : nat) (s : jsstring) :
  lacks c0 s = true -> lacks c0 (skipn n s) = true.
Proof. apply forallb_skipn. Qed.

Lemma lacks_app (c0 : N) (a b : jsstring) :
  lacks c0 (a ++ b) = lacks c0 a && lacks c0 b.
Proof. apply forallb_app. Qed.

Lemma plainArgs_lacks_open (s : jsstring) :
  plainArgs s = true -> lacks (ch "(") s = true.
Proof.
  unfold plainArgs, lacks. rewrite !forallb_forall. intros H x Hx.
  specialize (H x Hx). now repeat (apply andb_true_iff in H as [H _]).
Qed.

(** *** [isInDefineProps] *)

(** The last [defineProps(] of a text that goes on without an opening
    parenthesis. *)
Lemma lastIndexOf_defineProps (pre tail : jsstring) :
  lacks (ch "(") tail = true ->
  lastIndexOf (pre ++ js "defineProps(" ++ tail) (js "defineProps(")
  = len pre.
Proof.
  intros Hl. unfold lastIndexOf.
  rewrite (find_last_at _ _ (length pre)); [reflexivity| | |].
  - rewrite length_app. lia.
  - rewrite skipn_app, Nat.sub_diag, skipn_all. cbn [app skipn].
    apply prefixb_app.
  - intros j Hj.
    replace j with ((j - length pre) + length pre)%nat by lia.
    rewrite <- skipn_skipn.
    rewrite (skipn_app (length pre)), Nat.sub_diag, skipn_all. cbn [app skipn].
    remember (j - length pre)%nat as i eqn:Ei.
    assert (Hi : (1 <= i)%nat) by lia. clear Ei Hj.
    do 12 (destruct i as [|i]; [try lia; reflexivity|]).
    change (skipn (S (S (S (S (S (S (S (S (S (S (S (S i))))))))))))
                  (js "defineProps(" ++ tail))
      with (skipn i tail).
    apply (prefixb_needs (ch "(")); [|now apply lacks_skipn].
    vm_compute. tauto.
Qed.

Lemma definePropsLoop_plain (s rest : jsstring) :
  plainArgs s = true ->
  forall i prev, exists prev',
    definePropsLoop (s ++ rest) i prev 1 false None
    = definePropsLoop rest (i + len s) prev' 1 false None.
Proof.
  induction s as [|x t IH]; intros Hp i prev.
  - exists prev. cbn [app]. f_equal. unfold len. simpl. lia.
  - cbn [plainArgs forallb] in Hp. apply andb_true_iff in Hp as [Hx Hp].
    repeat (apply andb_true_iff in Hx as [Hx ?]).
    repeat match goal with
           | H : negb _ = true |- _ => apply negb_true_iff in H
           end.
    destruct (IH Hp (i + 1) (Some x)) as [prev' E]. exists prev'.
    cbn [app definePropsLoop].
    match goal with
    | H1 : (x =? ch "(")%N = false, H2 : (x =? ch ")")%N = false,
      H3 : (x =? 34)%N = false, H4 : (x =? ch "'")%N = false,
      H5 : (x =? ch "`")%N = false |- _ =>
        rewrite H1, H2, H3, H4, H5
    end.
    cbn [orb andb negb Z.eqb]. rewrite E. f_equal. unfold len.
    cbn [length]. lia.
Qed.

Lemma definePropsLoop_head (s : jsstring) :
  definePropsLoop (js "defineProps(" ++ s) 0 None 0 false None
  = definePropsLoop s 12 (Some (ch "(")) 1 false None.
Proof. reflexivity. Qed.

Lemma definePropsLoop_close (more : jsstring) (i : Z) (prev : option N) :
  11 < i ->
  definePropsLoop (js ")" ++ more) i prev 1 false None = false.
Proof.
  intros Hi. change (js ")" ++ more) with (41%N :: more).
  cbn [definePropsLoop].
  change ((41 =? 34) || (41 =? ch "'") || (41 =? ch "`"))%N with false.
  change (41 =? ch "(")%N with false. change (41 =? ch ")")%N with true.
  cbn [andb negb]. change (1 - 1 =? 0) with true.
  replace (11 <? i) with true by (symmetry; apply Z.ltb_lt; lia).
  reflexivity.
Qed.

Lemma substring_prefix (a b : jsstring) :
  substring (a ++ b) 0 (len a) = a.
Proof.
  unfold len. rewrite substring_0, firstn_app, Nat.sub_diag, firstn_all.
  simpl. apply app_nil_r.
Qed.

Lemma substring_middle (a b d : jsstring) :
  substring (a ++ b ++ d) (len a) (len (a ++ b)) = b.
Proof.
  unfold substring, clamp, len. rewrite !length_app.
  replace (Z.to_nat (Z.max 0 (Z.min (Z.of_nat (length a))
              (Z.of_nat (length a + (length b + length d))))))
    with (length a) by lia.
  replace (Z.to_nat (Z.max 0 (Z.min (Z.of_nat (length a + length b))
              (Z.of_nat (length a + (length b + length d))))))
    with (length a + length b)%nat by lia.
  rewrite Nat.min_l, Nat.max_r by lia.
  rewrite skipn_app, Nat.sub_diag, skipn_all. cbn [app skipn].
  replace (length a + length b - length a)%nat with (length b) by lia.
  rewrite firstn_app, Nat.sub_diag, firstn_all. simpl. apply app_nil_r.
Qed.

(** X6.  [isInDefineProps] answers [false] at a negative position and
    where no [defineProps(] stands before the position.  After
    [defineProps(] and arguments without parenthesis or quote the
    position is inside; once the parenthesis is closed, and as long as no
    other one is opened, it is outside. *)
Theorem isInDefineProps_scope :
  (forall text textPosition,
      textPosition < 0 -> isInDefineProps text textPosition = false)
  /\ (forall text textPosition,
         includes (substring text 0 textPosition) (js "defineProps(") = false ->
         isInDefineProps text textPosition = false)
  /\ (forall pre args rest,
         plainArgs args = true ->
         isInDefineProps (pre ++ js "defineProps(" ++ args ++ rest)
           (len (pre ++ js "defineProps(" ++ args)) = true)
  /\ (forall pre args more rest,
         plainArgs args = true -> lacks (ch "(") more = true ->
         isInDefineProps
           (pre ++ js "defineProps(" ++ args ++ js ")" ++ more ++ rest)
           (len (pre ++ js "defineProps(" ++ args ++ js ")" ++ more)) = false).
Proof.
  split; [|split; [|split]].
  - intros text p Hp. unfold isInDefineProps.
    now replace (p <? 0) with true by (symmetry; apply Z.ltb_lt; lia).
  - intros text p H. unfold isInDefineProps.
    destruct (p <? 0); [reflexivity|].
    apply includes_false in H. unfold lastIndexOf.
    now rewrite (find_last_absent _ _ H).
  - intros pre args rest Hp. unfold isInDefineProps.
    replace (len (pre ++ js "defineProps(" ++ args) <? 0) with false
      by (symmetry; apply Z.ltb_ge; unfold len; lia).
    replace (pre ++ js "defineProps(" ++ args ++ rest)
      with ((pre ++ js "defineProps(" ++ args) ++ rest)
      by now rewrite <- !app_assoc.
    rewrite substring_prefix.
    rewrite (lastIndexOf_defineProps pre args (plainArgs_lacks_open _ Hp)).
    replace (len pre =? -1) with false
      by (symmetry; apply Z.eqb_neq; unfold len; lia).
    replace ((pre ++ js "defineProps(" ++ args) ++ rest)
      with (pre ++ (js "defineProps(" ++ args) ++ rest)
      by now rewrite <- !app_assoc.
    rewrite substring_middle, definePropsLoop_head.
    destruct (definePropsLoop_plain args [] Hp 12 (Some (ch "(")))
      as [prev' E].
    rewrite app_nil_r in E. rewrite E. reflexivity.
  - intros pre args more rest Hp Hm. unfold isInDefineProps.
    set (mid := args ++ js ")" ++ more).
    replace (pre ++ js "defineProps(" ++ args ++ js ")" ++ more ++ rest)
      with ((pre ++ js "defineProps(" ++ mid) ++ rest)
      by (unfold mid; now rewrite <- !app_assoc).
    change (pre ++ js "defineProps(" ++ args ++ js ")" ++ more)
      with (pre ++ js "defineProps(" ++ mid).
    replace (len (pre ++ js "defineProps(" ++ mid) <? 0) with false
      by (symmetry; apply Z.ltb_ge; unfold len; lia).
    rewrite substring_prefix.
    assert (Hmid : lacks (ch "(") mid = true).
    { unfold mid. rewrite !lacks_app, (plainArgs_lacks_open _ Hp), Hm.
      reflexivity. }
    rewrite (lastIndexOf_defineProps pre mid Hmid).
    replace (len pre =? -1) with false
      by (symmetry; apply Z.eqb_neq; unfold len; lia).
    replace ((pre ++ js "defineProps(" ++ mid) ++ rest)
      with (pre ++ (js "defineProps(" ++ mid) ++ rest)
      by now rewrite <- !app_assoc.
    rewrite substring_middle, definePropsLoop_head. unfold mid.
    destruct (definePropsLoop_plain args (js ")" ++ more) Hp 12
                (Some (ch "("))) as [prev' E].
    rewrite E. apply definePropsLoop_close. unfold len. lia.
Qed.

Lemma isInDefineProps_scope_witness :
  (-1 < 0 /\ isInDefineProps (js "defineProps(") (-1) = false)
  /\ (includes (substring (js "const a = '标题';") 0 10) (js "defineProps(")
        = false
      /\ isInDefineProps (js "const a = '标题';") 10 = false)
  /\ (plainArgs (js "{ title: ") = true
      /\ isInDefineProps
           (js "const p = " ++ js "defineProps(" ++ js "{ title: "
              ++ js "'标题' })")
           (len (js "const p = " ++ js "defineProps(" ++ js "{ title: "))
         = true)
  /\ (plainArgs (js "{ title: String }") = true
      /\ lacks (ch "(") (js "; const a = ") = true
      /\ isInDefineProps
           (js "const p = " ++ js "defineProps(" ++ js "{ title: String }"
              ++ js ")" ++ js "; const a = " ++ js "'标题';")
           (len (js "const p = " ++ js "defineProps("
                   ++ js "{ title: String }" ++ js ")" ++ js "; const a = "))
         = false).
Proof.
  destruct isInDefineProps_scope as (H1 & H2 & H3 & H4).
  split; [split; [lia|apply H1; lia]|].
  split; [split; [reflexivity|apply H2; reflexivity]|].
  split; [split; [reflexivity|apply H3; reflexivity]|].
  split; [reflexivity|]. split; [reflexivity|].
  apply H4; reflexivity.
Defined.

(** *** The TSX scanner *)

(** A pattern [o ( a ) c]: the match is the group between the two
    delimiters, and the group is made of code units [a] accepts. *)
Lemma delimited_group (P : N -> bool) (o c0 : N) (a : regex)
  (pre suf : jsstring) (m : jsmatch) :
  accepts_only no_flags P a ->
  match_here no_flags (Seq (Chr o) (Seq (Group 1 a) (Chr c0))) pre suf
  = Some m ->
  m_text m = o :: group m 1 ++ [c0] /\ forallb P (group m 1) = true.
Proof.
  intros Hok. unfold match_here.
  destruct (rmatch _ _ Some _) as [e|] eqn:E; [|discriminate].
  intros [= <-]. cbn [m_text group m_caps].
  destruct suf as [|x t]; [discriminate|].
  rewrite rmatch_Seq, rmatch_Chr_cons in E.
  destruct (chr_eq no_flags o x) eqn:Eo; [|discriminate].
  rewrite chr_eq_plain in Eo. apply N.eqb_eq in Eo. subst x.
  rewrite rmatch_Seq, rmatch_Group in E.
  apply (rmatch_passes P _ _ Hok) in E as (st' & (u & H1 & H2 & H3) & E).
  cbn [rmatch] in E. cbn [after step set_cap before caps] in *.
  destruct (after st') as [|y t'] eqn:Ea; [discriminate|].
  destruct (chr_eq no_flags c0 y) eqn:Ec; [|discriminate].
  rewrite chr_eq_plain in Ec. apply N.eqb_eq in Ec. subst y.
  injection E as <-. cbn [after caps step set_cap assoc_nat Nat.eqb].
  assert (Hc : consumed (mkState (o :: pre) t []) st' = u).
  { unfold consumed. cbn [after]. rewrite Ea, H1, length_app.
    rewrite Nat.add_sub, firstn_app, Nat.sub_diag, firstn_all. simpl.
    apply app_nil_r. }
  rewrite Hc. split; [|exact H3].
  rewrite H1. cbn [length]. rewrite length_app. cbn [length].
  replace (S (length u + S (length t')) - length t')%nat
    with (S (length u + 1))%nat by lia.
  cbn [firstn]. f_equal.
  rewrite firstn_app, firstn_all2 by lia.
  replace (length u + 1 - length u)%nat with 1%nat by lia.
  reflexivity.
Qed.

Lemma tsxTagStep_terms (text : jsstring) (terms : list term) (m : jsmatch) :
  In m (matchAll no_flags jsxTagRegex text) ->
  Forall (tsxTerm text) terms ->
  Forall (tsxTerm text) (tsxTagStep text terms m).
Proof.
  intros Hm Ht. unfold tsxTagStep.
  destruct (negb (truthy _) || negb (test _ _ _)) eqn:E1; [assumption|].
  destruct (isCodeLike _) eqn:E2; [assumption|].
  destruct (isFilePath _) eqn:E3; [assumption|].
  destruct (negb (isAlreadyInternationalized _ _ _)); [|assumption].
  apply Forall_app. split; [assumption|]. constructor; [|constructor].
  apply orb_false_iff in E1 as [E1 E1']. apply negb_false_iff in E1, E1'.
  apply matchAll_occurs in Hm as [Ho (pre & suf & Hm)].
  apply (delimited_group
           (cls_mem no_flags true [one "<"; one ">"; one "{"; one "}"]))
    in Hm as [Htx Hg].
  - split; [reflexivity|]. split; [|split; [exact Ho|]].
    + unfold kept. cbn [content type]. repeat split; auto using trim_trim.
    + exists (group m 1). cbn [original content]. auto.
  - split; intros y Hy; exact Hy.
Qed.

(** X9.  Every term of the TSX scanner is a [tsx-tag-content] term whose
    [original] occurs in the script and is [>], an inner text without
    angle bracket or brace, and [<]; its [content] is the inner text
    trimmed, is not empty, holds a character of the target script, and
    is neither code nor a file path. *)
Theorem extractTsxTagContent_terms (text : jsstring) (t : term) :
  In t (extractTsxTagContent text) ->
  type t = TsxTagContent
  /\ content t <> []
  /\ has_cjk (content t)
  /\ isCodeLike (content t) = false
  /\ isFilePath (content t) = false
  /\ occurs (original t) text
  /\ exists inner,
       original t = ch ">" :: inner ++ [ch "<"]
       /\ content t = trim inner
       /\ forallb (fun x => negb (in_ranges
                                    [one "<"; one ">"; one "{"; one "}"] x))
            inner = true.
Proof.
  intros Hin.
  assert (HF : Forall (tsxTerm text) (extractTsxTagContent text)).
  { unfold extractTsxTagContent.
    assert (G : forall ms terms,
               (forall m, In m ms ->
                          In m (matchAll no_flags jsxTagRegex text)) ->
               Forall (tsxTerm text) terms ->
               Forall (tsxTerm text) (fold_left (tsxTagStep text) ms terms)).
    { induction ms as [|m ms IH]; intros terms Hms Ht; simpl; [assumption|].
      apply IH; [intros m' Hm'; apply Hms; now right|].
      apply tsxTagStep_terms; [apply Hms; now left|assumption]. }
    apply G; [auto|constructor]. }
  rewrite Forall_forall in HF.
  destruct (HF t Hin) as (Hty & (Hk1 & Hk2 & Hk3 & Hk4 & Hk5) & Ho
                          & inner & Hi1 & Hi2 & Hi3).
  split; [exact Hty|]. split; [now apply truthy_nonempty|].
  split; [now apply test_cjk|].
  split; [apply Hk5; rewrite Hty; discriminate|].
  split; [exact Hk4|]. split; [exact Ho|].
  exists inner. repeat split; auto.
  rewrite forallb_forall in *. intros x Hx. specialize (Hi3 x Hx).
  unfold cls_mem in Hi3. cbn [ignoreCase no_flags andb] in Hi3.
  now rewrite orb_false_r in Hi3.
Qed.

Lemma extractTsxTagContent_terms_witness :
  let text := js "return <div>你好</div>;" in
  let t := mkTerm (js ">你好<") (js "你好") TsxTagContent [] [] in
  In t (extractTsxTagContent text)
  /\ type t = TsxTagContent
  /\ has_cjk (content t)
  /\ occurs (original t) text.
Proof.
  cbv zeta.
  assert (H : In (mkTerm (js ">你好<") (js "你好") TsxTagContent [] [])
                (extractTsxTagContent (js "return <div>你好</div>;"))).
  { vm_compute. left. reflexivity. }
  split; [exact H|].
  destruct (extractTsxTagContent_terms _ _ H)
    as (H1 & _ & H3 & _ & _ & H6 & _).
  auto.
Defined.

(** *** What [processTsFile] counts *)

Lemma existsb_str_eqb (x : jsstring) (l : list jsstring) :
  existsb (str_eqb x) l = true <-> In x l.
Proof.
  rewrite existsb_exists. split.
  - intros (y & Hy & E). apply str_eqb_eq in E. now subst.
  - intros H. exists x. split; [assumption|apply str_eqb_refl].
Qed.

Lemma tsTermStep_counts (cfg : scriptOptions) (seen : list term)
  (st : scriptState) (t : term) :
  countsDistinct seen st ->
  countsDistinct (seen ++ [t]) (tsTermStep cfg st t).
Proof.
  intros (Hc & Hn & Hm). unfold tsTermStep.
  destruct (includes (content t) (js "import")) eqn:Ei.
  { split; [exact Hc|]. split; [exact Hn|]. intros x. rewrite Hm. split.
    - intros (t0 & H0 & H1 & H2). exists t0. repeat split; auto.
      apply in_or_app. now left.
    - intros (t0 & H0 & H1 & H2). apply in_app_or in H0 as [H0|[<-|[]]].
      + now exists t0.
      + subst x. congruence. }
  destruct (existsb (str_eqb (content t)) (processedTexts st)) eqn:Ee.
  { apply existsb_str_eqb in Ee.
    split; [exact Hc|]. split; [exact Hn|]. intros x. split.
    - intros Hx. apply Hm in Hx as (t0 & H0 & H1 & H2). exists t0.
      repeat split; auto. apply in_or_app. now left.
    - intros (t0 & H0 & H1 & H2). apply in_app_or in H0 as [H0|[<-|[]]].
      + apply Hm. now exists t0.
      + now subst x. }
  assert (Hnew : countsDistinct (seen ++ [t])
                   (mkScript [] (content t :: processedTexts st) []
                      (scriptCount st + 1))).
  { split; [|split]; cbn [scriptCount processedTexts].
    - cbn [length]. lia.
    - constructor; [|exact Hn]. intros Hin.
      apply existsb_str_eqb in Hin. congruence.
    - intros x. split.
      + intros [<-|Hx].
        * exists t. repeat split; [apply in_or_app; right; now left|exact Ei].
        * apply Hm in Hx as (t0 & H0 & H1 & H2). exists t0.
          repeat split; auto. apply in_or_app. now left.
      + intros (t0 & H0 & H1 & H2). apply in_app_or in H0 as [H0|[<-|[]]].
        * right. apply Hm. now exists t0.
        * now left. }
  destruct (test no_flags hasTemplateRegex (content t)).
  - destruct (convertTemplateToI18n _ _ _) as [conv map1]. exact Hnew.
  - exact Hnew.
Qed.

Lemma tsTerms_count (cfg : scriptOptions) (terms : list term) :
  forall seen st,
    countsDistinct seen st ->
    countsDistinct (seen ++ terms) (fold_left (tsTermStep cfg) terms st).
Proof.
  induction terms as [|t terms IH]; intros seen st H; simpl.
  - now rewrite app_nil_r.
  - replace (seen ++ t :: terms) with ((seen ++ [t]) ++ terms)
      by now rewrite <- app_assoc.
    apply IH. now apply tsTermStep_counts.
Qed.

(** X18.  The number [processTsFile] reports is the number of distinct
    term contents of the file, those that hold [import] left out: every
    such content is handled once. *)
Theorem processTsFile_counts_distinct (originalContent ext : jsstring)
  (registry : jsobject) :
  let st := processTsFile originalContent ext registry in
  let terms := extractChineseTerms (removeComments originalContent) ScriptCtx in
  scriptCount st = Z.of_nat (length (processedTexts st))
  /\ NoDup (processedTexts st)
  /\ forall x, In x (processedTexts st)
               <-> exists t, In t terms /\ content t = x
                             /\ includes x (js "import") = false.
Proof.
  cbv zeta. unfold processTsFile.
  set (terms := extractChineseTerms (removeComments originalContent) ScriptCtx).
  destruct (filter _ terms) as [|t0 vs] eqn:Ef.
  - cbn [scriptCount processedTexts length]. split; [reflexivity|].
    split; [constructor|]. intros x. split; [intros []|].
    intros (t & Ht & Hc & Hi).
    assert (Hin : In t (filter
                          (fun t => negb (includes (content t) (js "import")))
                          terms)).
    { apply filter_In. split; [assumption|]. now rewrite Hc, Hi. }
    rewrite Ef in Hin. destruct Hin.
  - apply (tsTerms_count _ terms []). split; [reflexivity|].
    split; [constructor|]. intros x. split; [intros []|].
    intros (t & [] & _).
Qed.

(** *** [parseArgs] *)

Lemma parseOptions_folder (args : list jsstring) :
  forall config h config' h',
    parseOptions args config h = Returns (config', h') ->
    folderPath config' = folderPath config.
Proof.
  assert (G : forall n args, (length args <= n)%nat ->
              forall config h config' h',
                parseOptions args config h = Returns (config', h') ->
                folderPath config' = folderPath config).
  { induction n as [|n IH]; intros [|arg rest] Hn config h config' h';
      cbn [parseOptions]; try (simpl in Hn; lia);
      try (now intros [= <- _]).
    simpl in Hn.
    repeat match goal with
           | |- (if ?b then _ else _) = _ -> _ => destruct b
           end;
      try discriminate;
      try (intros E; apply IH in E; [exact E|lia]).
    destruct rest as [|value rest'].
    + now intros [= <- _].
    + intros E. apply IH in E; [exact E|simpl in Hn; lia]. }
  exact (G (length args) args (Nat.le_refl _)).
Qed.

(** X23.  Without arguments [parseArgs] leaves with code 0.  Otherwise
    the first argument is the folder whatever it reads: a configuration
    that is returned has it as [folderPath], and [--help] in the first
    place is no request for help. *)
Theorem parseArgs_first_is_folder (path : pathModule) :
  parseArgs path [] = Exits 0
  /\ (forall folder options config,
         parseArgs path (folder :: options) = Returns config ->
         folderPath config = folder)
  /\ parseArgs path [js "--help"]
     = Returns (mkCli (mkRunConfig true true true)
                  (Some (js "./" ++ basename path (resolve path (js "--help"))
                           ++ js ".json"))
                  false (js "--help")).
Proof.
  split; [reflexivity|]. split; [|reflexivity].
  intros folder options config. cbn [parseArgs].
  destruct (parseOptions options (defaultConfig folder) false)
    as [[config' h']| |] eqn:E; try discriminate.
  apply parseOptions_folder in E. cbn [folderPath defaultConfig] in E.
  cbv zeta.
  repeat match goal with
         | |- context [match ?o with Some _ => _ | None => _ end] =>
             destruct o
         | |- (if ?b then _ else _) = _ -> _ => destruct b
         end;
    try discriminate; intros [= <-]; exact E.
Qed.

Lemma parseArgs_first_is_folder_witness :
  parseArgs plainPath [js "src"; js "--dry-run"]
  = Returns (mkCli (mkRunConfig true true true) (Some (js "./src.json"))
               true (js "src"))
  /\ folderPath (mkCli (mkRunConfig true true true)
                   (Some (js "./src.json")) true (js "src"))
     = js "src".
Proof.
  assert (H : parseArgs plainPath [js "src"; js "--dry-run"]
              = Returns (mkCli (mkRunConfig true true true)
                           (Some (js "./src.json")) true (js "src")))
    by reflexivity.
  split; [exact H|].
  exact (proj1 (proj2 (parseArgs_first_is_folder plainPath)) _ _ _ H).
Defined.

Lemma parseOptions_passed (opts rest : list jsstring) :
  forallb passed opts = true ->
  forall config h, exists config',
    parseOptions (opts ++ rest) config h = parseOptions rest config' h
    /\ folderPath config' = folderPath config
    /\ outputPath config' = outputPath config.
Proof.
  induction opts as [|arg opts IH]; intros Hp config h.
  - now exists config.
  - cbn [forallb] in Hp. apply andb_true_iff in Hp as [Ha Hp].
    cbn [app parseOptions]. unfold passed in Ha.
    destruct (str_eqb arg (js "--no-template")) eqn:E1.
    { destruct (IH Hp (mkCli (mkRunConfig false
                                (processVueScript (switches config))
                                (processTs (switches config)))
                         (outputPath config) (dryRun config)
                         (folderPath config)) h) as (c' & H1 & H2 & H3).
      exists c'. auto. }
    destruct (str_eqb arg (js "--no-script")) eqn:E2.
    { destruct (IH Hp (mkCli (mkRunConfig
                                (processVueTemplate (switches config)) false
                                (processTs (switches config)))
                         (outputPath config) (dryRun config)
                         (folderPath config)) h) as (c' & H1 & H2 & H3).
      exists c'. auto. }
    destruct (str_eqb arg (js "--no-ts")) eqn:E3.
    { destruct (IH Hp (mkCli (mkRunConfig
                                (processVueTemplate (switches config))
                                (processVueScript (switches config)) false)
                         (outputPath config) (dryRun config)
                         (folderPath config)) h) as (c' & H1 & H2 & H3).
      exists c'. auto. }
    destruct (str_eqb arg (js "--output")) eqn:E4.
    { apply str_eqb_eq in E4. subst arg. vm_compute in Ha. discriminate. }
    destruct (str_eqb arg (js "--dry-run")) eqn:E5.
    { destruct (IH Hp (mkCli (switches config) (outputPath config) true
                         (folderPath config)) h) as (c' & H1 & H2 & H3).
      exists c'. auto. }
    destruct (str_eqb arg (js "--help")) eqn:E6.
    { apply str_eqb_eq in E6. subst arg. vm_compute in Ha. discriminate. }
    cbn [orb] in Ha. apply negb_true_iff in Ha. rewrite Ha.
    apply IH, Hp.
Qed.

(** X24.  How a call leaves early, after switches and plain words that
    are passed: [--help] ends it with code 0, an unknown option that
    begins with two dashes with code 1, and [--output] in the last place,
    with no value after it, by an exception. *)
Theorem parseArgs_leaves (path : pathModule) (folder : jsstring)
  (options rest : list jsstring) :
  forallb passed options = true ->
  parseArgs path (folder :: options ++ js "--help" :: rest) = Exits 0
  /\ (forall arg,
         startsWith arg (js "--") = true ->
         passed arg = false ->
         arg <> js "--output" -> arg <> js "--help" ->
         parseArgs path (folder :: options ++ arg :: rest) = Exits 1)
  /\ parseArgs path (folder :: options ++ [js "--output"]) = Throws.
Proof.
  intros Hp. split; [|split].
  - cbn [parseArgs].
    destruct (parseOptions_passed options (js "--help" :: rest) Hp
                (defaultConfig folder) false) as (c' & -> & _).
    reflexivity.
  - intros arg Hs Ha Ho Hh. cbn [parseArgs].
    destruct (parseOptions_passed options (arg :: rest) Hp
                (defaultConfig folder) false) as (c' & -> & _).
    cbn [parseOptions]. unfold passed in Ha.
    apply orb_false_iff in Ha as [Ha _].
    apply orb_false_iff in Ha as [Ha H4].
    apply orb_false_iff in Ha as [Ha H3].
    apply orb_false_iff in Ha as [H1 H2].
    rewrite H1, H2, H3, H4.
    apply str_eqb_neq in Ho, Hh. rewrite Ho, Hh, Hs. reflexivity.
  - cbn [parseArgs].
    destruct (parseOptions_passed options [js "--output"] Hp
                (defaultConfig folder) false) as (c' & -> & _).
    reflexivity.
Qed.

Lemma parseArgs_leaves_witness :
  forallb passed [js "--dry-run"; js "extra"] = true
  /\ parseArgs plainPath
       ([js "src"; js "--dry-run"; js "extra"; js "--help"; js "--no-ts"])
     = Exits 0
  /\ parseArgs plainPath
       ([js "src"; js "--dry-run"; js "extra"; js "--output"])
     = Throws.
Proof.
  assert (H : forallb passed [js "--dry-run"; js "extra"] = true)
    by reflexivity.
  split; [exact H|].
  destruct (parseArgs_leaves plainPath (js "src")
              [js "--dry-run"; js "extra"] [js "--no-ts"] H)
    as (H1 & _ & H3).
  split; [exact H1|exact H3].
Defined.

(** X25.  Where [path.join] keeps the ending of its last argument, the
    output path of a configuration that is returned ends in [.json]. *)
Theorem parseArgs_output_json (path : pathModule) (args : list jsstring)
  (config : cliConfig) :
  (forall a b, endsWith b (js ".json") = true ->
               endsWith (pathJoin path a b) (js ".json") = true) ->
  parseArgs path args = Returns config ->
  exists out, outputPath config = Some out
              /\ endsWith out (js ".json") = true.
Proof.
  intros Hjoin. destruct args as [|folder rest]; [discriminate|].
  cbn [parseArgs].
  destruct (parseOptions rest (defaultConfig folder) false)
    as [[config' h']| |]; try discriminate.
  cbv zeta.
  assert (Hname : forall n, endsWith (n ++ js ".json") (js ".json") = true).
  { intros n. unfold endsWith. rewrite rev_app_distr. apply prefixb_app. }
  destruct (negb h'); destruct (outputPath config') as [out|] eqn:Eo;
    try discriminate;
    destruct (endsWith out (js ".json")) eqn:Ee; cbn [negb];
    intros [= <-]; cbn [outputPath].
  - eexists. split; [reflexivity|].
    apply (Hname (js "./" ++ basename path (resolve path (folderPath config')))).
  - eexists. split; [reflexivity|]. apply Hjoin, Hname.
  - exists out. now split.
  - eexists. split; [reflexivity|]. apply Hjoin, Hname.
Qed.

Lemma plainPath_keeps_ending (a b : jsstring) :
  endsWith b (js ".json") = true ->
  endsWith (pathJoin plainPath a b) (js ".json") = true.
Proof.
  unfold endsWith. cbn [pathJoin plainPath]. intros H.
  apply prefixb_true in H. rewrite !rev_app_distr, H, <- !app_assoc.
  apply prefixb_app.
Qed.

Lemma parseArgs_output_json_witness :
  parseArgs plainPath [js "src"; js "--output"; js "./locales"]
  = Returns (mkCli (mkRunConfig true true true)
               (Some (js "./locales/src.json")) false (js "src"))
  /\ exists out,
       outputPath (mkCli (mkRunConfig true true true)
                     (Some (js "./locales/src.json")) false (js "src"))
       = Some out
       /\ endsWith out (js ".json") = true.
Proof.
  assert (H : parseArgs plainPath [js "src"; js "--output"; js "./locales"]
              = Returns (mkCli (mkRunConfig true true true)
                           (Some (js "./locales/src.json")) false
                           (js "src")))
    by reflexivity.
  split; [exact H|].
  exact (parseArgs_output_json plainPath _ _ plainPath_keeps_ending H).
Defined.

(** *** What [processTsFile] registers *)

Lemma get_register_same (o : jsobject) (k x : jsstring) :
  Obj.get o x = Some x -> Obj.get (register o k) x = Some x.
Proof.
  intros H. unfold register. rewrite ObjFacts.get_set.
  destruct (str_eqb k x && negb (str_eqb k (js "__proto__"))) eqn:E;
    [|exact H].
  apply andb_true_iff in E as [E _]. apply str_eqb_eq in E. now subst.
Qed.

Lemma has_cjk_not_proto (x : jsstring) :
  test no_flags cjk x = true -> str_eqb x (js "__proto__") = false.
Proof.
  intros H. apply str_eqb_neq. intros ->. vm_compute in H. discriminate.
Qed.

Lemma tsTermStep_registersPlain (cfg : scriptOptions) (seen : list term)
  (st : scriptState) (t : term) :
  test no_flags cjk (content t) = true ->
  registersPlain seen st ->
  registersPlain (seen ++ [t]) (tsTermStep cfg st t).
Proof.
  intros Hcjk [HJ HK]. unfold tsTermStep.
  destruct (includes (content t) (js "import")) eqn:Ei.
  { split; [exact HJ|]. intros t0 H0 Hi.
    apply in_app_or in H0 as [H0|[<-|[]]]; [now apply HK|congruence]. }
  destruct (existsb (str_eqb (content t)) (processedTexts st)) eqn:Ee.
  { apply existsb_str_eqb in Ee. split; [exact HJ|]. intros t0 H0 Hi.
    apply in_app_or in H0 as [H0|[<-|[]]]; [now apply HK|exact Ee]. }
  assert (HK' : forall m b n t0,
             In t0 (seen ++ [t]) ->
             includes (content t0) (js "import") = false ->
             In (content t0)
               (processedTexts
                  (mkScript b (content t :: processedTexts st) m n))).
  { intros m b n t0 H0 Hi. cbn [processedTexts].
    apply in_app_or in H0 as [H0|[<-|[]]]; [right; now apply HK|now left]. }
  destruct (test no_flags hasTemplateRegex (content t)) eqn:Et.
  - rewrite convert_registry. split; [|apply HK'].
    cbn [processedTexts scriptMap replacedText fst].
    intros x [<-|Hx] Hp; [congruence|].
    apply (get_register_same (register _ _)), get_register_same.
    now apply HJ.
  - split; [|apply HK']. cbn [processedTexts scriptMap].
    unfold generateI18nKey. intros x [<-|Hx] Hp.
    + rewrite ObjFacts.get_set, str_eqb_refl.
      now rewrite (has_cjk_not_proto _ Hcjk).
    + apply (get_register_same _ (content t)). now apply HJ.
Qed.

Lemma tsTerms_registersPlain (cfg : scriptOptions) (terms : list term) :
  Forall kept terms ->
  forall seen st,
    registersPlain seen st ->
    registersPlain (seen ++ terms) (fold_left (tsTermStep cfg) terms st).
Proof.
  induction 1 as [|t terms Ht _ IH]; intros seen st H; simpl.
  - now rewrite app_nil_r.
  - replace (seen ++ t :: terms) with ((seen ++ [t]) ++ terms)
      by now rewrite <- app_assoc.
    apply IH. apply tsTermStep_registersPlain; [|exact H].
    apply Ht.
Qed.

(** X19.  Every term of a script file that holds neither [import] nor an
    interpolation marker is in the registry afterwards, under its own
    text. *)
Theorem processTsFile_registers_terms (originalContent ext : jsstring)
  (registry : jsobject) (t : term) :
  In t (extractChineseTerms (removeComments originalContent) ScriptCtx) ->
  includes (content t) (js "import") = false ->
  test no_flags hasTemplateRegex (content t) = false ->
  Obj.get (scriptMap (processTsFile originalContent ext registry)) (content t)
  = Some (content t).
Proof.
  intros Hin Hi Hp. unfold processTsFile.
  set (terms := extractChineseTerms (removeComments originalContent) ScriptCtx)
    in *.
  destruct (filter _ terms) as [|t0 vs] eqn:Ef.
  - assert (H : In t (filter
                        (fun t => negb (includes (content t) (js "import")))
                        terms)).
    { apply filter_In. split; [assumption|]. now rewrite Hi. }
    rewrite Ef in H. destruct H.
  - match goal with
    | |- context [fold_left (tsTermStep ?cfg) terms ?st0] =>
        destruct (tsTerms_registersPlain cfg terms (extract_kept _ _) [] st0)
          as [HJ HK]
    end.
    { split; [intros x []|intros t1 []]. }
    apply HJ; [|exact Hp]. now apply HK.
Qed.

Lemma processTsFile_registers_terms_witness :
  let t := mkTerm (js "'你好'") (js "你好") SingleQuote [] [] in
  In t (extractChineseTerms (removeComments Examples.scriptFile) ScriptCtx)
  /\ Obj.get (scriptMap (processTsFile Examples.scriptFile (js ".ts") []))
       (content t)
     = Some (content t).
Proof.
  cbv zeta.
  assert (H : In (mkTerm (js "'你好'") (js "你好") SingleQuote [] [])
                (extractChineseTerms (removeComments Examples.scriptFile)
                   ScriptCtx)).
  { vm_compute. left. reflexivity. }
  split; [exact H|].
  apply (processTsFile_registers_terms _ _ _ _ H); reflexivity.
Defined.

(** *** [isScriptTsx] *)

Lemma test_lacks_literal (p : jsstring) (r : regex) (s : jsstring) :
  includes s p = false -> test no_flags (Seq (lit p) r) s = false.
Proof.
  intros H. apply includes_false in H. unfold test, exec.
  rewrite (search_dead (fun suf => find_sub p suf = None) (find_sub_tail p));
    auto.
  intros pre suf. apply match_here_lit_then.
Qed.

(** X13.  The language attribute counts wherever it stands in the tag
    and with either quote on either side, also two different ones; a
    tag without [lang=] is no TSX. *)
Theorem isScriptTsx_lang :
  (forall pre post q1 q2,
      In q1 [34%N; ch "'"] -> In q2 [34%N; ch "'"] ->
      isScriptTsx (pre ++ js "lang=" ++ [q1] ++ js "tsx" ++ [q2] ++ post)
      = true)
  /\ (forall scriptTag,
         includes scriptTag (js "lang=") = false ->
         isScriptTsx scriptTag = false).
Proof.
  split.
  - intros pre post q1 q2 H1 H2. unfold isScriptTsx.
    cbn [In] in H1, H2.
    destruct H1 as [<-|[<-|[]]]; destruct H2 as [<-|[<-|[]]];
      (eapply test_found; lazy; reflexivity).
  - intros scriptTag H. unfold isScriptTsx.
    now apply test_lacks_literal.
Qed.

Lemma isScriptTsx_lang_witness :
  In 34%N [34%N; ch "'"] /\ In (ch "'") [34%N; ch "'"]
  /\ isScriptTsx (js "<script setup " ++ js "lang=" ++ [34%N] ++ js "tsx"
                    ++ [ch "'"] ++ js ">") = true
  /\ includes (js "<script setup>") (js "lang=") = false
  /\ isScriptTsx (js "<script setup>") = false.
Proof.
  assert (H1 : In 34%N [34%N; ch "'"]) by (left; reflexivity).
  assert (H2 : In (ch "'") [34%N; ch "'"]) by (right; left; reflexivity).
  split; [exact H1|]. split; [exact H2|].
  split; [exact (proj1 isScriptTsx_lang _ _ _ _ H1 H2)|].
  split; [reflexivity|].
  apply (proj2 isScriptTsx_lang). reflexivity.
Defined.

(** *** [isInVueInterpolation] *)

Lemma substring_from_to (s : jsstring) (a n : nat) :
  (a <= Nat.min n (length s))%nat ->
  substring s (Z.of_nat a) (Z.of_nat n) = skipn a (firstn n s).
Proof.
  intros Ha. unfold substring. rewrite !clamp_of_nat.
  rewrite (Nat.min_l a (length s)) by lia.
  rewrite (Nat.min_l a (Nat.min n (length s))) by lia.
  rewrite (Nat.max_r a (Nat.min n (length s))) by lia.
  rewrite skipn_firstn_comm.
  rewrite <- (firstn_min (n - a) (skipn a s)), length_skipn.
  f_equal. lia.
Qed.

(** X10.  A position is inside an interpolation exactly when it is not
    negative and the last [{{] before it comes after the last [}}]
    before it; the further check of the text between the two is never
    decisive. *)
Theorem isInVueInterpolation_last_braces (templateContent : jsstring)
  (textIndex : Z) :
  let beforeText := substring templateContent 0 textIndex in
  let lastOpenBrace := lastIndexOf beforeText (js "{{") in
  let lastCloseBrace := lastIndexOf beforeText (js "}}") in
  isInVueInterpolation templateContent textIndex
  = (0 <=? textIndex) && negb (lastOpenBrace =? -1)
    && (lastCloseBrace <? lastOpenBrace).
Proof.
  cbv zeta. unfold isInVueInterpolation.
  destruct (textIndex <? 0) eqn:E0.
  { apply Z.ltb_lt in E0.
    now replace (0 <=? textIndex) with false
      by (symmetry; apply Z.leb_gt; lia). }
  apply Z.ltb_ge in E0.
  replace (0 <=? textIndex) with true by (symmetry; apply Z.leb_le; lia).
  cbn [andb].
  destruct (negb _ && _) eqn:Ec; [|reflexivity].
  apply andb_true_iff in Ec as [Eo Ecl]. apply negb_true_iff in Eo.
  apply Z.eqb_neq in Eo. apply Z.ltb_lt in Ecl.
  rewrite <- (Z2Nat.id textIndex) in * by lia.
  set (n := Z.to_nat textIndex) in *.
  rewrite substring_0 in *.
  set (beforeText := firstn n templateContent) in *.
  unfold lastIndexOf in *.
  pose proof (find_last_spec (js "{{") beforeText) as Ho.
  pose proof (find_last_spec (js "}}") beforeText) as Hc.
  destruct (find_last (js "{{") beforeText) as [ko|]; [|now simpl in Eo].
  destruct Ho as (Hko & Hpo & _). cbn [index_result] in *.
  assert (Hlen : (ko + 2 <= length beforeText)%nat).
  { apply prefixb_true in Hpo. apply (f_equal (@length N)) in Hpo.
    change (js "{{") with [123%N; 123%N] in Hpo.
    rewrite length_app, !length_skipn in Hpo. cbn [length] in Hpo. lia. }
  replace (Z.of_nat ko + 2) with (Z.of_nat (ko + 2)) by lia.
  rewrite substring_from_to.
  2:{ unfold beforeText in Hlen. rewrite length_firstn in Hlen. lia. }
  fold beforeText.
  assert (Hnone : find_sub (js "}}") (skipn (ko + 2) beforeText) = None).
  { destruct (find_sub (js "}}") (skipn (ko + 2) beforeText)) as [d|] eqn:Ef;
      [|reflexivity].
    exfalso. apply find_sub_some in Ef as [Ef _].
    assert (Hp : prefixb (js "}}") (skipn (d + (ko + 2)) beforeText) = true).
    { assert (Hd : (d <= length (skipn (ko + 2) beforeText))%nat).
      { pose proof (f_equal (@length N) Ef) as El.
        change (js "}}") with [125%N; 125%N] in El.
        rewrite !length_app, length_firstn in El. cbn [length] in El. lia. }
      rewrite <- skipn_skipn. rewrite Ef at 1.
      rewrite skipn_app, length_firstn.
      rewrite Nat.min_l by lia. rewrite Nat.sub_diag.
      rewrite skipn_all2 by (rewrite length_firstn; lia).
      cbn [app skipn]. apply prefixb_app. }
    assert (Hd2 : (d + (ko + 2) + 2 <= length beforeText)%nat).
    { apply prefixb_true in Hp. apply (f_equal (@length N)) in Hp.
      change (js "}}") with [125%N; 125%N] in Hp.
      rewrite length_app, !length_skipn in Hp. cbn [length] in Hp. lia. }
    destruct (find_last (js "}}") beforeText) as [kc|].
    - destruct Hc as (_ & _ & Hmax). cbn [index_result] in Ecl.
      rewrite Hmax in Hp by lia. discriminate.
    - rewrite Hc in Hp by lia. discriminate. }
  unfold includes. now rewrite Hnone.
Qed.

(** *** The window of [isAlreadyInternationalized] *)

Lemma is_ws_not_paren (x : N) : is_ws x = true -> (x =? ch "(")%N = false.
Proof.
  intros H. destruct (x =? ch "(")%N eqn:E; [|reflexivity].
  apply N.eqb_eq in E. subst x. vm_compute in H. discriminate.
Qed.

Lemma ws_lacks_paren (s : jsstring) :
  forallb is_ws s = true -> lacks (ch "(") s = true.
Proof.
  unfold lacks. rewrite !forallb_forall. intros H x Hx.
  now rewrite (is_ws_not_paren x (H x Hx)).
Qed.

Lemma direct_needs_paren (s : jsstring) :
  lacks (ch "(") s = true -> some_test directI18nPatterns s = false.
Proof.
  intros H. unfold some_test, directI18nPatterns.
  cbn [existsb fst snd plain].
  repeat match goal with
         | |- context [test ?fl ?r s] =>
             rewrite (test_needs fl (ch "(") r s eq_refl eq_refl eq_refl H)
         end.
  reflexivity.
Qed.

(** X26.  Only the 25 code units before the quote are looked at: where
    they are all white space, a literal that is no call itself is not
    taken for localized, whatever stands before the white space. *)
Theorem isAlreadyInternationalized_window (text pre pad post : jsstring) :
  some_test i18nPatterns text = false ->
  (25 <= length pad)%nat ->
  forallb is_ws pad = true ->
  isAlreadyInternationalized text (pre ++ pad ++ post) (len (pre ++ pad))
  = false.
Proof.
  intros Ht Hlen Hws. unfold isAlreadyInternationalized. rewrite Ht.
  destruct (truthy (pre ++ pad ++ post)); [|reflexivity].
  replace (0 <=? len (pre ++ pad)) with true
    by (symmetry; apply Z.leb_le; unfold len; lia).
  apply direct_needs_paren. unfold beforeQuote.
  assert (E : substring (pre ++ pad ++ post)
                (Z.max 0 (len (pre ++ pad) - 25)) (len (pre ++ pad))
              = skipn (length pad - 25) pad).
  { unfold len. rewrite length_app.
    replace (Z.max 0 (Z.of_nat (length pre + length pad) - 25))
      with (Z.of_nat (length pre + (length pad - 25))) by lia.
    rewrite substring_from_to by (rewrite !length_app; lia).
    rewrite app_assoc, firstn_app, <- length_app, Nat.sub_diag, firstn_all.
    cbn [firstn]. rewrite app_nil_r, skipn_app.
    rewrite skipn_all2 by lia. cbn [app]. f_equal. lia. }
  rewrite E. apply lacks_skipn. now apply ws_lacks_paren.
Qed.

Lemma isAlreadyInternationalized_window_witness :
  let pad := js "                         " in
  some_test i18nPatterns (js "保存") = false
  /\ (25 <= length pad)%nat
  /\ forallb is_ws pad = true
  /\ isAlreadyInternationalized (js "保存")
       (js "$t(" ++ pad ++ js "'保存')") (len (js "$t(" ++ pad))
     = false.
Proof.
  cbv zeta. split; [reflexivity|]. split; [simpl; lia|].
  split; [reflexivity|].
  apply isAlreadyInternationalized_window; [reflexivity|simpl; lia|reflexivity].
Defined.

(** *** What [checkIfInAttribute] reports as a plain attribute *)

Lemma search_occurs (fl : flags) (r : regex) :
  forall suf pre m,
    search fl r pre suf = Some m ->
    exists u v, suf = u ++ v
                /\ match_here fl r (rev u ++ pre) v = Some m.
Proof.
  induction suf as [|x t IH]; intros pre m; cbn [search];
    destruct (match_here fl r pre _) as [m0|] eqn:E.
  - intros [= <-]. now exists [], [].
  - discriminate.
  - intros [= <-]. now exists [], (x :: t).
  - intros H. apply IH in H as (u & v & Hs & Hm).
    exists (x :: u), v. cbn [rev app]. rewrite <- app_assoc. cbn [app].
    split; [now rewrite Hs|exact Hm].
Qed.

Lemma passes_consumed (P : N -> bool) (st st' : mstate) :
  passes P st st' ->
  exists u, after st = u ++ after st' /\ forallb P u = true
            /\ consumed st st' = u.
Proof.
  intros (u & H1 & _ & H3). exists u. repeat split; auto.
  unfold consumed. rewrite H1, length_app, Nat.add_sub.
  rewrite firstn_app, Nat.sub_diag, firstn_all. simpl. apply app_nil_r.
Qed.

Section PassesPlain.
Variable P : N -> bool.

Lemma passes_plain_refl (st : mstate) : passes_plain P st st.
Proof. split; [apply passes_refl|reflexivity]. Qed.

Lemma passes_plain_trans (a b d : mstate) :
  passes_plain P a b -> passes_plain P b d -> passes_plain P a d.
Proof.
  intros [H1 E1] [H2 E2]. split; [eapply passes_trans; eauto|congruence].
Qed.

Lemma star_loop_passes_plain
  (ma : (mstate -> option mstate) -> mstate -> option mstate) (g : bool)
  (k : mstate -> option mstate) :
  (forall k' st e, ma k' st = Some e ->
                   exists st', passes_plain P st st' /\ k' st' = Some e) ->
  forall n st e, star_loop ma g k n st = Some e ->
                 exists st', passes_plain P st st' /\ k st' = Some e.
Proof.
  intros Hma. induction n as [|n IH]; intros st e H; simpl in H.
  - exists st. split; [apply passes_plain_refl|assumption].
  - assert (Hagain : forall e0,
               ma (fun st' =>
                     if (length (after st') <? length (after st))%nat
                     then star_loop ma g k n st' else None) st = Some e0 ->
               exists st', passes_plain P st st' /\ k st' = Some e0).
    { intros e0 E. apply Hma in E as (st1 & Hp1 & E).
      destruct (_ <? _)%nat; [|discriminate].
      apply IH in E as (st2 & Hp2 & E).
      exists st2. split; [eapply passes_plain_trans; eauto|assumption]. }
    destruct g.
    + destruct (ma _ st) as [e0|] eqn:E.
      * injection H as <-. now apply Hagain.
      * exists st. split; [apply passes_plain_refl|assumption].
    + destruct (k st) as [e0|] eqn:E.
      * injection H as <-. exists st.
        split; [apply passes_plain_refl|assumption].
      * now apply Hagain.
Qed.

Lemma rmatch_passes_plain (fl : flags) (r : regex) :
  accepts_only fl P r -> groupless r = true ->
  forall k st e, rmatch fl r k st = Some e ->
                 exists st', passes_plain P st st' /\ k st' = Some e.
Proof.
  induction r as [|c0|neg rs|a IHa b IHb|a IHa b IHb|g a IHa|n a IHa| | |];
    simpl; intros Hok Hg k st e H.
  - exists st. split; [apply passes_plain_refl|assumption].
  - destruct (after st) as [|x t] eqn:Ea; [discriminate|].
    destruct (chr_eq fl c0 x) eqn:Ec; [|discriminate].
    exists (step st x t). split; [|assumption].
    split; [apply passes_step; auto|reflexivity].
  - destruct (after st) as [|x t] eqn:Ea; [discriminate|].
    destruct (cls_mem fl neg rs x) eqn:Ec; [|discriminate].
    exists (step st x t). split; [|assumption].
    split; [apply passes_step; auto|reflexivity].
  - destruct Hok as [Ha Hb]. apply andb_true_iff in Hg as [Ga Gb].
    apply (IHa Ha Ga) in H as (st1 & Hp1 & H).
    apply (IHb Hb Gb) in H as (st2 & Hp2 & H).
    exists st2. split; [eapply passes_plain_trans; eauto|assumption].
  - destruct Hok as [Ha Hb]. apply andb_true_iff in Hg as [Ga Gb].
    destruct (rmatch fl a k st) as [e0|] eqn:E.
    + injection H as <-. now apply (IHa Ha Ga) in E.
    + now apply (IHb Hb Gb) in H.
  - exact (star_loop_passes_plain (rmatch fl a) g k (IHa Hok Hg)
             (S (length (after st))) st e H).
  - discriminate.
  - destruct (at_bol fl st); [|discriminate].
    exists st. split; [apply passes_plain_refl|assumption].
  - destruct (at_eol fl st); [|discriminate].
    exists st. split; [apply passes_plain_refl|assumption].
  - destruct (at_wordb st); [|discriminate].
    exists st. split; [apply passes_plain_refl|assumption].
Qed.

End PassesPlain.

Lemma basicAttr_match (original0 pre suf : jsstring) (m : jsmatch) :
  match_here no_flags (basicAttrRegex original0) pre suf = Some m ->
  exists ws1 ws2 post,
    suf = group m 1 ++ ws1 ++ js "=" ++ ws2 ++ original0 ++ post
    /\ group m 1 <> []
    /\ forallb (in_ranges (word_ranges ++ [one "-"])) (group m 1) = true
    /\ forallb (in_ranges ws_ranges) ws1 = true
    /\ forallb (in_ranges ws_ranges) ws2 = true.
Proof.
  unfold match_here, basicAttrRegex. cbn [seqs]. unfold Plus.
  rewrite RegExp_escapeRegExp.
  destruct (rmatch _ _ Some _) as [e|] eqn:E; [|discriminate].
  intros [= <-]. cbn [group m_caps].
  rewrite rmatch_Seq, rmatch_Group, rmatch_Seq in E.
  destruct suf as [|x t]; [discriminate|].
  unfold word_dash in E. rewrite rmatch_cls_cons in E.
  destruct (cls_mem no_flags false (word_ranges ++ [one "-"]) x) eqn:Ex;
    [|discriminate].
  apply (rmatch_passes (cls_mem no_flags false (word_ranges ++ [one "-"])))
    in E as (st1 & Hp1 & E); [|intros y Hy; exact Hy].
  apply passes_consumed in Hp1 as (u1 & Ha1 & Hu1 & _).
  cbn [after] in Ha1.
  rewrite rmatch_Seq in E.
  apply (rmatch_passes_plain (cls_mem no_flags false ws_ranges)) in E
    as (st2 & [Hp2 Hc2] & E); [|intros y Hy; exact Hy|reflexivity].
  apply passes_consumed in Hp2 as (u2 & Ha2 & Hu2 & _).
  cbn [after set_cap caps] in Ha2, Hc2.
  rewrite rmatch_Seq in E. unfold c in E. cbn [rmatch] in E.
  destruct (after st2) as [|y t2] eqn:Ea2; [discriminate|].
  destruct (chr_eq no_flags (ch "=") y) eqn:Ey; [|discriminate].
  rewrite chr_eq_plain in Ey. apply N.eqb_eq in Ey. subst y.
  rewrite <- rmatch_Star in E.
  apply (rmatch_passes_plain (cls_mem no_flags false ws_ranges)) in E
    as (st4 & [Hp4 Hc4] & E); [|intros z Hz; exact Hz|reflexivity].
  apply passes_consumed in Hp4 as (u3 & Ha4 & Hu3 & _).
  cbn [after step caps] in Ha4, Hc4.
  rewrite rmatch_lit in E.
  destruct (prefixb original0 (after st4)) eqn:Ep; [|discriminate].
  injection E as <-. unfold group. cbn [m_caps caps].
  rewrite Hc4, Hc2. cbn [assoc_nat Nat.eqb].
  assert (Hc : consumed (mkState pre (x :: t) []) st1 = x :: u1).
  { unfold consumed. cbn [after]. rewrite Ha1. cbn [length].
    rewrite length_app.
    replace (S (length u1 + length (after st1)) - length (after st1))%nat
      with (S (length u1)) by lia.
    cbn [firstn]. f_equal.
    rewrite firstn_app, Nat.sub_diag, firstn_all. simpl. apply app_nil_r. }
  rewrite Hc.
  apply prefixb_true in Ep.
  exists u2, u3, (skipn (length original0) (after st4)).
  split; [|split; [discriminate|split; [|split]]].
  - rewrite <- Ep, Ha1, Ha2, Ha4. reflexivity.
  - cbn [forallb]. rewrite cls_mem_plain in Ex. rewrite Ex. cbn [andb].
    rewrite forallb_forall in *. intros z Hz.
    rewrite <- cls_mem_plain. auto.
  - rewrite forallb_forall in *. intros z Hz.
    rewrite <- cls_mem_plain. auto.
  - rewrite forallb_forall in *. intros z Hz.
    rewrite <- cls_mem_plain. auto.
Qed.

(** X27.  Where [checkIfInAttribute] reports a plain attribute, the
    buffer holds the attribute name it returns, a non-empty run of word
    characters and dashes, then white space if any, the equals sign,
    white space if any, and the literal. *)
Theorem checkIfInAttribute_plain (templateContent original0 : jsstring) :
  needsBinding (checkIfInAttribute templateContent original0) = true ->
  exists pre ws1 ws2 post,
    templateContent
    = pre ++ attrName (checkIfInAttribute templateContent original0) ++ ws1
        ++ js "=" ++ ws2 ++ original0 ++ post
    /\ attrName (checkIfInAttribute templateContent original0) <> []
    /\ forallb (in_ranges (word_ranges ++ [one "-"]))
         (attrName (checkIfInAttribute templateContent original0)) = true
    /\ forallb (in_ranges ws_ranges) ws1 = true
    /\ forallb (in_ranges ws_ranges) ws2 = true.
Proof.
  unfold checkIfInAttribute.
  destruct (exec no_flags (basicAttrRegex original0) templateContent)
    as [m|] eqn:E.
  - intros _. cbn [attrName]. unfold exec in E.
    apply search_occurs in E as (u & v & Hs & Hm).
    apply basicAttr_match in Hm as (ws1 & ws2 & post & Hv & H1 & H2 & H3 & H4).
    exists u, ws1, ws2, post. rewrite Hs, Hv. auto.
  - destruct (exec no_flags (vueAttrRegex original0) templateContent);
      discriminate.
Qed.

Lemma checkIfInAttribute_plain_witness :
  needsBinding
    (checkIfInAttribute
       (js "<el-input placeholder = " ++ dq ++ js "请输入" ++ dq ++ js ">")
       (dq ++ js "请输入" ++ dq))
  = true
  /\ exists pre ws1 ws2 post,
       js "<el-input placeholder = " ++ dq ++ js "请输入" ++ dq ++ js ">"
       = pre ++ js "placeholder" ++ ws1 ++ js "=" ++ ws2
           ++ (dq ++ js "请输入" ++ dq) ++ post.
Proof.
  assert (H : needsBinding
                (checkIfInAttribute
                   (js "<el-input placeholder = " ++ dq ++ js "请输入" ++ dq
                      ++ js ">")
                   (dq ++ js "请输入" ++ dq))
              = true) by reflexivity.
  split; [exact H|].
  destruct (checkIfInAttribute_plain _ _ H)
    as (pre & ws1 & ws2 & post & E & _).
  exists pre, ws1, ws2, post. exact E.
Defined.

(** *** Replacing a literal everywhere *)

Lemma expand_plainReplacement (m : jsmatch) (pre post : jsstring) :
  forall repl, plainReplacement repl = true ->
               expand 0 m pre post repl = repl.
Proof.
  induction repl as [|d t IH]; [reflexivity|].
  cbn [plainReplacement expand]. intros H.
  apply andb_true_iff in H as [Hd Ht]. specialize (IH Ht).
  destruct (d =? 36)%N eqn:Ed; cbn [negb]; [|now rewrite IH].
  apply N.eqb_eq in Ed. subst d.
  destruct t as [|x t']; [reflexivity|].
  apply negb_true_iff in Hd.
  apply orb_false_iff in Hd as [Hd H4].
  apply orb_false_iff in Hd as [Hd H3].
  apply orb_false_iff in Hd as [H1 H2].
  rewrite H1, H2, H3, H4.
  assert (Hno : forall a, ((1 <=? a) && (a <=? 0))%nat = false).
  { intros [|a]; reflexivity. }
  destruct (is_digit x); [|now rewrite IH].
  cbv zeta. rewrite Hno, IH.
  destruct t' as [|y t'']; [reflexivity|].
  rewrite <- andb_assoc, Hno, andb_false_r. reflexivity.
Qed.

Lemma max_group_lit (p : jsstring) : max_group (lit p) = 0%nat.
Proof. induction p as [|x p IH]; simpl; [reflexivity|exact IH]. Qed.

Lemma prefixb_cons_true (p : jsstring) (x : N) (t : jsstring) :
  (0 < length p)%nat -> prefixb p (x :: t) = true ->
  exists p', length p = S (length p') /\ t = p' ++ skipn (length p') t.
Proof.
  intros Hp E. apply prefixb_true in E.
  destruct p as [|y p']; [simpl in Hp; lia|].
  cbn [app length skipn] in E. injection E as _ E.
  exists p'. split; [reflexivity|exact E].
Qed.

Section ReplaceLiteral.
Variables s repl : jsstring.
Hypothesis Hs : (0 < length s)%nat.
Hypothesis Hr : plainReplacement repl = true.

Lemma replace_scan_lit_pre :
  forall n suf pre pre',
    (length suf <= n)%nat ->
    replace_scan no_flags (lit s) repl pre suf 0
    = replace_scan no_flags (lit s) repl pre' suf 0.
Proof.
  induction n as [|n IH]; intros suf pre pre' Hn.
  - destruct suf; [|simpl in Hn; lia].
    rewrite !replace_scan_nil, !match_here_lit.
    destruct (prefixb s []); [|reflexivity].
    rewrite max_group_lit, !expand_plainReplacement by exact Hr.
    reflexivity.
  - destruct suf as [|x t].
    + rewrite !replace_scan_nil, !match_here_lit.
      destruct (prefixb s []); [|reflexivity].
      rewrite max_group_lit, !expand_plainReplacement by exact Hr. reflexivity.
    + rewrite !replace_scan_cons, !match_here_lit.
      destruct (prefixb s (x :: t)) eqn:E.
      * cbn [m_text]. rewrite max_group_lit, !expand_plainReplacement by exact Hr.
        f_equal. apply (prefixb_cons_true _ _ _ Hs) in E as (s' & El & E).
        rewrite El, E, !replace_scan_pass. apply IH.
        rewrite length_skipn. simpl in Hn. lia.
      * f_equal. apply IH. simpl in Hn. lia.
Qed.

Lemma replace_scan_lit_eq :
  forall suf pre,
    match find_sub s suf with
    | None => replace_scan no_flags (lit s) repl pre suf 0 = suf
    | Some k =>
        replace_scan no_flags (lit s) repl pre suf 0
        = firstn k suf ++ repl
            ++ replace_scan no_flags (lit s) repl []
                 (skipn (k + length s) suf) 0
    end.
Proof.
  induction suf as [|x t IH]; intros pre.
  - cbn [find_sub].
    destruct (prefixb s []) eqn:E.
    + apply prefixb_true in E. apply (f_equal (@length N)) in E.
      rewrite length_app in E. simpl in E. lia.
    + now rewrite replace_scan_nil, match_here_lit, E.
  - cbn [find_sub]. rewrite replace_scan_cons, match_here_lit.
    destruct (prefixb s (x :: t)) eqn:E.
    + cbn [m_text firstn app]. rewrite max_group_lit, expand_plainReplacement by exact Hr.
      f_equal. apply (prefixb_cons_true _ _ _ Hs) in E as (s' & El & E).
      rewrite El. cbn [Nat.add skipn].
      rewrite E at 1. rewrite replace_scan_pass.
      apply (replace_scan_lit_pre (length (skipn (length s') t))).
      reflexivity.
    + specialize (IH (x :: pre)).
      destruct (find_sub s t) as [k|]; cbn [option_map].
      * rewrite IH. reflexivity.
      * now rewrite IH.
Qed.

End ReplaceLiteral.

(** X28.  Replacing a term's text everywhere, as the global pattern built
    from [escapeRegExp] does, leaves a text without the term as it is;
    otherwise it keeps what stands before the leftmost occurrence, puts
    the replacement in its place and goes on in the same way behind that
    occurrence. *)
Theorem replaceAll_escaped_literal (s repl text : jsstring) :
  (0 < length s)%nat ->
  plainReplacement repl = true ->
  (find_sub s text = None ->
   replaceAll no_flags (RegExp (escapeRegExp s)) repl text = text)
  /\ (forall k,
        find_sub s text = Some k ->
        replaceAll no_flags (RegExp (escapeRegExp s)) repl text
        = firstn k text ++ repl
            ++ replaceAll no_flags (RegExp (escapeRegExp s)) repl
                 (skipn (k + length s) text)).
Proof.
  intros Hs Hr. rewrite RegExp_escapeRegExp. unfold replaceAll.
  pose proof (replace_scan_lit_eq s repl Hs Hr text []) as H.
  split.
  - intros E. now rewrite E in H.
  - intros k E. now rewrite E in H.
Qed.

Lemma replaceAll_escaped_literal_witness :
  (0 < length (js ">保存<"))%nat
  /\ plainReplacement (js ">{{ $t('保存') }}<") = true
  /\ replaceAll no_flags (RegExp (escapeRegExp (js ">保存<")))
       (js ">{{ $t('保存') }}<") (js "<b>保存</b><i>保存</i>")
     = js "<b" ++ js ">{{ $t('保存') }}<"
         ++ replaceAll no_flags (RegExp (escapeRegExp (js ">保存<")))
              (js ">{{ $t('保存') }}<") (js "/b><i>保存</i>").
Proof.
  split; [simpl; lia|]. split; [reflexivity|].
  destruct (replaceAll_escaped_literal (js ">保存<")
              (js ">{{ $t('保存') }}<") (js "<b>保存</b><i>保存</i>"))
    as [_ H]; [simpl; lia|reflexivity|].
  apply (H 2%nat). reflexivity.
Defined.

(** *** C6: the passes of the normalizer *)












Section Delimited.
Variable r : regex.
Variables o cl : jsstring.
Hypothesis Ho : (0 < length o)%nat.
Hypothesis Hr : forall pre suf,
    match_here no_flags r pre suf
    = if prefixb o suf
      then match find_sub cl (skipn (length o) suf) with
           | Some j =>
               Some (mkMatch (length pre)
                       (firstn (length o + j + length cl) suf) [])
           | None => None
           end
      else None.





End Delimited.










(** *** The pass for [#] *)






Lemma dropWhile_app_some (f : N -> bool) (a b : jsstring) (z : N)
  (body : jsstring) :
  dropWhile f a = z :: body ->
  takeWhile f (a ++ b) = takeWhile f a
  /\ dropWhile f (a ++ b) = z :: body ++ b.
Proof.
  induction a as [|x a IH]; simpl; [discriminate|].
  destruct (f x).
  - intros H. destruct (IH H) as [E1 E2]. now rewrite E1, E2.
  - intros [= <- <-]. now split.
Qed.

Lemma dropWhile_all (f : N -> bool) (a : jsstring) :
  dropWhile f a = [] -> forallb f a = true.
Proof.
  induction a as [|x a IH]; simpl; [reflexivity|].
  destruct (f x); [exact IH|discriminate].
Qed.














(** *** C1: the calls the rewrite writes *)






(** A text that holds an opening holds a call. *)
Lemma containsCall_opening (before rest : jsstring) :
  callOpening before -> containsCall (before ++ rest).
Proof. intros H. now exists before, rest. Qed.









(** A literal that directly follows a word character keeps no separator
    when the script of a component is rewritten: the pass turns
    [return'你好'] into [returnt('你好')], the scanner takes the key for a
    candidate again, and a second pass wraps it once more. *)
Lemma call_after_word_is_extracted_again :
  resultContent (processVueFile Examples.gluedComponent Examples.allOn [])
  = Examples.gluedOut
  /\ map original (extractChineseTerms (removeComments Examples.gluedOut) ScriptCtx)
     = [js "'你好'"]
  /\ resultContent (processVueFile Examples.gluedOut Examples.allOn [])
     = Examples.gluedTwice.
Proof. repeat split; vm_compute; reflexivity. Qed.
